(** * A line-oriented file editor (file-editor/main.go), verified

    The editor keeps a file in memory as a Go slice of lines, edits it by
    1-based line number, searches and substitutes with the [regexp]
    package, copies ranges to a clipboard and writes the lines back with
    [bufio].  This development embeds the editor twice:

    - at the level of values ([FileEditor], a record whose [lines] field is
      a list), where the functional behaviour of each method is stated;
    - at the level of memory (module [Mem]), where a slice is a window on a
      backing array in a heap, [append] reuses spare capacity and element
      assignment writes in place, so that sharing between the buffer and
      the clipboard can be stated and excluded.

    The two levels are related by a simulation.  The loop of [main] that
    reads the commands is embedded on top of the value level.

    The repository's second program, a menu in front of [git], is embedded
    in module [GitOps] as a state monad over the console. *)

From Stdlib Require Import ZArith Ascii String Sorted.
From stdpp Require Import base list strings gmap.

Local Open Scope Z_scope.

(** ** Go values *)

(** A Go [string] is a sequence of bytes: Rocq's [string].  A Go [int] is
    modelled by [Z]; the only arithmetic the editor does on line numbers is
    [+ 1] and [- 1] on numbers bounded by a slice length, which cannot wrap. *)

Definition LF : ascii := ascii_of_nat 10.
Definition CR : ascii := ascii_of_nat 13.

(** [len(s)] for a slice of lines, as a Go [int]. *)
Definition len {A} (l : list A) : Z := Z.of_nat (length l).

(** The errors the editor builds with [fmt.Errorf], one constructor per
    message. *)
Inductive error : Type :=
  | invalid_line_number (lineNum : Z)      (* "invalid line number: %d" *)
  | invalid_regex_pattern                  (* "invalid regex pattern: %w" *)
  | invalid_line_range (start end_ : Z)    (* "invalid line range: %d-%d" *)
  | cannot_open_file                       (* "cannot open file: %w" *)
  | error_reading_file                     (* "error reading file: %w" *)
  | cannot_create_file                     (* "cannot create file: %w" *)
  | error_writing_line                     (* "error writing line: %w" *)
  | error_flushing_writer                  (* "error flushing writer: %w" *)
  | failed_to_load_file (cause : error).   (* "failed to load file: %w" *)

(** The error kinds of the specification. *)
Inductive ErrorKind : Type :=
  InvalidPosition | InvalidRange | InvalidPattern | IOError.

Fixpoint kind (e : error) : ErrorKind :=
  match e with
  | invalid_line_number _ => InvalidPosition
  | invalid_regex_pattern => InvalidPattern
  | invalid_line_range _ _ => InvalidRange
  | cannot_open_file | error_reading_file | cannot_create_file
  | error_writing_line | error_flushing_writer => IOError
  | failed_to_load_file cause => kind cause
  end.

(** ** The regexp package *)

(** The editor uses three entry points of Go's [regexp]: [Compile],
    [MatchString] and [ReplaceAllString].  The package is not part of the
    repository; the editor is verified against any implementation of this
    interface. *)
Class Regexp : Type := {
  regexp : Type;
  Compile : string → option regexp;
  MatchString : regexp → string → bool;
  ReplaceAllString : regexp → string → string → string;
}.

(** *** Literal patterns

    For a pattern that is a non-empty run of ordinary ASCII characters (no
    metacharacter), Go's compiled expression matches exactly the
    occurrences of the pattern text, and for a replacement without [$]
    [ReplaceAllString] substitutes the replacement for the leftmost
    non-overlapping occurrences.  [Literal] implements this fragment; it
    declines every other pattern.  It is used to evaluate the editor on
    concrete inputs inside the fragment. *)
Module Literal.

Definition metachars : list ascii :=
  list_ascii_of_string "\.+*?()|[]{}^$".

Definition ordinary (c : ascii) : bool :=
  (nat_of_ascii c <? 128)%nat && negb (bool_decide (c ∈ metachars)).

Definition Compile (pattern : string) : option string :=
  match pattern with
  | EmptyString => None
  | _ => if forallb ordinary (list_ascii_of_string pattern)
         then Some pattern else None
  end.

(** [has_prefix p s]: the text [s] starts with [p]. *)
Fixpoint has_prefix (p s : string) : bool :=
  match p, s with
  | EmptyString, _ => true
  | String a p', String b s' => Ascii.eqb a b && has_prefix p' s'
  | String _ _, EmptyString => false
  end.

(** An occurrence of [p] starts somewhere in [s]. *)
Fixpoint MatchString (p s : string) : bool :=
  has_prefix p s ||
  match s with
  | EmptyString => false
  | String _ s' => MatchString p s'
  end.

(** Left-to-right scan; [skip] counts the characters of an occurrence
    that has just been replaced and must still be passed over. *)
Fixpoint replace_from (p repl : string) (skip : nat) (s : string) : string :=
  match s with
  | EmptyString => EmptyString
  | String c s' =>
      match skip with
      | S k => replace_from p repl k s'
      | O =>
          if has_prefix p s
          then repl +:+ replace_from p repl (String.length p - 1) s'
          else String c (replace_from p repl O s')
      end
  end.

Definition ReplaceAllString (p src repl : string) : string :=
  replace_from p repl O src.

End Literal.

Definition LiteralRegexp : Regexp := {|
  regexp := string;
  Compile := Literal.Compile;
  MatchString := Literal.MatchString;
  ReplaceAllString := Literal.ReplaceAllString;
|}.

(** ** The editor, at the level of values *)

Record FileEditor : Type := mkFileEditor {
  filename : string;
  lines : list string;
  modified : bool;
}.

Definition set_lines (fe : FileEditor) (ls : list string) : FileEditor :=
  mkFileEditor (filename fe) ls (modified fe).

Definition set_modified (fe : FileEditor) (m : bool) : FileEditor :=
  mkFileEditor (filename fe) (lines fe) m.

(** A method with receiver [fe *FileEditor] and result [error] becomes a
    function to the editor after the call and the error ([None] for [nil]). *)

Definition insertLine (fe : FileEditor) (lineNum : Z) (text : string)
  : FileEditor * option error :=
  if (lineNum <? 1) || (lineNum >? len (lines fe) + 1) then
    (fe, Some (invalid_line_number lineNum))
  else
    let index := Z.to_nat (lineNum - 1) in
    let fe := set_lines fe (take index (lines fe) ++ ([text] ++ drop index (lines fe))) in
    let fe := set_modified fe true in
    (fe, None).

Definition deleteLine (fe : FileEditor) (lineNum : Z) : FileEditor * option error :=
  if (lineNum <? 1) || (lineNum >? len (lines fe)) then
    (fe, Some (invalid_line_number lineNum))
  else
    let index := Z.to_nat (lineNum - 1) in
    let fe := set_lines fe (take index (lines fe) ++ drop (index + 1) (lines fe)) in
    let fe := set_modified fe true in
    (fe, None).

Definition replaceLine (fe : FileEditor) (lineNum : Z) (text : string)
  : FileEditor * option error :=
  if (lineNum <? 1) || (lineNum >? len (lines fe)) then
    (fe, Some (invalid_line_number lineNum))
  else
    let fe := set_lines fe (<[Z.to_nat (lineNum - 1) := text]> (lines fe)) in
    let fe := set_modified fe true in
    (fe, None).

Definition appendLine (fe : FileEditor) (text : string) : FileEditor :=
  let fe := set_lines fe (lines fe ++ [text]) in
  set_modified fe true.

Definition copyLines (fe : FileEditor) (start end_ : Z)
  : FileEditor * (list string * option error) :=
  if (start <? 1) || (end_ <? 1) || (start >? len (lines fe))
     || (end_ >? len (lines fe)) || (start >? end_) then
    (fe, ([], Some (invalid_line_range start end_)))
  else
    (* copied := make([]string, end-start+1); copy(copied, fe.lines[start-1:end]) *)
    let window := drop (Z.to_nat (start - 1)) (take (Z.to_nat end_) (lines fe)) in
    let copied := replicate (Z.to_nat (end_ - start + 1)) EmptyString in
    let copied := take (length copied) window ++ drop (length window) copied in
    (fe, (copied, None)).

Definition pasteLines (fe : FileEditor) (lineNum : Z) (block : list string)
  : FileEditor * option error :=
  if (lineNum <? 1) || (lineNum >? len (lines fe) + 1) then
    (fe, Some (invalid_line_number lineNum))
  else
    let index := Z.to_nat (lineNum - 1) in
    let fe := set_lines fe (take index (lines fe) ++ (block ++ drop index (lines fe))) in
    let fe := set_modified fe true in
    (fe, None).

(** [searchAndReplace]: the loop [for i, line := range fe.lines], as a
    recursion over the lines still to visit.  The result carries the lines
    after the loop and the final value of the local [count]. *)
Fixpoint replace_loop `{Regexp} (regex : regexp) (replacement : string)
    (global : bool) (ls : list string) (count : Z) : list string * Z :=
  match ls with
  | [] => ([], count)
  | line :: rest =>
      if global then
        let newLine := ReplaceAllString regex line replacement in
        if negb (String.eqb newLine line) then
          let '(rest', count') := replace_loop regex replacement global rest (count + 1) in
          (newLine :: rest', count')
        else
          let '(rest', count') := replace_loop regex replacement global rest count in
          (line :: rest', count')
      else
        if MatchString regex line then
          (* fe.lines[i] = ...; count++; break *)
          (ReplaceAllString regex line replacement :: rest, count + 1)
        else
          let '(rest', count') := replace_loop regex replacement global rest count in
          (line :: rest', count')
  end.

(** Go's [searchAndReplace] returns only the error and reports [count] in
    its log line ("Replaced %d occurrences", printed when [count > 0]); the
    embedding returns the count next to the error. *)
Definition searchAndReplace `{Regexp} (fe : FileEditor)
    (pattern replacement : string) (global : bool)
  : FileEditor * (Z * option error) :=
  match Compile pattern with
  | None => (fe, (0, Some invalid_regex_pattern))
  | Some regex =>
      let '(ls, count) := replace_loop regex replacement global (lines fe) 0 in
      let fe := set_lines fe ls in
      let fe := if count >? 0 then set_modified fe true else fe in
      (fe, (count, None))
  end.

(** [search]: [i] is the index of the first line of [ls] in the buffer,
    [matches] the positions collected so far. *)
Fixpoint search_loop `{Regexp} (regex : regexp) (ls : list string) (i : Z)
    (matches : list Z) : list Z :=
  match ls with
  | [] => matches
  | line :: rest =>
      if MatchString regex line
      then search_loop regex rest (i + 1) (matches ++ [i + 1])
      else search_loop regex rest (i + 1) matches
  end.

Definition search `{Regexp} (fe : FileEditor) (pattern : string)
  : FileEditor * (list Z * option error) :=
  match Compile pattern with
  | None => (fe, ([], Some invalid_regex_pattern))
  | Some regex => (fe, (search_loop regex (lines fe) 0 [], None))
  end.

(** ** Files *)

(** What a name can denote.  A regular file has its bytes and tells
    whether the process may read and write it. *)
Inductive Node : Type :=
  | RegularFile (data : string) (readable writable : bool)
  | Directory.

(** The file system the editor runs against: the nodes by name, and the
    number of bytes the device still accepts before a write fails. *)
Record FileSystem : Type := mkFileSystem {
  nodes : gmap string Node;
  room : nat;
}.

(** [os.Open]: [None] when the open fails; otherwise the stream, which is
    the data of a regular file, or [None] for a stream whose reads fail (a
    directory opens, and then refuses to be read). *)
Definition os_Open (n : Node) : option (option string) :=
  match n with
  | RegularFile data readable _ => if readable then Some (Some data) else None
  | Directory => Some None
  end.

(** [os.Create] opens for reading and writing: it truncates a regular file
    that the process may read and write, and the device gets back the bytes
    the file held; it creates a file under a name that denotes nothing,
    unless the name is empty; it fails on anything else. *)
Definition os_Create (fs : FileSystem) (name : string) : option FileSystem :=
  match nodes fs !! name with
  | None =>
      if String.eqb name EmptyString then None
      else Some (mkFileSystem (<[name := RegularFile EmptyString true true]> (nodes fs))
                   (room fs))
  | Some (RegularFile data readable writable) =>
      if readable && writable
      then Some (mkFileSystem (<[name := RegularFile EmptyString readable writable]> (nodes fs))
                   (room fs + String.length data))
      else None
  | Some Directory => None
  end.

(** *** bufio.Scanner with the default split function, ScanLines *)

(** [bufio.MaxScanTokenSize]: the scanner's buffer never grows beyond this,
    and a line has to fit in it together with its newline. *)
Definition MaxScanTokenSize : Z := 65536.

(** [dropCR]: one carriage return at the end of the token is dropped. *)
Fixpoint dropCR (data : string) : string :=
  match data with
  | EmptyString => EmptyString
  | String c EmptyString => if Ascii.eqb c CR then EmptyString else data
  | String c rest => String c (dropCR rest)
  end.

(** The tokens [Scan] delivers on [data], and whether scanning stopped on
    [ErrTooLong].  [cur] holds the bytes of the line being read. *)
Fixpoint scan_lines (data cur : string) : list string * bool :=
  match data with
  | EmptyString =>
      if String.eqb cur EmptyString then ([], false)
      else if Z.of_nat (String.length cur) <? MaxScanTokenSize then ([dropCR cur], false)
      else ([], true)
  | String c rest =>
      if Z.of_nat (String.length cur) <? MaxScanTokenSize then
        if Ascii.eqb c LF then
          let '(tokens, tooLong) := scan_lines rest EmptyString in
          (dropCR cur :: tokens, tooLong)
        else scan_lines rest (cur +:+ String c EmptyString)
      else ([], true)
  end.

(** A scanner over an opened stream: the tokens of all successful [Scan]
    calls, and whether [Err] is non-nil afterwards. *)
Definition Scanner (stream : option string) : list string * bool :=
  match stream with
  | None => ([], true)
  | Some data => scan_lines data EmptyString
  end.

Definition loadFile (fe : FileEditor) (fs : FileSystem) : FileEditor * option error :=
  match nodes fs !! filename fe with
  | None => (fe, None)                     (* os.IsNotExist *)
  | Some node =>
      match os_Open node with
      | None => (fe, Some cannot_open_file)
      | Some stream =>
          let '(tokens, scanErr) := Scanner stream in
          (* for scanner.Scan() { fe.lines = append(fe.lines, scanner.Text()) } *)
          let fe := fold_left (λ fe text, set_lines fe (lines fe ++ [text])) tokens fe in
          if scanErr then (fe, Some error_reading_file) else (fe, None)
      end
  end.

Definition NewFileEditor (name : string) (fs : FileSystem)
  : option FileEditor * option error :=
  let editor := mkFileEditor name [] false in
  match loadFile editor fs with
  | (_, Some err) => (None, Some (failed_to_load_file err))
  | (editor, None) => (Some editor, None)
  end.

(** *** bufio.Writer *)

(** [wbuf]: the bytes buffered; [wfile]: the bytes the file has taken;
    [wroom]: the bytes the device still accepts; [werr]: the sticky error. *)
Record Writer : Type := mkWriter {
  wbuf : string;
  wfile : string;
  wroom : nat;
  werr : bool;
}.

Definition defaultBufSize : nat := 4096.

Definition NewWriter (room : nat) : Writer := mkWriter EmptyString EmptyString room false.

(** [Flush] hands the buffer to the file; a short write leaves the rest in
    the buffer and sets the error. *)
Definition Flush (w : Writer) : Writer :=
  if werr w then w
  else
    let n := String.length (wbuf w) in
    if (n <=? wroom w)%nat then
      mkWriter EmptyString (wfile w +:+ wbuf w) (wroom w - n) false
    else
      mkWriter (String.substring (wroom w) (n - wroom w) (wbuf w))
               (wfile w +:+ String.substring 0 (wroom w) (wbuf w)) 0 true.

(** [b.Available()]: the bytes the buffer still takes. *)
Definition Available (w : Writer) : nat := defaultBufSize - String.length (wbuf w).

(** [copy(b.buf[b.n:], s)] for a string that fits. *)
Definition copy_in (w : Writer) (s : string) : Writer :=
  mkWriter (wbuf w +:+ s) (wfile w) (wroom w) (werr w).

(** [file.WriteString(s)]: the device takes the bytes it has room for; a
    short write sets the error, and the bytes not taken are lost. *)
Definition write_through (w : Writer) (s : string) : Writer :=
  let n := String.length s in
  if (n <=? wroom w)%nat then mkWriter (wbuf w) (wfile w +:+ s) (wroom w - n) false
  else mkWriter (wbuf w) (wfile w +:+ String.substring 0 (wroom w) s) 0 true.

(** [WriteString].  A string that fits is copied into the buffer.  For one
    that does not, the loop of [WriteString] goes round at most twice: with
    bytes in the buffer it fills the buffer and flushes it; with the buffer
    empty, what is left is copied when it fits now, and handed to the file
    in one piece when it does not. *)
Definition WriteString (w : Writer) (s : string) : Writer :=
  if werr w then w
  else if (String.length s <=? Available w)%nat then copy_in w s
  else if (String.length (wbuf w) =? 0)%nat then write_through w s
  else
    let n := Available w in
    let w := Flush (copy_in w (String.substring 0 n s)) in
    let s := String.substring n (String.length s - n) s in
    if werr w then w
    else if (String.length s <=? Available w)%nat then copy_in w s
    else write_through w s.

(** [for _, line := range fe.lines]: stops at the first failed write. *)
Fixpoint write_lines (w : Writer) (ls : list string) : Writer * bool :=
  match ls with
  | [] => (w, true)
  | line :: rest =>
      let w := WriteString w (line +:+ String LF EmptyString) in
      if werr w then (w, false) else write_lines w rest
  end.

(** [file.Close()], deferred: what the file has taken stays on the device. *)
Definition close_file (fs : FileSystem) (name : string) (w : Writer) : FileSystem :=
  match nodes fs !! name with
  | Some (RegularFile _ readable writable) =>
      mkFileSystem (<[name := RegularFile (wfile w) readable writable]> (nodes fs)) (wroom w)
  | _ => fs
  end.

Definition save (fe : FileEditor) (fs : FileSystem)
  : FileEditor * FileSystem * option error :=
  match os_Create fs (filename fe) with
  | None => (fe, fs, Some cannot_create_file)
  | Some fs =>
      let writer := NewWriter (room fs) in
      match write_lines writer (lines fe) with
      | (writer, false) => (fe, close_file fs (filename fe) writer, Some error_writing_line)
      | (writer, true) =>
          let writer := Flush writer in
          if werr writer then
            (fe, close_file fs (filename fe) writer, Some error_flushing_writer)
          else
            let fe := set_modified fe false in
            (fe, close_file fs (filename fe) writer, None)
      end
  end.

(** ** The command loop *)

(** The commands of [main]'s [switch], after the words of the input line
    have been split and the numbers parsed. *)
Inductive Command : Type :=
  | cmd_insert (lineNum : Z) (text : string)
  | cmd_delete (lineNum : Z)
  | cmd_replace (lineNum : Z) (text : string)
  | cmd_append (text : string)
  | cmd_search (pattern : string)
  | cmd_substitute (pattern replacement : string)
  | cmd_global (pattern replacement : string)
  | cmd_copy (start end_ : Z)
  | cmd_paste (lineNum : Z)
  | cmd_save.

(** What the loop learns from the call. *)
Inductive Reply : Type :=
  | done                          (* the method returned nil *)
  | replaced (count : Z)          (* searchAndReplace returned nil *)
  | found (matches : list Z)
  | saved                         (* "File saved successfully" *)
  | failed (err : error)          (* "ERROR: %v" *)
  | clipboard_empty.              (* "ERROR: Clipboard is empty" *)

Definition reply_of (err : option error) : Reply :=
  match err with
  | None => done
  | Some e => failed e
  end.

(** The variables of [main]: the editor, the clipboard, and the disk the
    process runs on. *)
Record Session : Type := mkSession {
  editor : FileEditor;
  clipboard : list string;
  disk : FileSystem;
}.

Definition exec `{Regexp} (c : Command) (s : Session) : Session * Reply :=
  match c with
  | cmd_insert lineNum text =>
      let '(fe, err) := insertLine (editor s) lineNum text in
      (mkSession fe (clipboard s) (disk s), reply_of err)
  | cmd_delete lineNum =>
      let '(fe, err) := deleteLine (editor s) lineNum in
      (mkSession fe (clipboard s) (disk s), reply_of err)
  | cmd_replace lineNum text =>
      let '(fe, err) := replaceLine (editor s) lineNum text in
      (mkSession fe (clipboard s) (disk s), reply_of err)
  | cmd_append text =>
      (mkSession (appendLine (editor s) text) (clipboard s) (disk s), done)
  | cmd_search pattern =>
      let '(fe, (matches, err)) := search (editor s) pattern in
      (mkSession fe (clipboard s) (disk s),
       match err with Some e => failed e | None => found matches end)
  | cmd_substitute pattern replacement =>
      let '(fe, (count, err)) := searchAndReplace (editor s) pattern replacement false in
      (mkSession fe (clipboard s) (disk s),
       match err with Some e => failed e | None => replaced count end)
  | cmd_global pattern replacement =>
      let '(fe, (count, err)) := searchAndReplace (editor s) pattern replacement true in
      (mkSession fe (clipboard s) (disk s),
       match err with Some e => failed e | None => replaced count end)
  | cmd_copy start end_ =>
      let '(fe, (copied, err)) := copyLines (editor s) start end_ in
      match err with
      | Some e => (mkSession fe (clipboard s) (disk s), failed e)
      | None => (mkSession fe copied (disk s), done)
      end
  | cmd_paste lineNum =>
      if len (clipboard s) =? 0 then (s, clipboard_empty)
      else
        let '(fe, err) := pasteLines (editor s) lineNum (clipboard s) in
        (mkSession fe (clipboard s) (disk s), reply_of err)
  | cmd_save =>
      let '(fe, fs, err) := save (editor s) (disk s) in
      (mkSession fe (clipboard s) fs,
       match err with Some e => failed e | None => saved end)
  end.

(** The session after a sequence of commands. *)
Definition run `{Regexp} (cs : list Command) (s : Session) : Session :=
  fold_left (λ s c, fst (exec c s)) cs s.

(** ** The editor, at the level of memory *)

(** Go's [append] picks the capacity of a reallocated array by a policy of
    the runtime; [growcap old needed] stands for that policy.  Whatever it
    answers, the new array holds at least the [needed] elements. *)
Class Runtime : Type := { growcap : nat → nat → nat }.

(** A runtime that doubles. *)
Definition DoublingRuntime : Runtime := {| growcap := λ old _, (2 * old)%nat |}.

Module Mem.

(** The heap holds the backing arrays of the slices of strings, by
    address.  A slice is a window on one of them. *)
Record Slice : Type := mkSlice {
  arr : nat;      (* address of the backing array *)
  off : nat;      (* index of the slice's first element in it *)
  slen : nat;     (* len(s) *)
  scap : nat;     (* cap(s) *)
}.

(** The nil slice: no elements, no capacity; its address is never used. *)
Definition nil : Slice := mkSlice 0 0 0 0.

Definition array (h : list (list string)) (a : nat) : list string :=
  default [] (h !! a).

(** The elements of a slice. *)
Definition cells (h : list (list string)) (s : Slice) : list string :=
  take (slen s) (drop (off s) (array h (arr s))).

(** Computations on the heap; [None] is a run-time panic. *)
Definition M (A : Type) : Type := list (list string) → option (A * list (list string)).

Definition ret {A} (a : A) : M A := λ h, Some (a, h).

Definition bind {A B} (m : M A) (k : A → M B) : M B :=
  λ h, match m h with
       | Some (a, h') => k a h'
       | None => None
       end.

Definition panic {A} : M A := λ _, None.

Notation "'let*' x := m 'in' k" := (bind m (λ x, k))
  (at level 10, x binder, m at level 100, k at level 200).

Definition alloc (a : list string) : M nat :=
  λ h, Some (length h, h ++ [a]).

(** [xs] written over the cells of array [a] from index [pos] on. *)
Definition write_block (cs : list string) (pos : nat) (xs : list string) : list string :=
  take pos cs ++ xs ++ drop (pos + length xs) cs.

Definition store (a pos : nat) (xs : list string) : M unit :=
  λ h, Some (tt, <[a := write_block (array h a) pos xs]> h).

(** [make([]string, n)] *)
Definition make (n : Z) : M Slice :=
  if n <? 0 then panic
  else
    let k := Z.to_nat n in
    let* a := alloc (replicate k EmptyString) in
    ret (mkSlice a 0 k k).

(** [[]string{x1, ..., xn}] *)
Definition literal (xs : list string) : M Slice :=
  let* a := alloc xs in
  ret (mkSlice a 0 (length xs) (length xs)).

(** [s[lo:hi]] *)
Definition reslice (s : Slice) (lo hi : Z) : M Slice :=
  if (0 <=? lo) && (lo <=? hi) && (hi <=? Z.of_nat (scap s)) then
    ret (mkSlice (arr s) (off s + Z.to_nat lo) (Z.to_nat (hi - lo)) (scap s - Z.to_nat lo))
  else panic.

(** [s[i]] *)
Definition get (s : Slice) (i : Z) : M string :=
  λ h, if (0 <=? i) && (i <? Z.of_nat (slen s)) then
         match array h (arr s) !! (off s + Z.to_nat i)%nat with
         | Some v => Some (v, h)
         | None => None
         end
       else None.

(** [s[i] = v] *)
Definition set (s : Slice) (i : Z) (v : string) : M unit :=
  if (0 <=? i) && (i <? Z.of_nat (slen s)) then
    store (arr s) (off s + Z.to_nat i) [v]
  else panic.

(** [append(s, x1, ..., xn)]: in place when the capacity allows, in a new
    array otherwise. *)
Definition append_values `{Runtime} (s : Slice) (xs : list string) : M Slice :=
  let n := (slen s + length xs)%nat in
  if (n <=? scap s)%nat then
    let* _ := store (arr s) (off s + slen s) xs in
    ret (mkSlice (arr s) (off s) n (scap s))
  else
    λ h,
      let c := Nat.max n (growcap (scap s) n) in
      (let* a := alloc (cells h s ++ xs ++ replicate (c - n) EmptyString) in
       ret (mkSlice a 0 n c)) h.

(** [append(s, t...)]: the elements of [t] are read before any is
    written, as the runtime's overlapping move does. *)
Definition append `{Runtime} (s t : Slice) : M Slice :=
  λ h, append_values s (cells h t) h.

(** [copy(dst, src)] *)
Definition copy (dst src : Slice) : M nat :=
  λ h,
    let n := Nat.min (slen dst) (slen src) in
    (let* _ := store (arr dst) (off dst) (take n (cells h src)) in ret n) h.

Record FileEditor : Type := mkFileEditor {
  filename : string;
  lines : Slice;
  modified : bool;
}.

Definition set_lines (fe : FileEditor) (ls : Slice) : FileEditor :=
  mkFileEditor (filename fe) ls (modified fe).

Definition set_modified (fe : FileEditor) (m : bool) : FileEditor :=
  mkFileEditor (filename fe) (lines fe) m.

Definition length_of (s : Slice) : Z := Z.of_nat (slen s).

Definition insertLine `{Runtime} (fe : FileEditor) (lineNum : Z) (text : string)
  : M (FileEditor * option error) :=
  if (lineNum <? 1) || (lineNum >? length_of (lines fe) + 1) then
    ret (fe, Some (invalid_line_number lineNum))
  else
    let index := lineNum - 1 in
    let* front := reslice (lines fe) 0 index in
    let* one := literal [text] in
    let* back := reslice (lines fe) index (length_of (lines fe)) in
    let* inner := append one back in
    let* ls := append front inner in
    let fe := set_lines fe ls in
    let fe := set_modified fe true in
    ret (fe, None).

Definition deleteLine `{Runtime} (fe : FileEditor) (lineNum : Z)
  : M (FileEditor * option error) :=
  if (lineNum <? 1) || (lineNum >? length_of (lines fe)) then
    ret (fe, Some (invalid_line_number lineNum))
  else
    let index := lineNum - 1 in
    let* front := reslice (lines fe) 0 index in
    let* back := reslice (lines fe) (index + 1) (length_of (lines fe)) in
    let* ls := append front back in
    let fe := set_lines fe ls in
    let fe := set_modified fe true in
    ret (fe, None).

Definition replaceLine (fe : FileEditor) (lineNum : Z) (text : string)
  : M (FileEditor * option error) :=
  if (lineNum <? 1) || (lineNum >? length_of (lines fe)) then
    ret (fe, Some (invalid_line_number lineNum))
  else
    let* _ := set (lines fe) (lineNum - 1) text in
    let fe := set_modified fe true in
    ret (fe, None).

Fixpoint replace_loop `{Regexp} (regex : regexp) (replacement : string)
    (global : bool) (s : Slice) (i : Z) (todo : nat) (count : Z) : M Z :=
  match todo with
  | O => ret count
  | S todo =>
      let* line := get s i in
      if global then
        let newLine := ReplaceAllString regex line replacement in
        if negb (String.eqb newLine line) then
          let* _ := set s i newLine in
          replace_loop regex replacement global s (i + 1) todo (count + 1)
        else replace_loop regex replacement global s (i + 1) todo count
      else
        if MatchString regex line then
          let* _ := set s i (ReplaceAllString regex line replacement) in
          ret (count + 1)
        else replace_loop regex replacement global s (i + 1) todo count
  end.

Definition searchAndReplace `{Regexp} (fe : FileEditor)
    (pattern replacement : string) (global : bool)
  : M (FileEditor * (Z * option error)) :=
  match Compile pattern with
  | None => ret (fe, (0, Some invalid_regex_pattern))
  | Some regex =>
      let* count :=
        replace_loop regex replacement global (lines fe) 0 (slen (lines fe)) 0 in
      let fe := if count >? 0 then set_modified fe true else fe in
      ret (fe, (count, None))
  end.

(** [matches] is a slice of integers that nothing else refers to; it is
    kept as a value. *)
Fixpoint search_loop `{Regexp} (regex : regexp) (s : Slice) (i : Z) (todo : nat)
    (matches : list Z) : M (list Z) :=
  match todo with
  | O => ret matches
  | S todo =>
      let* line := get s i in
      if MatchString regex line
      then search_loop regex s (i + 1) todo (matches ++ [i + 1])
      else search_loop regex s (i + 1) todo matches
  end.

Definition search `{Regexp} (fe : FileEditor) (pattern : string)
  : M (FileEditor * (list Z * option error)) :=
  match Compile pattern with
  | None => ret (fe, ([], Some invalid_regex_pattern))
  | Some regex =>
      let* matches := search_loop regex (lines fe) 0 (slen (lines fe)) [] in
      ret (fe, (matches, None))
  end.

Definition appendLine `{Runtime} (fe : FileEditor) (text : string) : M FileEditor :=
  let* ls := append_values (lines fe) [text] in
  let fe := set_lines fe ls in
  ret (set_modified fe true).

Definition copyLines (fe : FileEditor) (start end_ : Z)
  : M (FileEditor * (Slice * option error)) :=
  if (start <? 1) || (end_ <? 1) || (start >? length_of (lines fe))
     || (end_ >? length_of (lines fe)) || (start >? end_) then
    ret (fe, (nil, Some (invalid_line_range start end_)))
  else
    let* copied := make (end_ - start + 1) in
    let* window := reslice (lines fe) (start - 1) end_ in
    let* _ := copy copied window in
    ret (fe, (copied, None)).

Definition pasteLines `{Runtime} (fe : FileEditor) (lineNum : Z) (block : Slice)
  : M (FileEditor * option error) :=
  if (lineNum <? 1) || (lineNum >? length_of (lines fe) + 1) then
    ret (fe, Some (invalid_line_number lineNum))
  else
    let index := lineNum - 1 in
    let* front := reslice (lines fe) 0 index in
    let* back := reslice (lines fe) index (length_of (lines fe)) in
    let* inner := append block back in
    let* ls := append front inner in
    let fe := set_lines fe ls in
    let fe := set_modified fe true in
    ret (fe, None).

Definition loadFile `{Runtime} (fe : FileEditor) (fs : FileSystem)
  : M (FileEditor * option error) :=
  match nodes fs !! filename fe with
  | None => ret (fe, None)
  | Some node =>
      match os_Open node with
      | None => ret (fe, Some cannot_open_file)
      | Some stream =>
          let '(tokens, scanErr) := Scanner stream in
          let* fe :=
            fold_left
              (λ (m : M FileEditor) text,
                 let* fe := m in
                 let* ls := append_values (lines fe) [text] in
                 ret (set_lines fe ls))
              tokens (ret fe) in
          if scanErr then ret (fe, Some error_reading_file) else ret (fe, None)
      end
  end.

Definition NewFileEditor `{Runtime} (name : string) (fs : FileSystem)
  : M (option FileEditor * option error) :=
  let* empty := literal [] in
  let editor := mkFileEditor name empty false in
  let* '(editor, err) := loadFile editor fs in
  match err with
  | Some err => ret (None, Some (failed_to_load_file err))
  | None => ret (Some editor, None)
  end.

Definition save (fe : FileEditor) (fs : FileSystem)
  : M (FileEditor * FileSystem * option error) :=
  λ h,
    match os_Create fs (filename fe) with
    | None => Some ((fe, fs, Some cannot_create_file), h)
    | Some fs =>
        let writer := NewWriter (room fs) in
        match write_lines writer (cells h (lines fe)) with
        | (writer, false) =>
            Some ((fe, close_file fs (filename fe) writer, Some error_writing_line), h)
        | (writer, true) =>
            let writer := Flush writer in
            if werr writer then
              Some ((fe, close_file fs (filename fe) writer, Some error_flushing_writer), h)
            else
              let fe := set_modified fe false in
              Some ((fe, close_file fs (filename fe) writer, None), h)
        end
    end.

(** The variables of [main], with the clipboard as the slice it is. *)
Record Session : Type := mkSession {
  editor : FileEditor;
  clipboard : Slice;
  disk : FileSystem;
}.

Definition exec `{Regexp} `{Runtime} (c : Command) (s : Session) : M (Session * Reply) :=
  match c with
  | cmd_insert lineNum text =>
      let* '(fe, err) := insertLine (editor s) lineNum text in
      ret (mkSession fe (clipboard s) (disk s), reply_of err)
  | cmd_delete lineNum =>
      let* '(fe, err) := deleteLine (editor s) lineNum in
      ret (mkSession fe (clipboard s) (disk s), reply_of err)
  | cmd_replace lineNum text =>
      let* '(fe, err) := replaceLine (editor s) lineNum text in
      ret (mkSession fe (clipboard s) (disk s), reply_of err)
  | cmd_append text =>
      let* fe := appendLine (editor s) text in
      ret (mkSession fe (clipboard s) (disk s), done)
  | cmd_search pattern =>
      let* '(fe, (matches, err)) := search (editor s) pattern in
      ret (mkSession fe (clipboard s) (disk s),
           match err with Some e => failed e | None => found matches end)
  | cmd_substitute pattern replacement =>
      let* '(fe, (count, err)) := searchAndReplace (editor s) pattern replacement false in
      ret (mkSession fe (clipboard s) (disk s),
           match err with Some e => failed e | None => replaced count end)
  | cmd_global pattern replacement =>
      let* '(fe, (count, err)) := searchAndReplace (editor s) pattern replacement true in
      ret (mkSession fe (clipboard s) (disk s),
           match err with Some e => failed e | None => replaced count end)
  | cmd_copy start end_ =>
      let* '(fe, (copied, err)) := copyLines (editor s) start end_ in
      match err with
      | Some e => ret (mkSession fe (clipboard s) (disk s), failed e)
      | None => ret (mkSession fe copied (disk s), done)
      end
  | cmd_paste lineNum =>
      if length_of (clipboard s) =? 0 then ret (s, clipboard_empty)
      else
        let* '(fe, err) := pasteLines (editor s) lineNum (clipboard s) in
        ret (mkSession fe (clipboard s) (disk s), reply_of err)
  | cmd_save =>
      let* '(fe, fs, err) := save (editor s) (disk s) in
      ret (mkSession fe (clipboard s) fs,
           match err with Some e => failed e | None => saved end)
  end.

Fixpoint run `{Regexp} `{Runtime} (cs : list Command) (s : Session) : M Session :=
  match cs with
  | [] => ret s
  | c :: cs =>
      let* '(s, _) := exec c s in
      run cs s
  end.

End Mem.

(** The value a memory-level editor stands for. *)
Definition view (h : list (list string)) (fe : Mem.FileEditor) : FileEditor :=
  mkFileEditor (Mem.filename fe) (Mem.cells h (Mem.lines fe)) (Mem.modified fe).

Definition view_session (h : list (list string)) (s : Mem.Session) : Session :=
  mkSession (view h (Mem.editor s)) (Mem.cells h (Mem.clipboard s)) (Mem.disk s).

(** ** Vocabulary of the statements *)

(** The number of positions at which two line sequences differ: the count
    of lines that were altered between [old] and [new]. *)
Fixpoint altered (old new : list string) : Z :=
  match old, new with
  | a :: old', b :: new' => (if String.eqb a b then 0 else 1) + altered old' new'
  | _, _ => 0
  end.

(** The 1-based positions of the lines of [ls] that [regex] matches, in
    ascending order; [i] is the number of lines before [ls]. *)
Fixpoint matching_positions `{Regexp} (regex : regexp) (i : Z) (ls : list string) : list Z :=
  match ls with
  | [] => []
  | line :: rest =>
      if MatchString regex line
      then (i + 1) :: matching_positions regex (i + 1) rest
      else matching_positions regex (i + 1) rest
  end.

(** [s] contains the byte [c]; [s] ends with the byte [c]. *)
Fixpoint has_byte (c : ascii) (s : string) : bool :=
  match s with
  | EmptyString => false
  | String b s' => Ascii.eqb b c || has_byte c s'
  end.

Fixpoint ends_with (c : ascii) (s : string) : bool :=
  match s with
  | EmptyString => false
  | String b EmptyString => Ascii.eqb b c
  | String _ s' => ends_with c s'
  end.

(** What a save writes for a line sequence: every line followed by one
    newline. *)
Fixpoint file_image (ls : list string) : string :=
  match ls with
  | [] => EmptyString
  | line :: rest => line +:+ String LF (file_image rest)
  end.

(** A command that mutated the buffer: insert, delete, replace, append or
    paste that returned no error, or a substitution whose count is
    positive. *)
Definition dirties (c : Command) (r : Reply) : bool :=
  match c, r with
  | (cmd_insert _ _ | cmd_delete _ | cmd_replace _ _ | cmd_append _ | cmd_paste _), done => true
  | (cmd_substitute _ _ | cmd_global _ _), replaced count => count >? 0
  | _, _ => false
  end.

(** A save that returned no error. *)
Definition cleans (c : Command) (r : Reply) : bool :=
  match c, r with
  | cmd_save, saved => true
  | _, _ => false
  end.

(** The flag a history of commands and replies leads to: the last
    mutation sets it, the last successful save clears it. *)
Definition flag_step (m : bool) (cr : Command * Reply) : bool :=
  if dirties cr.1 cr.2 then true else if cleans cr.1 cr.2 then false else m.

(** The commands of a run with the replies they got. *)
Fixpoint history `{Regexp} (cs : list Command) (s : Session) : list (Command * Reply) :=
  match cs with
  | [] => []
  | c :: cs' => let '(s', r) := exec c s in (c, r) :: history cs' s'
  end.

(** The reading of "returns the count of lines that were altered, and
    sets modified iff that count is positive", at one input. *)
Definition counts_altered_lines `{Regexp} (fe : FileEditor)
    (pattern replacement : string) (global : bool) : Prop :=
  let '(fe', (count, _)) := searchAndReplace fe pattern replacement global in
  count = altered (lines fe) (lines fe') ∧
  modified fe' = modified fe || (0 <? count).

(** The reading of "the second global substitution changes no line and
    reports 0", at one input. *)
Definition second_global_is_idle `{Regexp} (fe : FileEditor)
    (pattern replacement : string) : Prop :=
  let '(fe1, _) := searchAndReplace fe pattern replacement true in
  let '(fe2, (count2, _)) := searchAndReplace fe1 pattern replacement true in
  lines fe2 = lines fe1 ∧ count2 = 0.

(** The reading of "save then load yields the line sequence saved", at
    one editor and disk: when no line contains a newline, after a save
    that returned no error the load succeeds and returns the saved lines. *)
Definition round_trip (fe : FileEditor) (fs : FileSystem) : Prop :=
  forallb (λ line, negb (has_byte LF line)) (lines fe) = true →
  ∀ fe' fs',
    save fe fs = (fe', fs', None) →
    ∃ loaded,
      NewFileEditor (filename fe) fs' = (Some loaded, None) ∧
      lines loaded = lines fe.

(** The text of [n] bytes [c]. *)
Fixpoint repeat_byte (c : ascii) (n : nat) : string :=
  match n with
  | O => EmptyString
  | S n' => String c (repeat_byte c n')
  end.

(** A writer that will take [k] more bytes without error. *)
Definition healthy (w : Writer) (k : nat) : Prop :=
  werr w = false ∧
  (String.length (wbuf w) ≤ defaultBufSize)%nat ∧
  (String.length (wbuf w) + k ≤ wroom w)%nat.

(** *** Memory: well-formed slices and footprints *)

(** A slice is well formed in a heap when its length is within its
    capacity and its capacity within its backing array. *)
Definition valid (h : list (list string)) (s : Mem.Slice) : Prop :=
  (Mem.slen s ≤ Mem.scap s)%nat ∧
  (Mem.scap s = 0%nat ∨ (Mem.off s + Mem.scap s ≤ length (Mem.array h (Mem.arr s)))%nat).

(** [c] shares no cell with the array [a]. *)
Definition apart (c : Mem.Slice) (a : nat) : Prop :=
  Mem.scap c = 0%nat ∨ Mem.arr c ≠ a.

(** From [h] to [h'] the heap has only grown, and of the arrays of [h]
    only the one at address [a] may have been written. *)
Definition touches (a : nat) (h h' : list (list string)) : Prop :=
  (length h ≤ length h')%nat ∧
  ∀ b, (b < length h)%nat → b ≠ a → h' !! b = h !! b.

(** The state of [main] is well formed: buffer and clipboard are well
    formed slices, the clipboard is full to its capacity (it is [nil] or
    comes from [make]) and shares no cell with the buffer's array. *)
Definition session_ok (h : list (list string)) (s : Mem.Session) : Prop :=
  valid h (Mem.lines (Mem.editor s)) ∧
  valid h (Mem.clipboard s) ∧
  Mem.slen (Mem.clipboard s) = Mem.scap (Mem.clipboard s) ∧
  apart (Mem.clipboard s) (Mem.arr (Mem.lines (Mem.editor s))).

(** The bytes a writer has been given and has not lost. *)
Definition sent (w : Writer) : string := wfile w +:+ wbuf w.

(** What a method call does to the memory, against what the method does
    to the value: the call does not panic; the editor it leaves stands
    for the value-level result; its buffer is well formed; of the arrays
    that existed, only the buffer's may have been written; and the
    buffer is still in its array or in a new one. *)
Definition simulates {A} (h : list (list string)) (fe : Mem.FileEditor)
    (call : option ((Mem.FileEditor * A) * list (list string)))
    (expected : FileEditor * A) : Prop :=
  ∃ fe' a h',
    call = Some ((fe', a), h') ∧
    expected = (view h' fe', a) ∧
    valid h' (Mem.lines fe') ∧
    touches (Mem.arr (Mem.lines fe)) h h' ∧
    (Mem.arr (Mem.lines fe') = Mem.arr (Mem.lines fe) ∨
     (length h ≤ Mem.arr (Mem.lines fe'))%nat).

(** Slices that share no cell with the buffer's array are kept by the
    step from [(h, s)] to [(h', s')]. *)
Definition protects (h : list (list string)) (s : Mem.Session)
    (h' : list (list string)) (s' : Mem.Session) : Prop :=
  ∀ c, valid h c → apart c (Mem.arr (Mem.lines (Mem.editor s))) →
       valid h' c ∧ apart c (Mem.arr (Mem.lines (Mem.editor s'))) ∧
       Mem.cells h' c = Mem.cells h c.

(** *** More vocabulary: edits, line endings, failed writes *)

(** The lines of [block] inserted one at a time, at [pos], [pos + 1], ... *)
Fixpoint insert_each (fe : FileEditor) (pos : Z) (block : list string) : FileEditor :=
  match block with
  | [] => fe
  | line :: rest => insert_each (insertLine fe pos line).1 (pos + 1) rest
  end.

(** A file whose lines end with carriage return and newline. *)
Fixpoint crlf_image (ls : list string) : string :=
  match ls with
  | [] => EmptyString
  | line :: rest => line +:+ String CR (String LF (crlf_image rest))
  end.

(** The bytes the file of that name holds: what truncating it gives back
    to the device. *)
Definition held (fs : FileSystem) (name : string) : nat :=
  match nodes fs !! name with
  | Some (RegularFile data _ _) => String.length data
  | _ => 0%nat
  end.

(** What a writer that has been given the bytes [d] holds: all of them,
    or, after an error, a part of them in a file that takes no more. *)
Definition written (w : Writer) (d : string) : Prop :=
  if werr w
  then wroom w = 0%nat ∧ ∃ lost, lost ≠ EmptyString ∧ d = wfile w +:+ lost
  else d = sent w.

(** ** The strings and strconv packages *)

(** The command loops call [strings.TrimSpace], [strings.Fields],
    [strings.ToLower] and [strconv.Atoi].  They are not part of the
    repository and are taken as an interface. *)
Class Strings : Type := {
  TrimSpace : string → string;
  Fields : string → list string;
  ToLower : string → string;
  Atoi : string → option Z;
}.

(** [strings.Join(elems, sep)] *)
Fixpoint Join (elems : list string) (sep : string) : string :=
  match elems with
  | [] => EmptyString
  | [e] => e
  | e :: rest => e +:+ sep +:+ Join rest sep
  end.

(** *** The packages on ASCII text

    On text of ASCII characters Go's functions are these: white space is
    tab, newline, vertical tab, form feed, carriage return and space;
    [ToLower] maps [A-Z] to [a-z]; [Atoi] reads an optional sign and
    decimal digits, and refuses what does not fit 64 bits.  [Ascii7]
    is used to evaluate the loops on concrete ASCII input. *)
Module Ascii7.

Definition is_space (c : ascii) : bool :=
  let n := nat_of_ascii c in
  ((9 <=? n) && (n <=? 13))%nat || (n =? 32)%nat.

Fixpoint trim_left (s : string) : string :=
  match s with
  | EmptyString => EmptyString
  | String c s' => if is_space c then trim_left s' else s
  end.

Fixpoint trim_right (s : string) : string :=
  match s with
  | EmptyString => EmptyString
  | String c s' =>
      match trim_right s' with
      | EmptyString => if is_space c then EmptyString else String c EmptyString
      | t => String c t
      end
  end.

Definition TrimSpace (s : string) : string := trim_right (trim_left s).

(** [cur] holds the characters of the word being read. *)
Fixpoint fields_from (s cur : string) : list string :=
  match s with
  | EmptyString => if String.eqb cur EmptyString then [] else [cur]
  | String c s' =>
      if is_space c then
        if String.eqb cur EmptyString then fields_from s' EmptyString
        else cur :: fields_from s' EmptyString
      else fields_from s' (cur +:+ String c EmptyString)
  end.

Definition Fields (s : string) : list string := fields_from s EmptyString.

Definition lower (c : ascii) : ascii :=
  let n := nat_of_ascii c in
  if ((65 <=? n) && (n <=? 90))%nat then ascii_of_nat (n + 32) else c.

Fixpoint ToLower (s : string) : string :=
  match s with
  | EmptyString => EmptyString
  | String c s' => String (lower c) (ToLower s')
  end.

Definition digit (c : ascii) : option Z :=
  let n := nat_of_ascii c in
  if ((48 <=? n) && (n <=? 57))%nat then Some (Z.of_nat n - 48) else None.

Fixpoint digits (s : string) (acc : Z) : option Z :=
  match s with
  | EmptyString => Some acc
  | String c s' =>
      match digit c with
      | Some d => digits s' (10 * acc + d)
      | None => None
      end
  end.

Definition unsigned (s : string) : option Z :=
  match s with
  | EmptyString => None
  | _ => digits s 0
  end.

Definition in_range (z : Z) : option Z :=
  if (- 2 ^ 63 <=? z) && (z <? 2 ^ 63) then Some z else None.

Definition Atoi (s : string) : option Z :=
  match s with
  | String "-" s' => match unsigned s' with Some z => in_range (- z) | None => None end
  | String "+" s' => match unsigned s' with Some z => in_range z | None => None end
  | _ => match unsigned s with Some z => in_range z | None => None end
  end.

End Ascii7.

Definition AsciiStrings : Strings := {|
  TrimSpace := Ascii7.TrimSpace;
  Fields := Ascii7.Fields;
  ToLower := Ascii7.ToLower;
  Atoi := Ascii7.Atoi;
|}.

(** ** The editor's [main] *)

(** What [main] prints, one constructor per message. *)
Inductive Output : Type :=
  | out_prompt                                           (* "> " *)
  | out_display (name : string) (rows : list (Z * string)) (total : Z)
  | out_usage (command : string)                         (* "ERROR: Usage: ..." *)
  | out_invalid_number (word : string)                   (* "ERROR: Invalid line number: %s" *)
  | out_invalid_numbers                                  (* "ERROR: Invalid line numbers" *)
  | out_error (err : error)                              (* "ERROR: %v" *)
  | out_no_matches                                       (* "No matches found" *)
  | out_found (matches : list Z)                         (* "Found matches at lines: %v" *)
  | out_clipboard_empty                                  (* "ERROR: Clipboard is empty" *)
  | out_saved                                            (* "File saved successfully" *)
  | out_unsaved                                          (* "File has unsaved changes. ..." *)
  | out_save_failed (err : error)                        (* "ERROR: Failed to save: %v" *)
  | out_goodbye                                          (* "Goodbye!" *)
  | out_help                                             (* printUsage *)
  | out_unknown (command : string).                      (* "ERROR: Unknown command: %s ..." *)

(** [display]: the rows are numbered from 1. *)
Fixpoint display_rows (i : Z) (ls : list string) : list (Z * string) :=
  match ls with
  | [] => []
  | line :: rest => (i + 1, line) :: display_rows (i + 1) rest
  end.

Definition display (fe : FileEditor) : Output :=
  out_display (filename fe) (display_rows 0 (lines fe)) (len (lines fe)).

Definition error_output (err : option error) : list Output :=
  match err with
  | Some e => [out_error e]
  | None => []
  end.

(** One case of the [switch], for every command but [quit]: the session
    after it and what was printed.  [parts] are the words of the line. *)
Definition dispatch `{Regexp} `{Strings} (command : string) (parts : list string)
    (s : Session) : Session * list Output :=
  if bool_decide (command = "display" ∨ command = "d") then
    (s, [display (editor s)])
  else if String.eqb command "insert" then
    match parts with
    | _ :: number :: word :: words =>
        match Atoi number with
        | None => (s, [out_invalid_number number])
        | Some lineNum =>
            let text := Join (word :: words) " " in
            let '(fe, err) := insertLine (editor s) lineNum text in
            (mkSession fe (clipboard s) (disk s), error_output err)
        end
    | _ => (s, [out_usage command])
    end
  else if String.eqb command "delete" then
    match parts with
    | [_; number] =>
        match Atoi number with
        | None => (s, [out_invalid_number number])
        | Some lineNum =>
            let '(fe, err) := deleteLine (editor s) lineNum in
            (mkSession fe (clipboard s) (disk s), error_output err)
        end
    | _ => (s, [out_usage command])
    end
  else if String.eqb command "replace" then
    match parts with
    | _ :: number :: word :: words =>
        match Atoi number with
        | None => (s, [out_invalid_number number])
        | Some lineNum =>
            let text := Join (word :: words) " " in
            let '(fe, err) := replaceLine (editor s) lineNum text in
            (mkSession fe (clipboard s) (disk s), error_output err)
        end
    | _ => (s, [out_usage command])
    end
  else if String.eqb command "append" then
    match parts with
    | _ :: word :: words =>
        let text := Join (word :: words) " " in
        (mkSession (appendLine (editor s) text) (clipboard s) (disk s), [])
    | _ => (s, [out_usage command])
    end
  else if String.eqb command "search" then
    match parts with
    | [_; pattern] =>
        let '(fe, (matches, err)) := search (editor s) pattern in
        (mkSession fe (clipboard s) (disk s),
         match err with
         | Some e => [out_error e]
         | None => if len matches =? 0 then [out_no_matches] else [out_found matches]
         end)
    | _ => (s, [out_usage command])
    end
  else if String.eqb command "substitute" then
    match parts with
    | [_; pattern; replacement] =>
        let '(fe, (_, err)) := searchAndReplace (editor s) pattern replacement false in
        (mkSession fe (clipboard s) (disk s), error_output err)
    | _ => (s, [out_usage command])
    end
  else if String.eqb command "global" then
    match parts with
    | [_; pattern; replacement] =>
        let '(fe, (_, err)) := searchAndReplace (editor s) pattern replacement true in
        (mkSession fe (clipboard s) (disk s), error_output err)
    | _ => (s, [out_usage command])
    end
  else if String.eqb command "copy" then
    match parts with
    | [_; first; second] =>
        match Atoi first, Atoi second with
        | Some start, Some end_ =>
            let '(fe, (copied, err)) := copyLines (editor s) start end_ in
            match err with
            | Some e => (mkSession fe (clipboard s) (disk s), [out_error e])
            | None => (mkSession fe copied (disk s), [])
            end
        | _, _ => (s, [out_invalid_numbers])
        end
    | _ => (s, [out_usage command])
    end
  else if String.eqb command "paste" then
    match parts with
    | [_; number] =>
        if len (clipboard s) =? 0 then (s, [out_clipboard_empty])
        else
          match Atoi number with
          | None => (s, [out_invalid_number number])
          | Some lineNum =>
              let '(fe, err) := pasteLines (editor s) lineNum (clipboard s) in
              (mkSession fe (clipboard s) (disk s), error_output err)
          end
    | _ => (s, [out_usage command])
    end
  else if bool_decide (command = "save" ∨ command = "w") then
    let '(fe, fs, err) := save (editor s) (disk s) in
    (mkSession fe (clipboard s) fs,
     match err with
     | Some e => [out_error e]
     | None => [out_saved]
     end)
  else if bool_decide (command = "help" ∨ command = "h") then
    (s, [out_help])
  else
    (s, [out_unknown command]).

(** How the loop ends: [os.Exit(0)] at a [quit]; the end of the input;
    or a run-time panic. *)
Inductive Outcome : Type :=
  | Exited (s : Session)
  | Ended (s : Session)
  | Panicked.

Definition emit (outs : list Output) (r : list Output * Outcome) : list Output * Outcome :=
  (outs ++ r.1, r.2).

(** The [for] loop of [main] on the lines the scanner delivers. *)
Fixpoint main_loop `{Regexp} `{Strings} (inputs : list string) (s : Session)
  : list Output * Outcome :=
  match inputs with
  | [] => ([out_prompt], Ended s)
  | text :: rest =>
      let input := TrimSpace text in
      if String.eqb input EmptyString then emit [out_prompt] (main_loop rest s)
      else
        match Fields input with
        | [] => ([out_prompt], Panicked)            (* parts[0] *)
        | command :: words =>
            if bool_decide (command = "quit" ∨ command = "q") then
              if modified (editor s) then
                match rest with
                | [] => ([out_prompt; out_unsaved; out_goodbye], Exited s)
                | answer :: rest' =>
                    let response := ToLower (TrimSpace answer) in
                    if bool_decide (response = "y" ∨ response = "yes") then
                      let '(fe, fs, err) := save (editor s) (disk s) in
                      match err with
                      | Some e =>
                          emit [out_prompt; out_unsaved; out_save_failed e]
                            (main_loop rest' (mkSession fe (clipboard s) fs))
                      | None =>
                          ([out_prompt; out_unsaved; out_goodbye],
                           Exited (mkSession fe (clipboard s) fs))
                      end
                    else ([out_prompt; out_unsaved; out_goodbye], Exited s)
                end
              else ([out_prompt; out_goodbye], Exited s)
            else
              let '(s', outs) := dispatch command (command :: words) s in
              emit (out_prompt :: outs) (main_loop rest s')
        end
  end.

(** How the process ends. *)
Inductive Exit : Type :=
  | exit_usage                       (* os.Exit(1): wrong number of arguments *)
  | exit_load_failed (err : error)   (* log.Fatalf: the file could not be loaded *)
  | exit_input_error                 (* log.Fatalf: reading the input failed *)
  | exit_panic
  | exit_quit (s : Session)          (* os.Exit(0) *)
  | exit_end (s : Session).          (* main returns *)

(** [main]: [args] is [os.Args], [stdin] the stream of the standard input. *)
Definition main `{Regexp} `{Strings} (args : list string) (stdin : option string)
    (fs : FileSystem) : list Output * Exit :=
  match args with
  | [_; name] =>
      match NewFileEditor name fs with
      | (Some fe, _) =>
          let '(inputs, scanErr) := Scanner stdin in
          let '(outs, outcome) := main_loop inputs (mkSession fe [] fs) in
          (outs,
           match outcome with
           | Exited s => exit_quit s
           | Panicked => exit_panic
           | Ended s => if scanErr then exit_input_error else exit_end s
           end)
      | (None, Some err) => ([], exit_load_failed err)
      | (None, None) => ([], exit_panic)
      end
  | _ => ([], exit_usage)
  end.


(** *** Vocabulary for [main] *)

(** The command a line stands for, once its words are split and its
    numbers read: [None] for the lines that reach no method. *)
Definition parse `{Strings} (command : string) (parts : list string) : option Command :=
  if String.eqb command "insert" then
    match parts with
    | _ :: number :: word :: words =>
        match Atoi number with
        | Some lineNum => Some (cmd_insert lineNum (Join (word :: words) " "))
        | None => None
        end
    | _ => None
    end
  else if String.eqb command "delete" then
    match parts with
    | [_; number] =>
        match Atoi number with Some lineNum => Some (cmd_delete lineNum) | None => None end
    | _ => None
    end
  else if String.eqb command "replace" then
    match parts with
    | _ :: number :: word :: words =>
        match Atoi number with
        | Some lineNum => Some (cmd_replace lineNum (Join (word :: words) " "))
        | None => None
        end
    | _ => None
    end
  else if String.eqb command "append" then
    match parts with
    | _ :: word :: words => Some (cmd_append (Join (word :: words) " "))
    | _ => None
    end
  else if String.eqb command "search" then
    match parts with
    | [_; pattern] => Some (cmd_search pattern)
    | _ => None
    end
  else if String.eqb command "substitute" then
    match parts with
    | [_; pattern; replacement] => Some (cmd_substitute pattern replacement)
    | _ => None
    end
  else if String.eqb command "global" then
    match parts with
    | [_; pattern; replacement] => Some (cmd_global pattern replacement)
    | _ => None
    end
  else if String.eqb command "copy" then
    match parts with
    | [_; first; second] =>
        match Atoi first, Atoi second with
        | Some start, Some end_ => Some (cmd_copy start end_)
        | _, _ => None
        end
    | _ => None
    end
  else if String.eqb command "paste" then
    match parts with
    | [_; number] =>
        match Atoi number with Some lineNum => Some (cmd_paste lineNum) | None => None end
    | _ => None
    end
  else if bool_decide (command = "save" ∨ command = "w") then Some cmd_save
  else None.

(** The first word of a line names a command that can write the file. *)
Definition writes_file (command : string) : bool :=
  bool_decide (command = "save" ∨ command = "w" ∨ command = "quit" ∨ command = "q").

(** The texts a command carries hold no newline. *)
Definition carries_no_newline (c : Command) : Prop :=
  match c with
  | cmd_insert _ text | cmd_replace _ text | cmd_append text => has_byte LF text = false
  | cmd_substitute _ replacement | cmd_global _ replacement =>
      has_byte LF replacement = false
  | _ => True
  end.

(** No line of [ls] holds a newline. *)
Definition no_newline (ls : list string) : Prop :=
  Forall (λ line, has_byte LF line = false) ls.

(** * The git front end (the second program of the repository) *)

(** [exec.Cmd.Run] for a [git] process: whether the process succeeds,
    given the commands that ran before it and its arguments.  It is not
    part of the repository and is taken as an interface. *)
Class Process : Type := {
  Run : list (list string) → list string → bool;
}.

Module GitOps.

(** What a handler returns besides [nil]. *)
Inductive Failure : Type :=
  | repository_URL_is_required
  | commit_message_is_required
  | branch_name_is_required
  | remote_name_is_required
  | remote_URL_is_required
  | exit_error.                         (* the error of cmd.Run *)

(** The texts of the log lines. *)
Inductive Message : Type :=
  | tool_started                        (* "Git Operations Tool started" *)
  | executing (line : string)           (* "Executing: git %s" *)
  | git_command_failed                  (* "Git command failed: %v" *)
  | command_completed                   (* "Command completed successfully" *)
  | operation_failed (err : Failure)    (* "Operation failed: %v" *)
  | exiting                             (* "Exiting Git Operations Tool" *)
  | invalid_choice.                     (* "Invalid choice. Please try again." *)

(** What the tool does to the outside, in order. *)
Inductive Event : Type :=
  | asked (message : string)            (* the prompt text *)
  | menu                                (* showMenu *)
  | info (m : Message)                  (* [INFO] *)
  | error_ (m : Message)                (* [ERROR] *)
  | warn (m : Message)                  (* [WARN] *)
  | git (args : list string)            (* a git process was run *)
  | press_enter.                        (* "Press Enter to continue..." *)

(** The console: [stdin] holds the texts the coming [Scan] calls deliver,
    [token] the text of the last [Scan] (empty once the input is used
    up), [out] what has happened so far. *)
Record Console : Type := mkConsole {
  stdin : list string;
  token : string;
  out : list Event;
}.

Definition G (A : Type) : Type := Console → A * Console.

Definition ret {A} (a : A) : G A := λ c, (a, c).

Definition bind {A B} (m : G A) (k : A → G B) : G B :=
  λ c, let '(a, c') := m c in k a c'.

Notation "'let*' x := m 'in' k" := (bind m (λ x, k))
  (at level 10, x binder, m at level 100, k at level 200).

Definition emit (e : Event) : G unit :=
  λ c, (tt, mkConsole (stdin c) (token c) (out c ++ [e])).

(** [g.scanner.Scan()], its result dropped, and [g.scanner.Text()]. *)
Definition Scan : G unit :=
  λ c, match stdin c with
       | [] => (tt, mkConsole [] EmptyString (out c))
       | text :: rest => (tt, mkConsole rest text (out c))
       end.

Definition Text : G string := λ c, (token c, c).

(** The git commands run so far. *)
Fixpoint invocations (events : list Event) : list (list string) :=
  match events with
  | [] => []
  | git args :: rest => args :: invocations rest
  | _ :: rest => invocations rest
  end.

Definition logInfo (m : Message) : G unit := emit (info m).
Definition logError (m : Message) : G unit := emit (error_ m).
Definition logWarn (m : Message) : G unit := emit (warn m).

Definition prompt `{Strings} (message : string) : G string :=
  let* _ := emit (asked message) in
  let* _ := Scan in
  let* text := Text in
  ret (TrimSpace text).

(** [cmd.Run()] of [exec.Command("git", args...)]. *)
Definition cmd_Run `{Process} (args : list string) : G bool :=
  λ c, (Run (invocations (out c)) args,
        mkConsole (stdin c) (token c) (out c ++ [git args])).

Definition executeGit `{Process} (args : list string) : G (option Failure) :=
  let* _ := logInfo (executing (Join args " ")) in
  let* ok := cmd_Run args in
  if ok then
    let* _ := logInfo command_completed in
    ret None
  else
    let* _ := logError git_command_failed in
    ret (Some exit_error).

Definition showMenu : G unit := emit menu.

Definition handleClone `{Strings} `{Process} : G (option Failure) :=
  let* url := prompt "Enter repository URL" in
  if String.eqb url EmptyString then ret (Some repository_URL_is_required)
  else
    let* dir := prompt "Enter directory name (optional)" in
    if negb (String.eqb dir EmptyString) then executeGit ["clone"; url; dir]
    else executeGit ["clone"; url].

Definition handleInit `{Strings} `{Process} : G (option Failure) :=
  let* dir := prompt "Enter directory path (. for current)" in
  let dir := if String.eqb dir EmptyString then "." else dir in
  executeGit ["init"; dir].

Definition handleAdd `{Strings} `{Process} : G (option Failure) :=
  let* files := prompt "Enter files to add (. for all)" in
  let files := if String.eqb files EmptyString then "." else files in
  executeGit ["add"; files].

Definition handleCommit `{Strings} `{Process} : G (option Failure) :=
  let* message := prompt "Enter commit message" in
  if String.eqb message EmptyString then ret (Some commit_message_is_required)
  else executeGit ["commit"; "-m"; message].

Definition handlePush `{Strings} `{Process} : G (option Failure) :=
  let* remote := prompt "Enter remote name (default: origin)" in
  let remote := if String.eqb remote EmptyString then "origin" else remote in
  let* branch := prompt "Enter branch name (leave empty for current)" in
  if negb (String.eqb branch EmptyString) then executeGit ["push"; remote; branch]
  else executeGit ["push"; remote].

Definition handlePull `{Strings} `{Process} : G (option Failure) :=
  let* remote := prompt "Enter remote name (default: origin)" in
  let remote := if String.eqb remote EmptyString then "origin" else remote in
  let* branch := prompt "Enter branch name (leave empty for current)" in
  if negb (String.eqb branch EmptyString) then executeGit ["pull"; remote; branch]
  else executeGit ["pull"; remote].

Definition handleCreateBranch `{Strings} `{Process} : G (option Failure) :=
  let* name := prompt "Enter new branch name" in
  if String.eqb name EmptyString then ret (Some branch_name_is_required)
  else
    let* checkout := prompt "Checkout new branch? (y/n)" in
    if String.eqb (ToLower checkout) "y" then executeGit ["checkout"; "-b"; name]
    else executeGit ["branch"; name].

Definition handleSwitchBranch `{Strings} `{Process} : G (option Failure) :=
  let* name := prompt "Enter branch name" in
  if String.eqb name EmptyString then ret (Some branch_name_is_required)
  else executeGit ["checkout"; name].

Definition handleMerge `{Strings} `{Process} : G (option Failure) :=
  let* branch := prompt "Enter branch to merge" in
  if String.eqb branch EmptyString then ret (Some branch_name_is_required)
  else executeGit ["merge"; branch].

Definition handleDeleteBranch `{Strings} `{Process} : G (option Failure) :=
  let* branch := prompt "Enter branch to delete" in
  if String.eqb branch EmptyString then ret (Some branch_name_is_required)
  else
    let* force := prompt "Force delete? (y/n)" in
    if String.eqb (ToLower force) "y" then executeGit ["branch"; "-D"; branch]
    else executeGit ["branch"; "-d"; branch].

Definition handleAddRemote `{Strings} `{Process} : G (option Failure) :=
  let* name := prompt "Enter remote name" in
  if String.eqb name EmptyString then ret (Some remote_name_is_required)
  else
    let* url := prompt "Enter remote URL" in
    if String.eqb url EmptyString then ret (Some remote_URL_is_required)
    else executeGit ["remote"; "add"; name; url].

Definition handleReset `{Strings} `{Process} : G (option Failure) :=
  let* mode := prompt "Enter reset mode (soft/mixed/hard)" in
  let* commit := prompt "Enter commit hash (HEAD for last commit)" in
  let commit := if String.eqb commit EmptyString then "HEAD" else commit in
  if String.eqb (ToLower mode) "soft" then executeGit ["reset"; "--soft"; commit]
  else if String.eqb (ToLower mode) "hard" then executeGit ["reset"; "--hard"; commit]
  else executeGit ["reset"; commit].

Definition handleStash `{Strings} `{Process} : G (option Failure) :=
  let* message := prompt "Enter stash message (optional)" in
  if negb (String.eqb message EmptyString) then executeGit ["stash"; "push"; "-m"; message]
  else executeGit ["stash"].

(** The cases "1" to "20" of the [switch] of [run]; [None] for the other
    choices. *)
Definition operation `{Strings} `{Process} (choice : string) : option (G (option Failure)) :=
  if String.eqb choice "1" then Some handleClone
  else if String.eqb choice "2" then Some handleInit
  else if String.eqb choice "3" then Some handleAdd
  else if String.eqb choice "4" then Some handleCommit
  else if String.eqb choice "5" then Some handlePush
  else if String.eqb choice "6" then Some handlePull
  else if String.eqb choice "7" then Some handleCreateBranch
  else if String.eqb choice "8" then Some handleSwitchBranch
  else if String.eqb choice "9" then Some handleMerge
  else if String.eqb choice "10" then Some handleDeleteBranch
  else if String.eqb choice "11" then Some (executeGit ["status"])
  else if String.eqb choice "12" then Some (executeGit ["log"; "--oneline"; "-10"])
  else if String.eqb choice "13" then Some (executeGit ["branch"; "-a"])
  else if String.eqb choice "14" then Some (executeGit ["remote"; "-v"])
  else if String.eqb choice "15" then Some handleAddRemote
  else if String.eqb choice "16" then Some (executeGit ["fetch"])
  else if String.eqb choice "17" then Some handleReset
  else if String.eqb choice "18" then Some handleStash
  else if String.eqb choice "19" then Some (executeGit ["stash"; "pop"])
  else if String.eqb choice "20" then Some (executeGit ["diff"])
  else None.

(** Whether the loop has returned, or is still going round when the
    rounds counted by [fuel] are over. *)
Inductive Status : Type :=
  | Returned
  | Running.

(** The [for] loop of [run], for [fuel] rounds. *)
Fixpoint run_loop `{Strings} `{Process} (fuel : nat) : G Status :=
  match fuel with
  | O => ret Running
  | S fuel' =>
      let* _ := showMenu in
      let* choice := prompt "Select operation" in
      match operation choice with
      | Some handler =>
          let* err := handler in
          let* _ := match err with
                    | Some e => logError (operation_failed e)
                    | None => ret tt
                    end in
          let* _ := emit press_enter in
          let* _ := Scan in
          run_loop fuel'
      | None =>
          if String.eqb choice "0" then
            let* _ := logInfo exiting in
            ret Returned
          else
            let* _ := logWarn invalid_choice in
            run_loop fuel'
      end
  end.

Definition run `{Strings} `{Process} (fuel : nat) : G Status :=
  let* _ := logInfo tool_started in
  run_loop fuel.

(** [main]: [lookPath] tells whether [exec.LookPath("git")] finds git;
    [None] is the exit of [log.Fatal]. *)
Definition main `{Strings} `{Process} (lookPath : bool) (fuel : nat) : G (option Status) :=
  if lookPath then
    let* status := run fuel in
    ret (Some status)
  else ret None.

End GitOps.

(** Two processes to run the tool with: a git that fails every time, and
    one that succeeds every time. *)
Definition AlwaysFails : Process := {| Run := λ _ _, false |}.
Definition AlwaysWorks : Process := {| Run := λ _ _, true |}.

(** *** Vocabulary for the git front end *)

(** The git subcommands of the menu. *)
Definition subcommands : list string :=
  ["clone"; "init"; "add"; "commit"; "push"; "pull"; "checkout"; "branch"; "merge";
   "status"; "log"; "remote"; "fetch"; "reset"; "stash"; "diff"].

(** A git command line of the tool: a subcommand of the menu first, and
    no empty argument. *)
Definition sound (args : list string) : Prop :=
  match args with
  | [] => False
  | sub :: _ => sub ∈ subcommands
  end ∧ Forall (λ a, a ≠ EmptyString) args.

(** Every git command run so far is sound. *)
Definition all_sound (c : GitOps.Console) : Prop :=
  Forall sound (GitOps.invocations (GitOps.out c)).

(** The step [m] keeps the property [I] of the console. *)
Definition preserves {A} (I : GitOps.Console → Prop) (m : GitOps.G A) : Prop :=
  ∀ c, I c → I (m c).2.

(** What the tool did apart from its log lines: the questions it asked
    and the git commands it ran. *)
Fixpoint deeds (events : list GitOps.Event) : list GitOps.Event :=
  match events with
  | [] => []
  | (GitOps.info _ | GitOps.error_ _ | GitOps.warn _) :: rest => deeds rest
  | e :: rest => e :: deeds rest
  end.

(** Two consoles that differ in their log lines at most. *)
Definition agree (c1 c2 : GitOps.Console) : Prop :=
  GitOps.stdin c1 = GitOps.stdin c2 ∧
  GitOps.token c1 = GitOps.token c2 ∧
  deeds (GitOps.out c1) = deeds (GitOps.out c2).

(** The steps [m1] and [m2] take consoles that agree to consoles that
    agree, with results related by [R]. *)
Definition alike {A} (R : A → A → Prop) (m1 m2 : GitOps.G A) : Prop :=
  ∀ c1 c2, agree c1 c2 → R (m1 c1).1 (m2 c2).1 ∧ agree (m1 c1).2 (m2 c2).2.

(** * Properties *)

(** ** Strings *)

Lemma string_app_cons (c : ascii) (s t : string) :
  String c s +:+ t = String c (s +:+ t).
Proof. reflexivity. Qed.

Lemma string_app_nil_l (s : string) : EmptyString +:+ s = s.
Proof. reflexivity. Qed.

Lemma string_app_nil_r (s : string) : s +:+ EmptyString = s.
Proof. induction s as [|c s IH]; [reflexivity|]. by rewrite string_app_cons, IH. Qed.

Lemma string_app_assoc (s1 s2 s3 : string) : (s1 +:+ s2) +:+ s3 = s1 +:+ (s2 +:+ s3).
Proof.
  induction s1 as [|c s1 IH]; [reflexivity|]. by rewrite !string_app_cons, IH.
Qed.

Lemma string_length_app (s1 s2 : string) :
  String.length (s1 +:+ s2) = (String.length s1 + String.length s2)%nat.
Proof.
  induction s1 as [|c s1 IH]; [reflexivity|].
  rewrite string_app_cons. cbn [String.length]. by rewrite IH.
Qed.


Lemma substring_split (s : string) :
  ∀ k : nat, (k ≤ String.length s)%nat →
    String.substring 0 k s +:+ String.substring k (String.length s - k) s = s.
Proof.
  induction s as [|c s IH]; intros [|k] Hk; cbn [String.length] in *.
  - done.
  - lia.
  - cbn [String.substring Nat.sub]. rewrite string_app_nil_l. f_equal.
    specialize (IH 0%nat ltac:(lia)). rewrite Nat.sub_0_r in IH.
    destruct s; [done|]. cbn [String.substring] in IH. by rewrite string_app_nil_l in IH.
  - cbn [String.substring Nat.sub]. rewrite string_app_cons. f_equal. apply IH. lia.
Qed.

Lemma substring_short (s : string) :
  ∀ k : nat, (String.length (String.substring 0 k s) ≤ k)%nat.
Proof.
  induction s as [|c s IH]; intros [|k]; cbn [String.substring String.length]; try lia.
  specialize (IH k). lia.
Qed.

Lemma substring_rest_nonempty (s : string) (k : nat) :
  (k < String.length s)%nat → String.substring k (String.length s - k) s ≠ EmptyString.
Proof.
  intros Hk Hempty. pose proof (substring_split s k ltac:(lia)) as Hsplit.
  rewrite Hempty, string_app_nil_r in Hsplit.
  pose proof (substring_short s k) as Hshort. rewrite Hsplit in Hshort. lia.
Qed.

Lemma length_substring (s : string) :
  ∀ n m : nat, (n + m ≤ String.length s)%nat → String.length (String.substring n m s) = m.
Proof.
  induction s as [|c s IH]; intros [|n] [|m] Hfit; cbn [String.length String.substring] in *;
    try done; try lia.
  - rewrite (IH 0%nat m) by lia. done.
  - apply IH. lia.
  - apply IH. lia.
Qed.

Lemma length_zero_empty (s : string) : String.length s = 0%nat → s = EmptyString.
Proof. by destruct s. Qed.


(** ** Position checks *)

(** The guards of the methods, read as ranges. *)
Lemma insert_guard (n pos : Z) :
  (pos <? 1) || (pos >? n + 1) = false ↔ 1 ≤ pos ≤ n + 1.
Proof. rewrite orb_false_iff, Z.ltb_ge, Z.gtb_ltb, Z.ltb_ge. lia. Qed.

Lemma line_guard (n pos : Z) :
  (pos <? 1) || (pos >? n) = false ↔ 1 ≤ pos ≤ n.
Proof. rewrite orb_false_iff, Z.ltb_ge, Z.gtb_ltb, Z.ltb_ge. lia. Qed.

Lemma range_guard (n start end_ : Z) :
  (start <? 1) || (end_ <? 1) || (start >? n) || (end_ >? n) || (start >? end_) = false
  ↔ 1 ≤ start ∧ start ≤ end_ ∧ end_ ≤ n.
Proof.
  rewrite !orb_false_iff, !Z.ltb_ge, !Z.gtb_ltb, !Z.ltb_ge. lia.
Qed.

Lemma guard_true_iff (b : bool) (P : Prop) : (b = false ↔ P) → (b = true ↔ ¬ P).
Proof. destruct b; intuition congruence. Qed.

(** ** Insert and delete *)

Lemma insertLine_ok fe pos t :
  1 ≤ pos ≤ len (lines fe) + 1 →
  insertLine fe pos t =
    (mkFileEditor (filename fe)
       (take (Z.to_nat (pos - 1)) (lines fe) ++ t :: drop (Z.to_nat (pos - 1)) (lines fe))
       true, None).
Proof.
  intros Hpos. unfold insertLine.
  apply insert_guard in Hpos. rewrite Hpos. reflexivity.
Qed.

Lemma deleteLine_ok fe pos :
  1 ≤ pos ≤ len (lines fe) →
  deleteLine fe pos =
    (mkFileEditor (filename fe)
       (take (Z.to_nat (pos - 1)) (lines fe) ++ drop (Z.to_nat (pos - 1) + 1) (lines fe))
       true, None).
Proof.
  intros Hpos. unfold deleteLine.
  apply line_guard in Hpos. rewrite Hpos. reflexivity.
Qed.

Lemma len_insert_middle {A} (l : list A) (i : nat) (x : A) :
  (i ≤ length l)%nat → len (take i l ++ x :: drop i l) = len l + 1.
Proof.
  intros Hi. unfold len.
  rewrite length_app, length_take. cbn [length]. rewrite length_drop. lia.
Qed.

(** C4. For every buffer, every position [pos] with
    [1 ≤ pos ≤ len(lines)+1] and every text [t], [insert(pos, t)] succeeds,
    the following [delete(pos)] succeeds, and the line sequence is again
    the one before the insert. *)
Theorem insert_then_delete (fe : FileEditor) (pos : Z) (t : string) :
  1 ≤ pos ≤ len (lines fe) + 1 →
  ∃ fe1 fe2,
    insertLine fe pos t = (fe1, None) ∧
    deleteLine fe1 pos = (fe2, None) ∧
    lines fe2 = lines fe.
Proof.
  intros Hpos.
  assert (Hi : (Z.to_nat (pos - 1) ≤ length (lines fe))%nat) by (unfold len in Hpos; lia).
  eexists _, _. split; [apply insertLine_ok; exact Hpos|].
  split.
  - apply deleteLine_ok. cbn [lines]. rewrite len_insert_middle by exact Hi. lia.
  - cbn [lines].
    set (i := Z.to_nat (pos - 1)) in *.
    rewrite take_app_le by (rewrite length_take; lia).
    rewrite take_take, Nat.min_id.
    rewrite drop_app_ge by (rewrite length_take; lia).
    rewrite length_take, Nat.min_l by exact Hi.
    replace (i + 1 - i)%nat with 1%nat by lia.
    cbn [drop]. rewrite drop_0. apply take_drop.
Qed.

Lemma insert_then_delete_witness :
  ∃ fe1 fe2,
    insertLine (mkFileEditor "notes.txt" ["a"; "b"; "c"] false) 4 "x" = (fe1, None) ∧
    deleteLine fe1 4 = (fe2, None) ∧
    lines fe2 = ["a"; "b"; "c"].
Proof.
  apply (insert_then_delete (mkFileEditor "notes.txt" ["a"; "b"; "c"] false) 4 "x").
  vm_compute. split; discriminate.
Defined.

(** ** The scenario of the specification *)

(** C2. From the buffer [["a","b","c"]]: [insert(2,"x")], [delete(1)],
    [copyRange(1,2)], [paste(4, clipboard)], [substitute("b","B",Global)],
    [substitute("x","Z",First)] give the states of the specification; the
    global substitution reports 2 and the first-match one reports 1. *)
Theorem scenario :
  let fe0 := mkFileEditor "notes.txt" ["a"; "b"; "c"] false in
  ∃ fe1 fe2 clip fe4 fe5 fe6,
    insertLine fe0 2 "x" = (fe1, None) ∧ lines fe1 = ["a"; "x"; "b"; "c"] ∧
    deleteLine fe1 1 = (fe2, None) ∧ lines fe2 = ["x"; "b"; "c"] ∧
    copyLines fe2 1 2 = (fe2, (clip, None)) ∧ clip = ["x"; "b"] ∧
    pasteLines fe2 4 clip = (fe4, None) ∧ lines fe4 = ["x"; "b"; "c"; "x"; "b"] ∧
    @searchAndReplace LiteralRegexp fe4 "b" "B" true = (fe5, (2, None)) ∧
    lines fe5 = ["x"; "B"; "c"; "x"; "B"] ∧
    @searchAndReplace LiteralRegexp fe5 "x" "Z" false = (fe6, (1, None)) ∧
    lines fe6 = ["Z"; "B"; "c"; "x"; "B"].
Proof.
  cbv zeta. do 6 eexists. repeat split; vm_compute; reflexivity.
Qed.

(** ** Loading a missing resource *)

(** C9. For every resource name, loading a resource that does not exist is
    not an error: it gives a buffer with no lines and [modified = false]. *)
Theorem load_missing_resource (name : string) (fs : FileSystem) :
  nodes fs !! name = None →
  NewFileEditor name fs = (Some (mkFileEditor name [] false), None).
Proof.
  intros Hmissing. unfold NewFileEditor, loadFile. cbn [filename].
  rewrite Hmissing. reflexivity.
Qed.

Lemma load_missing_resource_witness :
  NewFileEditor "new.txt" (mkFileSystem ∅ 0) =
    (Some (mkFileEditor "new.txt" [] false), None).
Proof.
  apply (load_missing_resource "new.txt" (mkFileSystem ∅ 0)).
  reflexivity.
Defined.

(** ** Substitution *)

Section Substitution.
Context `{Regexp}.

Lemma replace_loop_global regex replacement ls count :
  replace_loop regex replacement true ls count =
    (map (λ line, ReplaceAllString regex line replacement) ls,
     count + altered ls (map (λ line, ReplaceAllString regex line replacement) ls)).
Proof.
  revert count. induction ls as [|line rest IH]; intros count; cbn [replace_loop map altered].
  - f_equal. lia.
  - rewrite (String.eqb_sym line).
    destruct (String.eqb_spec (ReplaceAllString regex line replacement) line) as [Heq|Hne];
      cbn [negb]; rewrite IH; f_equal; try lia.
    by f_equal.
Qed.

Lemma replace_loop_first_none regex replacement ls count :
  existsb (MatchString regex) ls = false →
  replace_loop regex replacement false ls count = (ls, count).
Proof.
  revert count. induction ls as [|line rest IH]; intros count Hnone; [reflexivity|].
  cbn in Hnone. apply orb_false_iff in Hnone as [Hline Hrest].
  cbn [replace_loop]. rewrite Hline, IH by exact Hrest. reflexivity.
Qed.

Lemma replace_loop_first_some regex replacement ls count :
  existsb (MatchString regex) ls = true →
  ∃ (i : nat) line,
    ls !! i = Some line ∧
    MatchString regex line = true ∧
    existsb (MatchString regex) (take i ls) = false ∧
    replace_loop regex replacement false ls count =
      (<[i := ReplaceAllString regex line replacement]> ls, count + 1).
Proof.
  revert count. induction ls as [|line rest IH]; intros count Hsome; [discriminate|].
  cbn [replace_loop]. destruct (MatchString regex line) eqn:Hline.
  - exists 0%nat, line. repeat split; done.
  - cbn in Hsome. rewrite Hline in Hsome.
    destruct (IH count Hsome) as (i & l & Hl & Hm & Hbefore & Hloop).
    exists (S i), l. rewrite Hloop. cbn. rewrite Hline. repeat split; done.
Qed.

Lemma altered_refl ls : altered ls ls = 0.
Proof. induction ls as [|l ls IH]; cbn; [|rewrite String.eqb_refl]; lia. Qed.

Lemma altered_insert ls (i : nat) line :
  0 ≤ altered ls (<[i := line]> ls) ≤ 1.
Proof.
  revert i. induction ls as [|l ls IH]; intros [|i]; cbn; try lia.
  - rewrite altered_refl. destruct (String.eqb l line); lia.
  - rewrite String.eqb_refl. apply IH.
Qed.

Lemma altered_nonneg old new : 0 ≤ altered old new.
Proof.
  revert new. induction old as [|a old IH]; intros [|b new]; cbn; try lia.
  specialize (IH new). destruct (String.eqb a b); lia.
Qed.

Lemma altered_zero old new :
  length old = length new → altered old new = 0 → old = new.
Proof.
  revert new. induction old as [|a old IH]; intros [|b new] Hlen Hz; try done.
  cbn in Hz. pose proof (altered_nonneg old new).
  destruct (String.eqb_spec a b); [|lia].
  f_equal; [done|]. apply IH; [by injection Hlen | lia].
Qed.

Lemma flag_update (fe : FileEditor) ls count :
  (if count >? 0 then set_modified (set_lines fe ls) true else set_lines fe ls) =
    mkFileEditor (filename fe) ls (modified fe || (0 <? count)).
Proof.
  rewrite Z.gtb_ltb. destruct fe as [name lines0 m].
  destruct (0 <? count); cbn; [by rewrite orb_true_r | by rewrite orb_false_r].
Qed.

(** C1, as the code has it.  When the pattern compiles, [substitute]
    returns no error, sets [modified] exactly when its count is positive
    and otherwise leaves the flag alone.  In Global mode every line is
    replaced by its replace-all and the count is the number of lines
    whose text changed.  In First mode the count is 1 when some line
    matches and 0 otherwise: the first matching line is rewritten and
    counted, whether or not the replace-all changes its text, and the
    count is never below the number of lines whose text changed. *)
Theorem substitute_count_and_flag (fe : FileEditor) (pattern replacement : string)
    (global : bool) (regex : regexp) :
  Compile pattern = Some regex →
  ∃ ls count,
    searchAndReplace fe pattern replacement global =
      (mkFileEditor (filename fe) ls (modified fe || (0 <? count)), (count, None)) ∧
    length ls = length (lines fe) ∧
    (global = true →
       ls = map (λ line, ReplaceAllString regex line replacement) (lines fe) ∧
       count = altered (lines fe) ls) ∧
    (global = false →
       count = (if existsb (MatchString regex) (lines fe) then 1 else 0) ∧
       altered (lines fe) ls ≤ count ∧
       (count = 0 → ls = lines fe) ∧
       (count = 1 →
          ∃ (i : nat) line,
            lines fe !! i = Some line ∧ MatchString regex line = true ∧
            existsb (MatchString regex) (take i (lines fe)) = false ∧
            ls = <[i := ReplaceAllString regex line replacement]> (lines fe))).
Proof.
  intros Hcompile. unfold searchAndReplace. rewrite Hcompile.
  destruct global.
  - rewrite replace_loop_global. rewrite Z.add_0_l, flag_update.
    eexists _, _. split; [reflexivity|].
    split; [apply length_map|]. split; [done|discriminate].
  - destruct (existsb (MatchString regex) (lines fe)) eqn:Hany.
    + destruct (replace_loop_first_some regex replacement (lines fe) 0 Hany)
        as (i & line & Hline & Hmatch & Hbefore & Hloop).
      rewrite Hloop, flag_update.
      eexists _, _. split; [reflexivity|].
      split; [apply length_insert|]. split; [discriminate|].
      intros _. split; [done|]. split; [apply altered_insert|].
      split; [discriminate|]. intros _. by exists i, line.
    + rewrite replace_loop_first_none by exact Hany. rewrite flag_update.
      eexists _, _. split; [reflexivity|].
      split; [done|]. split; [discriminate|].
      intros _. split; [done|]. split; [by rewrite altered_refl|].
      split; [done|discriminate].
Qed.

End Substitution.

Lemma substitute_count_and_flag_witness :
  ∃ ls count,
    @searchAndReplace LiteralRegexp (mkFileEditor "notes.txt" ["a"; "ba"] false) "a" "a" false =
      (mkFileEditor "notes.txt" ls (false || (0 <? count)), (count, None)) ∧
    length ls = 2%nat.
Proof.
  destruct (@substitute_count_and_flag LiteralRegexp
              (mkFileEditor "notes.txt" ["a"; "ba"] false) "a" "a" false "a" eq_refl)
    as (ls & count & Hrun & Hlen & _).
  exists ls, count. split; [exact Hrun | exact Hlen].
Defined.

(** C1, as stated, fails in First mode: on the one-line buffer [["a"]],
    [substitute("a", "a", First)] alters no line, yet reports 1 and sets
    [modified]. *)
Lemma substitute_first_counts_unchanged_line :
  @searchAndReplace LiteralRegexp (mkFileEditor "notes.txt" ["a"] false) "a" "a" false =
    (mkFileEditor "notes.txt" ["a"] true, (1, None)) ∧
  ¬ @counts_altered_lines LiteralRegexp (mkFileEditor "notes.txt" ["a"] false) "a" "a" false.
Proof.
  split; [reflexivity|].
  unfold counts_altered_lines. vm_compute. intros [Hcount _]. discriminate Hcount.
Qed.

(** *** Applying a global substitution twice *)

Section Idempotence.
Context `{Regexp}.

Lemma map_eq_Forall {A B} (f g : A → B) (l : list A) :
  map f l = map g l ↔ Forall (λ x, f x = g x) l.
Proof.
  induction l as [|x l IH]; cbn [map]; [by split; [constructor|]|].
  split.
  - intros [= Hx Hl]. constructor; [done|by apply IH].
  - intros [Hx Hl]%Forall_cons_1. f_equal; [done|by apply IH].
Qed.

(** C8, as the code has it.  [substitute(p, r, Global)] puts in the place
    of every line its replace-all.  A second [substitute(p, r, Global)]
    in a row changes no line, reports 0 and leaves the flag as it is
    exactly when the replace-all of every line of the buffer, as it was
    before the first call, is a text that the replace-all leaves
    unchanged.  That is so, with a regexp engine whose replace-all returns
    a text without match unchanged (Go's does), when the replace-all of no
    line of the buffer matches [p]. *)
Theorem second_global_idle (fe : FileEditor) (pattern replacement : string)
    (regex : regexp) :
  Compile pattern = Some regex →
  let replace := λ line, ReplaceAllString regex line replacement in
  let fe1 := (searchAndReplace fe pattern replacement true).1 in
  lines fe1 = map replace (lines fe) ∧
  (searchAndReplace fe1 pattern replacement true = (fe1, (0, None)) ↔
   Forall (λ line, replace (replace line) = replace line) (lines fe)) ∧
  ((∀ s, MatchString regex s = false → replace s = s) →
   Forall (λ line, MatchString regex (replace line) = false) (lines fe) →
   searchAndReplace fe1 pattern replacement true = (fe1, (0, None))).
Proof.
  intros Hcompile replace fe1.
  assert (Hfirst : lines fe1 = map replace (lines fe)).
  { unfold fe1, searchAndReplace. rewrite Hcompile.
    by rewrite replace_loop_global, flag_update. }
  assert (Hsecond : searchAndReplace fe1 pattern replacement true = (fe1, (0, None)) ↔
                    Forall (λ line, replace (replace line) = replace line) (lines fe)).
  { assert (Hidem : Forall (λ line, replace (replace line) = replace line) (lines fe) ↔
                      map replace (lines fe1) = lines fe1).
    { rewrite Hfirst, map_map. symmetry.
      apply (map_eq_Forall (λ line, replace (replace line)) replace). }
    rewrite Hidem. unfold searchAndReplace at 1. rewrite Hcompile.
    rewrite replace_loop_global, flag_update. fold replace. rewrite Z.add_0_l. split.
    - intros [= _ Hcount]. symmetry. apply altered_zero; [by rewrite length_map|done].
    - intros Hsame. rewrite Hsame, altered_refl.
      destruct fe1 as [name ls m]. cbn. by rewrite orb_false_r. }
  split; [exact Hfirst|]. split; [exact Hsecond|].
  intros Hlaw Hnone. apply Hsecond.
  eapply Forall_impl; [exact Hnone|]. intros line Hline. by apply Hlaw.
Qed.

End Idempotence.

(** The literal engine leaves a text without occurrence unchanged. *)
Lemma Literal_replace_no_match (p repl s : string) :
  Literal.MatchString p s = false → Literal.ReplaceAllString p s repl = s.
Proof.
  unfold Literal.ReplaceAllString.
  induction s as [|c s IH]; intros Hnone; [reflexivity|].
  cbn [Literal.MatchString] in Hnone. apply orb_false_iff in Hnone as [Hhere Hlater].
  cbn [Literal.replace_from]. rewrite Hhere. f_equal. by apply IH.
Qed.

Lemma second_global_idle_witness :
  let fe1 := (@searchAndReplace LiteralRegexp
                (mkFileEditor "notes.txt" ["abab"; "c"] false) "ab" "x" true).1 in
  lines fe1 = ["xx"; "c"] ∧
  @searchAndReplace LiteralRegexp fe1 "ab" "x" true = (fe1, (0, None)).
Proof.
  destruct (@second_global_idle LiteralRegexp
              (mkFileEditor "notes.txt" ["abab"; "c"] false) "ab" "x" "ab" eq_refl)
    as (Hfirst & _ & Hidle).
  split; [exact Hfirst|]. apply Hidle.
  - intros s. apply Literal_replace_no_match.
  - repeat constructor.
Defined.

(** C8, as stated, fails: the replacement ["b"] does not match the pattern
    ["ab"], yet on the line ["aab"] the first global substitution leaves
    ["ab"], which the second one changes again, reporting 1. *)
Lemma second_global_not_idle :
  @Compile LiteralRegexp "ab" = Some "ab" ∧
  @MatchString LiteralRegexp "ab" "b" = false ∧
  @searchAndReplace LiteralRegexp (mkFileEditor "notes.txt" ["aab"] false) "ab" "b" true =
    (mkFileEditor "notes.txt" ["ab"] true, (1, None)) ∧
  @searchAndReplace LiteralRegexp (mkFileEditor "notes.txt" ["ab"] true) "ab" "b" true =
    (mkFileEditor "notes.txt" ["b"] true, (1, None)) ∧
  ¬ @second_global_is_idle LiteralRegexp (mkFileEditor "notes.txt" ["aab"] false) "ab" "b".
Proof.
  repeat split; try reflexivity.
  unfold second_global_is_idle. vm_compute. intros [Hlines _]. discriminate Hlines.
Qed.

(** ** Search *)

(** For the literal engine, to match is to occur anywhere in the line. *)
Lemma Literal_has_prefix (p s : string) :
  Literal.has_prefix p s = true ↔ ∃ b, s = p +:+ b.
Proof.
  revert s. induction p as [|c p IH]; intros s.
  - split; [intros _; by exists s | done].
  - destruct s as [|d s]; cbn [Literal.has_prefix].
    + split; [discriminate | by intros [b Hb]].
    + rewrite andb_true_iff, IH. split.
      * intros [Hc [b ->]]. apply Ascii.eqb_eq in Hc as ->. by exists b.
      * intros [b Hb]. rewrite string_app_cons in Hb. injection Hb as -> ->.
        split; [apply Ascii.eqb_refl | by exists b].
Qed.

Lemma Literal_MatchString_anywhere (p s : string) :
  Literal.MatchString p s = true ↔ ∃ a b, s = a +:+ p +:+ b.
Proof.
  split.
  - induction s as [|c s IH]; cbn [Literal.MatchString]; rewrite orb_true_iff.
    + intros [[b Hb]%Literal_has_prefix|]; [|discriminate]. by exists EmptyString, b.
    + intros [[b Hb]%Literal_has_prefix|Hlater]; [by exists EmptyString, b|].
      destruct (IH Hlater) as (a & b & ->). by exists (String c a), b.
  - intros (a & b & ->). induction a as [|c a IH].
    + rewrite string_app_nil_l.
      assert (Hhere : Literal.has_prefix p (p +:+ b) = true)
        by (apply Literal_has_prefix; by exists b).
      destruct (p +:+ b); cbn [Literal.MatchString]; by rewrite Hhere.
    + rewrite string_app_cons. cbn [Literal.MatchString]. rewrite IH. apply orb_true_r.
Qed.


Section Search.
Context `{Regexp}.

Lemma search_loop_positions regex ls i matches :
  search_loop regex ls i matches = matches ++ matching_positions regex i ls.
Proof.
  revert i matches. induction ls as [|line rest IH]; intros i matches; cbn.
  - by rewrite app_nil_r.
  - destruct (MatchString regex line); rewrite IH; [|done].
    by rewrite <- app_assoc.
Qed.

Lemma matching_positions_elem regex i ls p :
  p ∈ matching_positions regex i ls ↔
  ∃ (k : nat) line, ls !! k = Some line ∧ p = i + Z.of_nat k + 1 ∧
                    MatchString regex line = true.
Proof.
  revert i. induction ls as [|line rest IH]; intros i; cbn [matching_positions].
  - split; [by intros ?%elem_of_nil | by intros (k & l & ? & _)].
  - assert (Hrest : p ∈ matching_positions regex (i + 1) rest ↔
              ∃ (k : nat) l, (line :: rest) !! S k = Some l ∧
                             p = i + Z.of_nat (S k) + 1 ∧ MatchString regex l = true).
    { rewrite IH. split; intros (k & l & Hk & -> & Hm); exists k, l;
        (split; [exact Hk | split; [lia | exact Hm]]). }
    destruct (MatchString regex line) eqn:Hline.
    + rewrite elem_of_cons, Hrest. split.
      * intros [-> | (k & l & ? & ? & ?)]; [exists 0%nat, line | exists (S k), l];
          (split; [done | split; [lia | done]]).
      * intros ([|k] & l & Hk & -> & Hm); [left; lia | right; by exists k, l].
    + rewrite Hrest. split.
      * intros (k & l & ? & ? & ?). by exists (S k), l.
      * intros ([|k] & l & Hk & Hp & Hm); [|by exists k, l].
        cbn in Hk. congruence.
Qed.

Lemma matching_positions_sorted regex i ls :
  StronglySorted Z.lt (matching_positions regex i ls).
Proof.
  revert i. induction ls as [|line rest IH]; intros i; cbn [matching_positions].
  - constructor.
  - destruct (MatchString regex line); [|apply IH].
    constructor; [apply IH|].
    apply Forall_forall. intros p (k & l & _ & -> & _)%matching_positions_elem. lia.
Qed.

Lemma matching_positions_none regex i ls :
  existsb (MatchString regex) ls = false → matching_positions regex i ls = [].
Proof.
  revert i. induction ls as [|line rest IH]; intros i Hnone; [reflexivity|].
  cbn in Hnone. apply orb_false_iff in Hnone as [Hline Hrest].
  cbn. rewrite Hline. by apply IH.
Qed.

(** C7. [search(pattern)] never changes the buffer or its flag.  It
    fails, with an error of kind InvalidPattern, exactly when the
    pattern does not compile.  Otherwise it returns without error the
    1-based positions of the lines the expression matches, each of them
    and no other, in strictly ascending order, and the empty sequence
    when no line matches. *)
Theorem search_positions (fe : FileEditor) (pattern : string) :
  ∃ matches err,
    search fe pattern = (fe, (matches, err)) ∧
    (Compile pattern = None ↔ ∃ e, err = Some e ∧ kind e = InvalidPattern) ∧
    (Compile pattern = None ↔ err ≠ None) ∧
    ∀ regex, Compile pattern = Some regex →
      err = None ∧
      StronglySorted Z.lt matches ∧
      (∀ p, p ∈ matches ↔
            ∃ line, 1 ≤ p ∧ lines fe !! Z.to_nat (p - 1) = Some line ∧
                    MatchString regex line = true) ∧
      (existsb (MatchString regex) (lines fe) = false → matches = []).
Proof.
  unfold search. destruct (Compile pattern) as [regex|] eqn:Hcompile.
  - eexists _, _. split; [reflexivity|].
    split; [split; [discriminate | by intros (e & ? & _)]|].
    split; [split; [discriminate | done]|].
    intros regex' [= <-]. rewrite search_loop_positions, app_nil_l.
    split; [done|]. split; [apply matching_positions_sorted|].
    split; [|apply matching_positions_none].
    intros p. rewrite matching_positions_elem. split.
    + intros (k & line & Hk & -> & Hm). exists line.
      split; [lia|]. split; [|done].
      by replace (Z.to_nat (0 + Z.of_nat k + 1 - 1)) with k by lia.
    + intros (line & Hp & Hline & Hm). exists (Z.to_nat (p - 1)), line.
      split; [done|]. split; [lia|done].
  - eexists _, _. split; [reflexivity|].
    split; [split; [by exists invalid_regex_pattern | done]|].
    split; [done|]. discriminate.
Qed.

End Search.

Lemma search_positions_witness :
  @search LiteralRegexp (mkFileEditor "notes.txt" ["cab"; "dog"; "abc"] true) "ab" =
    (mkFileEditor "notes.txt" ["cab"; "dog"; "abc"] true, ([1; 3], None)).
Proof.
  destruct (@search_positions LiteralRegexp
              (mkFileEditor "notes.txt" ["cab"; "dog"; "abc"] true) "ab")
    as (matches & err & Hrun & _ & _ & Hok).
  destruct (Hok "ab" eq_refl) as (-> & _).
  rewrite Hrun. vm_compute in Hrun. injection Hrun as <-. reflexivity.
Defined.

(** ** The modified flag *)

Lemma save_flag (fe : FileEditor) (fs : FileSystem) :
  match save fe fs with
  | (fe', _, Some _) => fe' = fe
  | (fe', _, None) => fe' = set_modified fe false
  end.
Proof.
  unfold save. destruct (os_Create fs (filename fe)) as [fs1|]; [|reflexivity].
  destruct (write_lines (NewWriter (room fs1)) (lines fe)) as [w [|]]; [|reflexivity].
  destruct (werr (Flush w)); reflexivity.
Qed.

Section Flag.
Context `{Regexp}.

Lemma exec_flag (c : Command) (s : Session) :
  modified (editor (exec c s).1) = flag_step (modified (editor s)) (c, (exec c s).2).
Proof.
  unfold flag_step. destruct c; cbn [exec].
  - unfold insertLine. by destruct (_ || _).
  - unfold deleteLine. by destruct (_ || _).
  - unfold replaceLine. by destruct (_ || _).
  - reflexivity.
  - unfold search. by destruct (Compile pattern).
  - unfold searchAndReplace. destruct (Compile pattern); [|reflexivity].
    destruct (replace_loop _ _ _ _ _) as [ls count]. cbn.
    by destruct (count >? 0).
  - unfold searchAndReplace. destruct (Compile pattern); [|reflexivity].
    destruct (replace_loop _ _ _ _ _) as [ls count]. cbn.
    by destruct (count >? 0).
  - unfold copyLines. by destruct (_ || _).
  - destruct (len (clipboard s) =? 0); [reflexivity|].
    unfold pasteLines. by destruct (_ || _).
  - pose proof (save_flag (editor s) (disk s)) as Hsave.
    destruct (save (editor s) (disk s)) as [[fe fs] [e|]]; cbn; by subst fe.
Qed.

Lemma run_flag (cs : list Command) (s : Session) :
  modified (editor (run cs s)) =
    fold_left flag_step (history cs s) (modified (editor s)).
Proof.
  revert s. induction cs as [|c cs IH]; intros s; [reflexivity|].
  unfold run in *. cbn [fold_left history].
  pose proof (exec_flag c s) as Hstep.
  destruct (exec c s) as [s' r]. cbn [fst snd] in *.
  rewrite IH. cbn [fold_left]. by rewrite Hstep.
Qed.

(** C3. Each command leaves the flag as its reply says: [true] after an
    insert, delete, replace, append or paste that returned no error and
    after a substitution with a positive count; [false] after a save
    that returned no error; unchanged otherwise.  So over a sequence of
    commands the flag is decided by the last mutation or successful
    save; the flag goes from [true] to [false] only on a successful
    save; a failed save returns the editor as it was; a successful one
    clears the flag and keeps the lines; and a substitution that changed
    a line has set the flag. *)
Theorem modified_flag_tracking :
  (∀ c s, modified (editor (exec c s).1) =
          if dirties c (exec c s).2 then true
          else if cleans c (exec c s).2 then false
          else modified (editor s)) ∧
  (∀ cs s, modified (editor (run cs s)) =
           fold_left flag_step (history cs s) (modified (editor s))) ∧
  (∀ c s, modified (editor s) = true → modified (editor (exec c s).1) = false →
          c = cmd_save ∧ (exec c s).2 = saved) ∧
  (∀ fe fs fe' fs' e, save fe fs = (fe', fs', Some e) → fe' = fe) ∧
  (∀ fe fs fe' fs', save fe fs = (fe', fs', None) →
                    modified fe' = false ∧ lines fe' = lines fe) ∧
  (∀ fe pattern replacement global fe' count err,
     searchAndReplace fe pattern replacement global = (fe', (count, err)) →
     lines fe' ≠ lines fe → modified fe' = true ∧ 0 < count).
Proof.
  split; [exact exec_flag|]. split; [exact run_flag|].
  split; [|split; [|split]].
  - intros c s Hbefore Hafter. rewrite exec_flag in Hafter. unfold flag_step in Hafter.
    cbn [fst snd] in Hafter.
    destruct (dirties c (exec c s).2); [discriminate|].
    destruct (cleans c (exec c s).2) eqn:Hclean; [|congruence].
    unfold cleans in Hclean.
    destruct c; try discriminate. by destruct ((exec cmd_save s).2).
  - intros fe fs fe' fs' e Hsave. pose proof (save_flag fe fs) as Hflag.
    by rewrite Hsave in Hflag.
  - intros fe fs fe' fs' Hsave. pose proof (save_flag fe fs) as Hflag.
    rewrite Hsave in Hflag. by subst fe'.
  - intros fe pattern replacement global fe' count err Hrun Hchanged.
    unfold searchAndReplace in Hrun.
    destruct (Compile pattern) as [regex|]; [|by injection Hrun as <- _ _].
    destruct (replace_loop _ _ _ _ _) as [ls n] eqn:Hloop.
    injection Hrun as <- <- <-.
    assert (Hn : 0 < n).
    { destruct (decide (0 < n)) as [|Hle]; [done|]. exfalso. apply Hchanged.
      rewrite Z.gtb_ltb. destruct (0 <? n) eqn:Hpos; [lia|]. cbn [lines set_lines].
      destruct global.
      - rewrite replace_loop_global in Hloop. injection Hloop as <- Hcount.
        symmetry. apply altered_zero; [by rewrite length_map|].
        pose proof (altered_nonneg (lines fe)
          (map (λ line, ReplaceAllString regex line replacement) (lines fe))). lia.
      - destruct (existsb (MatchString regex) (lines fe)) eqn:Hany.
        + destruct (replace_loop_first_some regex replacement (lines fe) 0 Hany)
            as (i & line & _ & _ & _ & Hloop').
          rewrite Hloop' in Hloop. injection Hloop as _ Hcount. lia.
        + rewrite replace_loop_first_none in Hloop by done. by injection Hloop as <- _. }
    split; [|done]. rewrite Z.gtb_ltb. by destruct (0 <? n) eqn:Hpos; [|lia].
Qed.

End Flag.

Lemma modified_flag_tracking_witness :
  let s := mkSession (mkFileEditor "notes.txt" ["a"] true) [] (mkFileSystem ∅ 100) in
  (@exec LiteralRegexp cmd_save s).2 = saved ∧
  modified (editor (@exec LiteralRegexp cmd_save s).1) = false ∧
  (@exec LiteralRegexp cmd_save
     (mkSession (mkFileEditor "notes.txt" ["a"] true) [] (mkFileSystem ∅ 1))).2 =
    failed error_flushing_writer.
Proof.
  cbv zeta. split; [reflexivity|]. split; [|reflexivity].
  destruct (@modified_flag_tracking LiteralRegexp) as (Hstep & _).
  rewrite Hstep. reflexivity.
Defined.

(** ** Saving and loading *)

Lemma Flush_ok (w : Writer) :
  werr (Flush w) = false →
  werr w = false ∧ wfile (Flush w) = sent w ∧ wbuf (Flush w) = EmptyString.
Proof.
  unfold Flush, sent. destruct (werr w) eqn:Herr; [by rewrite Herr|].
  destruct (_ <=? _)%nat; cbn; [done|discriminate].
Qed.

Lemma Flush_room (w : Writer) :
  werr (Flush w) = false →
  (String.length (wfile (Flush w)) + wroom (Flush w) = String.length (wfile w) + wroom w)%nat.
Proof.
  unfold Flush. destruct (werr w) eqn:Herr; [done|].
  destruct (Nat.leb_spec (String.length (wbuf w)) (wroom w)); cbn; [|discriminate].
  intros _. rewrite string_length_app. lia.
Qed.

Lemma copy_in_sent (w : Writer) (s : string) : sent (copy_in w s) = sent w +:+ s.
Proof. unfold sent, copy_in. cbn. by rewrite string_app_assoc. Qed.

Lemma write_through_ok (w : Writer) (s : string) :
  wbuf w = EmptyString →
  werr (write_through w s) = false →
  sent (write_through w s) = sent w +:+ s ∧
  (String.length (wfile (write_through w s)) + wroom (write_through w s) =
   String.length (wfile w) + wroom w)%nat.
Proof.
  intros Hbuf. unfold write_through, sent.
  destruct (Nat.leb_spec (String.length s) (wroom w)); cbn; [|discriminate].
  intros _. rewrite Hbuf, !string_app_nil_r, string_length_app. split; [done|lia].
Qed.

(** What [WriteString] does when it returns no error. *)
Lemma WriteString_done (s : string) (w : Writer) :
  werr (WriteString w s) = false →
  werr w = false ∧ sent (WriteString w s) = sent w +:+ s ∧
  (String.length (wfile (WriteString w s)) + wroom (WriteString w s) =
   String.length (wfile w) + wroom w)%nat.
Proof.
  unfold WriteString. destruct (werr w) eqn:Herr; [by rewrite Herr|].
  destruct (Nat.leb_spec (String.length s) (Available w)) as [Hfits|Hlong].
  { intros _. split; [done|]. split; [apply copy_in_sent|done]. }
  destruct (Nat.eqb_spec (String.length (wbuf w)) 0) as [Hempty|Hheld].
  { intros Hok. split; [done|]. by apply write_through_ok; [apply length_zero_empty|]. }
  set (pre := String.substring 0 (Available w) s).
  set (rest := String.substring (Available w) (String.length s - Available w) s).
  assert (Hs : pre +:+ rest = s) by (apply substring_split; lia).
  destruct (werr (Flush (copy_in w pre))) eqn:Hflush;
    [intros Hok; cbv beta iota in Hok; congruence|].
  destruct (Flush_ok _ Hflush) as (_ & Hfile & Hbuf).
  pose proof (Flush_room _ Hflush) as Hroom. cbn [copy_in wfile wroom] in Hroom.
  assert (Hsent : sent (Flush (copy_in w pre)) = sent w +:+ pre).
  { unfold sent at 1. by rewrite Hfile, Hbuf, string_app_nil_r, copy_in_sent. }
  destruct (Nat.leb_spec (String.length rest) (Available (Flush (copy_in w pre)))).
  - intros _. split; [done|]. split; [|done].
    by rewrite copy_in_sent, Hsent, string_app_assoc, Hs.
  - intros Hok. split; [done|]. destruct (write_through_ok _ rest Hbuf Hok) as [-> ->].
    split; [|done]. by rewrite Hsent, string_app_assoc, Hs.
Qed.

Lemma WriteString_ok (s : string) (w : Writer) :
  werr (WriteString w s) = false →
  werr w = false ∧ sent (WriteString w s) = sent w +:+ s.
Proof. intros Hok. by destruct (WriteString_done s w Hok) as (? & ? & _). Qed.

Lemma WriteString_room (s : string) (w : Writer) :
  werr (WriteString w s) = false →
  (String.length (wfile (WriteString w s)) + wroom (WriteString w s) =
   String.length (wfile w) + wroom w)%nat.
Proof. intros Hok. by destruct (WriteString_done s w Hok) as (_ & _ & ?). Qed.

Lemma write_lines_ok (ls : list string) (w w' : Writer) :
  werr w = false →
  write_lines w ls = (w', true) →
  werr w' = false ∧ sent w' = sent w +:+ file_image ls.
Proof.
  revert w. induction ls as [|line rest IH]; intros w Hw; cbn.
  - intros [= <-]. by rewrite string_app_nil_r.
  - destruct (werr (WriteString w (line +:+ String LF EmptyString))) eqn:Hline;
      [discriminate|].
    intros Hrest. destruct (IH _ Hline Hrest) as [Hw' Hsent].
    split; [done|]. rewrite Hsent.
    destruct (WriteString_ok _ _ Hline) as [_ ->].
    by rewrite !string_app_assoc.
Qed.

(** What a successful [os.Create] leaves: an empty file that can be read
    and written, on a device that has the room it had and the bytes the
    file held. *)
Lemma os_Create_ok (fs fs1 : FileSystem) (name : string) :
  os_Create fs name = Some fs1 →
  nodes fs1 !! name = Some (RegularFile EmptyString true true) ∧
  room fs1 = (room fs + held fs name)%nat ∧
  match nodes fs !! name with
  | Some (RegularFile _ r wr) => r = true ∧ wr = true
  | Some Directory => False
  | None => name ≠ EmptyString
  end.
Proof.
  unfold os_Create, held. destruct (nodes fs !! name) as [[data r wr|]|].
  - destruct r, wr; cbn [andb]; try discriminate. intros [= <-]. cbn.
    by rewrite lookup_insert_eq.
  - discriminate.
  - destruct (String.eqb_spec name EmptyString); [discriminate|]. intros [= <-]. cbn.
    rewrite lookup_insert_eq. split; [done|]. split; [lia|done].
Qed.

(** After a successful save the resource holds the image of the lines;
    it is readable if it was created by the save or was readable before. *)
Lemma save_image (fe fe' : FileEditor) (fs fs' : FileSystem) :
  save fe fs = (fe', fs', None) →
  ∃ readable writable,
    nodes fs' !! filename fe = Some (RegularFile (file_image (lines fe)) readable writable) ∧
    readable = match nodes fs !! filename fe with
               | Some (RegularFile _ r _) => r
               | _ => true
               end.
Proof.
  unfold save. destruct (os_Create fs (filename fe)) as [fs1|] eqn:Hcreate; [|discriminate].
  destruct (write_lines (NewWriter (room fs1)) (lines fe)) as [w [|]] eqn:Hwrite;
    [|discriminate].
  destruct (werr (Flush w)) eqn:Hflush; [discriminate|].
  intros [= _ <-].
  destruct (write_lines_ok _ (NewWriter (room fs1)) _ eq_refl Hwrite) as [_ Hsent].
  destruct (Flush_ok _ Hflush) as (_ & Hfile & _).
  rewrite Hsent in Hfile. cbn in Hfile.
  assert (Hnode : ∃ r wr, nodes fs1 !! filename fe = Some (RegularFile EmptyString r wr) ∧
            r = match nodes fs !! filename fe with
                | Some (RegularFile _ r _) => r
                | _ => true
                end).
  { destruct (os_Create_ok _ _ _ Hcreate) as (Hnew & _ & Hold).
    exists true, true. split; [done|].
    destruct (nodes fs !! filename fe) as [[data r wr|]|]; [by destruct Hold as [-> _]|done..]. }
  destruct Hnode as (r & wr & Hnode & Hr).
  exists r, wr. split; [|done].
  unfold close_file. rewrite Hnode. cbn. by rewrite lookup_insert_eq, Hfile.
Qed.

Lemma dropCR_id (s : string) : ends_with CR s = false → dropCR s = s.
Proof.
  induction s as [|c s IH]; [reflexivity|].
  cbn [ends_with dropCR]. destruct s as [|c' s'].
  - by intros ->.
  - intros Hend. by rewrite IH.
Qed.

Lemma map_dropCR_id (ls : list string) :
  Forall (λ line, ends_with CR line = false) ls → map dropCR ls = ls.
Proof.
  induction 1 as [|line rest Hcr _ IH]; [reflexivity|].
  cbn [map]. by rewrite dropCR_id, IH.
Qed.

Lemma scan_one_line (l cur rest : string) :
  has_byte LF l = false →
  Z.of_nat (String.length cur + String.length l) < MaxScanTokenSize →
  scan_lines (l +:+ String LF rest) cur =
    let '(tokens, tooLong) := scan_lines rest EmptyString in
    (dropCR (cur +:+ l) :: tokens, tooLong).
Proof.
  revert cur. induction l as [|c l IH]; intros cur Hlf Hlen.
  - rewrite string_app_nil_l, string_app_nil_r. cbn [scan_lines].
    cbn [String.length] in Hlen.
    destruct (Z.ltb_spec (Z.of_nat (String.length cur)) MaxScanTokenSize); [|lia].
    by rewrite Ascii.eqb_refl.
  - cbn [has_byte] in Hlf. apply orb_false_iff in Hlf as [Hc Hl].
    rewrite string_app_cons. cbn [scan_lines]. cbn [String.length] in Hlen.
    destruct (Z.ltb_spec (Z.of_nat (String.length cur)) MaxScanTokenSize); [|lia].
    rewrite Hc, IH.
    + by rewrite string_app_assoc.
    + done.
    + rewrite string_length_app. cbn [String.length]. lia.
Qed.

Lemma scan_image (ls : list string) :
  Forall (λ line, has_byte LF line = false ∧
                  Z.of_nat (String.length line) < MaxScanTokenSize) ls →
  scan_lines (file_image ls) EmptyString = (map dropCR ls, false).
Proof.
  induction 1 as [|line rest [Hlf Hlen] _ IH]; [reflexivity|].
  cbn [file_image map]. rewrite scan_one_line by (cbn; done || lia).
  by rewrite IH.
Qed.

Lemma load_tokens (tokens : list string) (fe : FileEditor) :
  fold_left (λ fe text, set_lines fe (lines fe ++ [text])) tokens fe =
    set_lines fe (lines fe ++ tokens).
Proof.
  revert fe. induction tokens as [|t tokens IH]; intros fe; cbn [fold_left].
  - destruct fe. unfold set_lines. cbn. by rewrite app_nil_r.
  - rewrite IH. unfold set_lines. cbn. by rewrite <- app_assoc.
Qed.

Lemma copy_in_healthy (w : Writer) (s : string) (k : nat) :
  (String.length s ≤ Available w)%nat →
  healthy w (String.length s + k) → healthy (copy_in w s) k.
Proof.
  unfold Available, healthy, copy_in. intros Hfits (Herr & Hbuf & Hroom). cbn.
  rewrite string_length_app. repeat split; [done|lia|lia].
Qed.

Lemma write_through_healthy (w : Writer) (s : string) (k : nat) :
  wbuf w = EmptyString →
  healthy w (String.length s + k) → healthy (write_through w s) k.
Proof.
  unfold healthy, write_through. intros Hbuf (Herr & _ & Hroom). rewrite Hbuf in *.
  cbn [String.length] in *.
  destruct (Nat.leb_spec (String.length s) (wroom w)); [|lia]. cbn.
  unfold defaultBufSize. repeat split; lia.
Qed.

Lemma WriteString_healthy (s : string) (w : Writer) (k : nat) :
  healthy w (String.length s + k) → healthy (WriteString w s) k.
Proof.
  intros Hw. pose proof Hw as (Herr & Hbuf & Hroom). unfold WriteString. rewrite Herr.
  destruct (Nat.leb_spec (String.length s) (Available w)) as [Hfits|Hlong].
  { by apply copy_in_healthy. }
  destruct (Nat.eqb_spec (String.length (wbuf w)) 0) as [Hempty|Hheld].
  { by apply write_through_healthy; [apply length_zero_empty|]. }
  set (pre := String.substring 0 (Available w) s).
  set (rest := String.substring (Available w) (String.length s - Available w) s).
  assert (Hpre : String.length pre = Available w) by (apply length_substring; lia).
  assert (Hrest : String.length rest = (String.length s - Available w)%nat)
    by (apply length_substring; lia).
  assert (Hflush : healthy (Flush (copy_in w pre)) (String.length rest + k) ∧
                   wbuf (Flush (copy_in w pre)) = EmptyString).
  { unfold Flush, copy_in, healthy. cbn [werr wbuf wroom wfile]. rewrite Herr.
    rewrite string_length_app, Hpre. unfold Available in *.
    destruct (Nat.leb_spec (String.length (wbuf w) + (defaultBufSize - String.length (wbuf w)))
                (wroom w)); [|lia].
    cbn. unfold defaultBufSize in *. repeat split; lia. }
  destruct Hflush as [Hflush Hbuf1]. pose proof Hflush as (-> & _ & _).
  destruct (Nat.leb_spec (String.length rest) (Available (Flush (copy_in w pre)))).
  - by apply copy_in_healthy.
  - by apply write_through_healthy.
Qed.

Lemma write_lines_healthy (ls : list string) (w : Writer) (k : nat) :
  healthy w (String.length (file_image ls) + k) →
  ∃ w', write_lines w ls = (w', true) ∧ healthy w' k.
Proof.
  revert w. induction ls as [|line rest IH]; intros w Hw; cbn [write_lines].
  - by exists w.
  - cbn [file_image] in Hw. rewrite string_length_app in Hw. cbn [String.length] in Hw.
    assert (Hline : healthy (WriteString w (line +:+ String LF EmptyString))
                      (String.length (file_image rest) + k)).
    { apply WriteString_healthy. rewrite string_length_app. cbn [String.length].
      replace (String.length line + 1 + (String.length (file_image rest) + k))%nat
        with (String.length line + S (String.length (file_image rest)) + k)%nat by lia.
      done. }
    destruct Hline as (Herr & Hrest). rewrite Herr. apply IH. by split.
Qed.

(** A save succeeds when the file can be created and the device has room
    for the image of the lines, the bytes the file held counting as room. *)
Lemma save_fits (fe : FileEditor) (fs fs1 : FileSystem) :
  os_Create fs (filename fe) = Some fs1 →
  (String.length (file_image (lines fe)) ≤ room fs + held fs (filename fe))%nat →
  ∃ fs', save fe fs = (set_modified fe false, fs', None).
Proof.
  intros Hcreate Hroom. unfold save. rewrite Hcreate.
  destruct (os_Create_ok _ _ _ Hcreate) as (_ & Hmore & _).
  destruct (write_lines_healthy (lines fe) (NewWriter (room fs1)) 0) as (w & -> & Hw).
  { unfold healthy, NewWriter. cbn. unfold defaultBufSize. repeat split; lia. }
  destruct Hw as (Herr & Hbuf & Hfit).
  assert (Hflush : werr (Flush w) = false).
  { unfold Flush. rewrite Herr.
    by destruct (Nat.leb_spec (String.length (wbuf w)) (wroom w)); [|lia]. }
  rewrite Hflush. by eexists.
Qed.

(** A save succeeds when the file can be created and the device has room
    for the image of the lines. *)
Lemma save_succeeds (fe : FileEditor) (fs fs1 : FileSystem) :
  os_Create fs (filename fe) = Some fs1 →
  (String.length (file_image (lines fe)) ≤ room fs)%nat →
  ∃ fs', save fe fs = (set_modified fe false, fs', None).
Proof. intros Hcreate Hroom. apply (save_fits fe fs fs1 Hcreate). lia. Qed.

Lemma length_repeat_byte c n : String.length (repeat_byte c n) = n.
Proof. induction n as [|n IH]; cbn; [|rewrite IH]; done. Qed.

Lemma has_byte_repeat_byte c d n : Ascii.eqb c d = false → has_byte d (repeat_byte c n) = false.
Proof. intros Hne. induction n as [|n IH]; cbn; [done|]. by rewrite Hne, IH. Qed.

(** A line without newline that does not fit the scanner's buffer stops
    the scan with an error, before any token. *)
Lemma scan_too_long (l cur rest : string) :
  has_byte LF l = false →
  MaxScanTokenSize ≤ Z.of_nat (String.length cur + String.length l) →
  scan_lines (l +:+ String LF rest) cur = ([], true).
Proof.
  revert cur. induction l as [|c l IH]; intros cur Hlf Hlen.
  - rewrite string_app_nil_l. cbn [scan_lines]. cbn [String.length] in Hlen.
    destruct (Z.ltb_spec (Z.of_nat (String.length cur)) MaxScanTokenSize); [lia|done].
  - cbn [has_byte] in Hlf. apply orb_false_iff in Hlf as [Hc Hl].
    rewrite string_app_cons. cbn [scan_lines]. cbn [String.length] in Hlen.
    destruct (Z.ltb_spec (Z.of_nat (String.length cur)) MaxScanTokenSize); [|done].
    rewrite Hc. apply IH; [done|].
    rewrite string_length_app. cbn [String.length]. lia.
Qed.

(** C5, as the code has it.  If no line contains a newline, no line ends
    with a carriage return and every line is shorter than the scanner's
    buffer (65536 bytes), then after a save that returned no error, on a
    resource that was not unreadable before, loading the same resource
    succeeds and yields exactly the saved lines, with a clean flag. *)
Theorem save_then_load (fe fe' : FileEditor) (fs fs' : FileSystem) :
  Forall (λ line, has_byte LF line = false ∧ ends_with CR line = false ∧
                  Z.of_nat (String.length line) < MaxScanTokenSize) (lines fe) →
  (∀ data r w, nodes fs !! filename fe = Some (RegularFile data r w) → r = true) →
  save fe fs = (fe', fs', None) →
  NewFileEditor (filename fe) fs' = (Some (mkFileEditor (filename fe) (lines fe) false), None).
Proof.
  intros Hlines Hreadable Hsave.
  destruct (save_image _ _ _ _ Hsave) as (r & w & Hnode & Hr).
  assert (r = true) as ->.
  { destruct (nodes fs !! filename fe) as [[data r0 w0|]|] eqn:Hold; try done.
    subst r. by apply (Hreadable data r0 w0). }
  unfold NewFileEditor, loadFile. cbn [filename]. rewrite Hnode. cbn [os_Open Scanner].
  rewrite scan_image by (eapply Forall_impl; [exact Hlines|]; cbn; tauto).
  rewrite load_tokens. cbn.
  rewrite map_dropCR_id; [done|].
  eapply Forall_impl; [exact Hlines|]. cbn. tauto.
Qed.

Lemma save_then_load_witness :
  ∃ fe' fs',
    save (mkFileEditor "notes.txt" ["first"; ""; "last"] true) (mkFileSystem ∅ 100) =
      (fe', fs', None) ∧
    NewFileEditor "notes.txt" fs' =
      (Some (mkFileEditor "notes.txt" ["first"; ""; "last"] false), None).
Proof.
  eexists _, _. split; [vm_compute; reflexivity|].
  apply (save_then_load (mkFileEditor "notes.txt" ["first"; ""; "last"] true)
           (mkFileEditor "notes.txt" ["first"; ""; "last"] false) (mkFileSystem ∅ 100)).
  - repeat constructor.
  - intros data r w Hnode. cbn in Hnode. by rewrite lookup_empty in Hnode.
  - vm_compute. reflexivity.
Defined.

(** C5, as stated, fails, in two ways.  The line ["a" CR] contains no
    newline; the save and the load both succeed, and the load returns
    ["a"]: the scanner drops a carriage return that precedes the newline.
    A line of 65536 bytes ["a"] contains no newline either; the save
    succeeds and the load fails: the line does not fit the scanner's
    buffer. *)
Lemma round_trip_fails :
  (let fe := mkFileEditor "notes.txt" [String "a" (String CR EmptyString)] true in
   let fs := mkFileSystem ∅ 100 in
   (∃ fe' fs',
      save fe fs = (fe', fs', None) ∧
      NewFileEditor "notes.txt" fs' = (Some (mkFileEditor "notes.txt" ["a"] false), None)) ∧
   ¬ round_trip fe fs) ∧
  (let line := repeat_byte "a" (Z.to_nat MaxScanTokenSize) in
   let fe := mkFileEditor "notes.txt" [line] true in
   let fs := mkFileSystem ∅ (Z.to_nat 70000) in
   has_byte LF line = false ∧
   (∃ fs',
      save fe fs = (set_modified fe false, fs', None) ∧
      NewFileEditor "notes.txt" fs' =
        (None, Some (failed_to_load_file error_reading_file))) ∧
   ¬ round_trip fe fs).
Proof.
  split.
  { cbv zeta. split.
    - eexists _, _. split; vm_compute; reflexivity.
    - intros Hround.
      destruct (Hround eq_refl _ _ eq_refl) as (loaded & Hloaded & Hlines).
      vm_compute in Hloaded. injection Hloaded as <-. discriminate Hlines. }
  cbv zeta.
  assert (Hmax : ∃ n : nat, Z.of_nat n = MaxScanTokenSize ∧ n = Z.to_nat MaxScanTokenSize).
  { exists (Z.to_nat MaxScanTokenSize). by rewrite Z2Nat.id. }
  destruct Hmax as (n & Hn & <-).
  assert (Hroom : ∃ k : nat, Z.of_nat k = 70000 ∧ k = Z.to_nat 70000).
  { exists (Z.to_nat 70000). by rewrite Z2Nat.id. }
  destruct Hroom as (k & Hk & <-).
  unfold MaxScanTokenSize in Hn.
  set (line := repeat_byte "a" n).
  set (fe := mkFileEditor "notes.txt" [line] true).
  set (fs := mkFileSystem ∅ k).
  assert (Hlf : has_byte LF line = false) by (by apply has_byte_repeat_byte).
  assert (Hlen : String.length line = n) by apply length_repeat_byte.
  assert (Hsave : ∃ fs', save fe fs = (set_modified fe false, fs', None)).
  { eapply save_succeeds; [reflexivity|]. cbn [lines fe file_image room fs].
    rewrite string_length_app. cbn [String.length]. lia. }
  destruct Hsave as [fs' Hsave].
  assert (Hload : NewFileEditor "notes.txt" fs' =
                    (None, Some (failed_to_load_file error_reading_file))).
  { destruct (save_image _ _ _ _ Hsave) as (r & w & Hnode & Hr).
    cbn in Hr. rewrite lookup_empty in Hr. subst r.
    unfold NewFileEditor, loadFile. cbn [filename fe] in *. rewrite Hnode.
    cbn [os_Open Scanner]. change (file_image (lines fe)) with (line +:+ String LF EmptyString).
    rewrite scan_too_long; [done|done|]. cbn [String.length].
    unfold MaxScanTokenSize. lia. }
  split; [done|]. split; [by exists fs'|].
  intros Hround. destruct (Hround) with (fe' := set_modified fe false) (fs' := fs')
    as (loaded & Hloaded & _).
  - cbn. by rewrite Hlf.
  - done.
  - change (filename fe) with "notes.txt" in Hloaded.
    rewrite Hload in Hloaded. discriminate.
Qed.

(** ** Memory *)

Section Heap.
Implicit Types (h : list (list string)) (s c : Mem.Slice) (xs : list string).

Lemma array_lookup h a cs : h !! a = Some cs → Mem.array h a = cs.
Proof. unfold Mem.array. by intros ->. Qed.

Lemma array_beyond h a : (length h ≤ a)%nat → Mem.array h a = [].
Proof. intros Hge. unfold Mem.array. by rewrite lookup_ge_None_2. Qed.

Lemma array_nonempty h a : (0 < length (Mem.array h a))%nat → (a < length h)%nat.
Proof.
  intros Hlen. destruct (decide (a < length h)%nat) as [|Hge]; [done|].
  rewrite array_beyond in Hlen by lia. cbn in Hlen. lia.
Qed.

Lemma array_insert_eq h a cs : (a < length h)%nat → Mem.array (<[a := cs]> h) a = cs.
Proof. intros Hlt. unfold Mem.array. by rewrite list_lookup_insert_eq. Qed.

Lemma array_alloc_old h a cs : (a < length h)%nat → Mem.array (h ++ [cs]) a = Mem.array h a.
Proof. intros Hlt. unfold Mem.array. by rewrite lookup_app_l. Qed.

Lemma array_alloc_new h cs : Mem.array (h ++ [cs]) (length h) = cs.
Proof. unfold Mem.array. by rewrite list_lookup_middle. Qed.

(** *** Footprints *)

Lemma touches_refl a h : touches a h h.
Proof. by split. Qed.

Lemma touches_trans a b h0 h1 h2 :
  touches a h0 h1 → touches b h1 h2 → (b = a ∨ (length h0 ≤ b)%nat) →
  touches a h0 h2.
Proof.
  intros [Hlen1 Hsame1] [Hlen2 Hsame2] Hb. split; [lia|].
  intros x Hx Hxa. rewrite Hsame2, Hsame1; [done..|lia|].
  destruct Hb as [->|]; [done|lia].
Qed.

Lemma touches_alloc a h cs : touches a h (h ++ [cs]).
Proof.
  split; [rewrite length_app; lia|]. intros b Hb _. by rewrite lookup_app_l.
Qed.

Lemma touches_insert a h cs : touches a h (<[a := cs]> h).
Proof.
  split; [by rewrite length_insert|]. intros b _ Hne. by rewrite list_lookup_insert_ne.
Qed.

Lemma touches_array a h h' b :
  touches a h h' → (b < length h)%nat → b ≠ a → Mem.array h' b = Mem.array h b.
Proof. intros [_ Hsame] Hb Hne. unfold Mem.array. by rewrite Hsame. Qed.

(** *** Well-formed slices *)

Lemma valid_allocated h s : valid h s → (0 < Mem.scap s)%nat → (Mem.arr s < length h)%nat.
Proof.
  intros [_ [Hzero|Hfit]] Hcap; [lia|]. apply array_nonempty. lia.
Qed.

Lemma valid_fits h s :
  valid h s → (Mem.off s + Mem.slen s ≤ length (Mem.array h (Mem.arr s)))%nat ∨ Mem.slen s = 0%nat.
Proof. intros [Hlen [Hzero|Hfit]]; [right|left]; lia. Qed.

Lemma length_cells h s : valid h s → length (Mem.cells h s) = Mem.slen s.
Proof.
  intros Hvalid. unfold Mem.cells. rewrite length_take, length_drop.
  destruct (valid_fits h s Hvalid); lia.
Qed.

Lemma cells_lookup h s (i : nat) :
  (i < Mem.slen s)%nat →
  Mem.cells h s !! i = Mem.array h (Mem.arr s) !! (Mem.off s + i)%nat.
Proof.
  intros Hi. unfold Mem.cells. rewrite lookup_take_lt by done. by rewrite lookup_drop.
Qed.

(** A slice that shares no cell with the written array keeps its cells. *)
Lemma cells_frame a h h' c :
  touches a h h' → valid h c → apart c a →
  valid h' c ∧ Mem.cells h' c = Mem.cells h c.
Proof.
  intros Htouch Hvalid Hapart.
  destruct (decide (Mem.scap c = 0%nat)) as [Hzero|Hpos].
  - destruct Hvalid as [Hlen _]. split; [split; [done|by left]|].
    unfold Mem.cells. replace (Mem.slen c) with 0%nat by lia. done.
  - destruct Hapart as [|Hne]; [done|].
    assert (Harr : Mem.array h' (Mem.arr c) = Mem.array h (Mem.arr c)).
    { eapply touches_array; [done| |done]. apply valid_allocated; [done|lia]. }
    split; [|unfold Mem.cells; by rewrite Harr].
    destruct Hvalid as [Hlen Hfit]. split; [done|]. by rewrite Harr.
Qed.

(** *** The primitives *)

Lemma write_block_nil cs pos : Mem.write_block cs pos [] = cs.
Proof. unfold Mem.write_block. cbn. rewrite Nat.add_0_r. apply take_drop. Qed.

Lemma length_write_block cs pos xs :
  (pos + length xs ≤ length cs)%nat → length (Mem.write_block cs pos xs) = length cs.
Proof.
  intros Hfit. unfold Mem.write_block.
  rewrite !length_app, length_take, length_drop. lia.
Qed.

(** Reading a window that ends where a block was written. *)
Lemma window_write_block cs o n xs :
  (o + n + length xs ≤ length cs)%nat →
  take (n + length xs) (drop o (Mem.write_block cs (o + n) xs)) = take n (drop o cs) ++ xs.
Proof.
  intros Hfit. unfold Mem.write_block.
  rewrite drop_app_le by (rewrite length_take; lia).
  rewrite skipn_firstn_comm. replace (o + n - o)%nat with n by lia.
  rewrite take_app_add' by (rewrite length_take, length_drop; lia).
  by rewrite take_app_length.
Qed.

Lemma store_spec a pos xs h :
  Mem.store a pos xs h = Some (tt, <[a := Mem.write_block (Mem.array h a) pos xs]> h).
Proof. reflexivity. Qed.

Lemma store_nil a pos h : Mem.store a pos [] h = Some (tt, h).
Proof.
  unfold Mem.store. rewrite write_block_nil. do 2 f_equal.
  apply list_insert_id'. intros Hlt. unfold Mem.array.
  destruct (lookup_lt_is_Some_2 h a Hlt) as [cs ->]. done.
Qed.

Lemma reslice_spec s lo hi h :
  valid h s → 0 ≤ lo ≤ hi → hi ≤ Z.of_nat (Mem.slen s) →
  ∃ s',
    Mem.reslice s lo hi h = Some (s', h) ∧
    valid h s' ∧
    Mem.arr s' = Mem.arr s ∧
    Mem.slen s' = Z.to_nat (hi - lo) ∧
    Mem.cells h s' = drop (Z.to_nat lo) (take (Z.to_nat hi) (Mem.cells h s)).
Proof.
  intros [Hlen Hfit] Hlo Hhi. unfold Mem.reslice.
  destruct (Z.leb_spec 0 lo); [|lia]. destruct (Z.leb_spec lo hi); [|lia].
  destruct (Z.leb_spec hi (Z.of_nat (Mem.scap s))); [|lia]. cbn [andb].
  eexists. split; [reflexivity|]. cbn [Mem.arr Mem.off Mem.slen Mem.scap].
  split; [|split; [done|split; [done|]]].
  - unfold valid. cbn [Mem.arr Mem.off Mem.slen Mem.scap].
    split; [lia|]. destruct Hfit as [Hzero|Hfit]; [left; lia|right; lia].
  - unfold Mem.cells. cbn [Mem.arr Mem.off Mem.slen Mem.scap].
    rewrite take_take, Nat.min_l by lia.
    rewrite skipn_firstn_comm, drop_drop.
    by replace (Z.to_nat hi - Z.to_nat lo)%nat with (Z.to_nat (hi - lo)) by lia.
Qed.

Lemma literal_spec xs h :
  ∃ s,
    Mem.literal xs h = Some (s, h ++ [xs]) ∧
    valid (h ++ [xs]) s ∧
    Mem.arr s = length h ∧
    Mem.slen s = Mem.scap s ∧
    Mem.cells (h ++ [xs]) s = xs.
Proof.
  eexists. split; [reflexivity|]. cbn [Mem.arr Mem.off Mem.slen Mem.scap].
  split; [|split; [done|split; [done|]]].
  - unfold valid. cbn [Mem.arr Mem.off Mem.slen Mem.scap].
    split; [done|right]. by rewrite array_alloc_new.
  - unfold Mem.cells. cbn [Mem.arr Mem.off Mem.slen Mem.scap].
    rewrite array_alloc_new, drop_0. apply firstn_all.
Qed.

Context `{Runtime}.

Lemma append_values_spec s xs h :
  valid h s →
  ∃ r h',
    Mem.append_values s xs h = Some (r, h') ∧
    valid h' r ∧
    Mem.cells h' r = Mem.cells h s ++ xs ∧
    touches (Mem.arr s) h h' ∧
    (Mem.arr r = Mem.arr s ∨ (length h ≤ Mem.arr r)%nat) ∧
    (Mem.slen s = Mem.scap s → touches (length h) h h').
Proof.
  intros Hvalid. unfold Mem.append_values.
  destruct (Nat.leb_spec (Mem.slen s + length xs) (Mem.scap s)) as [Hroom|Hfull].
  - unfold Mem.bind. rewrite store_spec. eexists _, _. split; [reflexivity|].
    destruct xs as [|x xs'].
    + rewrite write_block_nil, list_insert_id'.
      2:{ intros Hlt. unfold Mem.array. by destruct (lookup_lt_is_Some_2 h _ Hlt) as [cs ->]. }
      cbn [length]. rewrite Nat.add_0_r, app_nil_r. destruct s as [a o n c].
      repeat split; try done; try apply Hvalid. by left.
    + set (xs := x :: xs') in *.
      assert (Hcap : (0 < Mem.scap s)%nat) by (cbn in Hroom; lia).
      pose proof (valid_allocated h s Hvalid Hcap) as Halloc.
      destruct Hvalid as [Hlen [Hzero|Hfit]]; [lia|].
      split; [|split; [|split; [apply touches_insert|split; [by left|]]]].
      * unfold valid. cbn [Mem.arr Mem.off Mem.slen Mem.scap].
        split; [done|right].
        rewrite array_insert_eq by done. rewrite length_write_block; lia.
      * unfold Mem.cells at 1. cbn [Mem.arr Mem.off Mem.slen Mem.scap].
        rewrite array_insert_eq by done. rewrite window_write_block by lia. done.
      * intros Hfullcap. subst xs. cbn [length] in Hroom. lia.
  - unfold Mem.bind, Mem.alloc, Mem.ret. eexists _, _. split; [reflexivity|].
    set (n := (Mem.slen s + length xs)%nat).
    set (c := Nat.max n (growcap (Mem.scap s) n)).
    pose proof (length_cells h s Hvalid) as Hcells.
    split; [|split; [|split; [apply touches_alloc|split; [by right|]]]].
    + unfold valid. cbn [Mem.arr Mem.off Mem.slen Mem.scap]. split; [lia|right].
      rewrite array_alloc_new, !length_app, length_replicate. lia.
    + unfold Mem.cells at 1. cbn [Mem.arr Mem.off Mem.slen Mem.scap].
      rewrite array_alloc_new, drop_0, app_assoc.
      rewrite take_app_length'; [done|]. rewrite length_app. lia.
    + intros _. apply touches_alloc.
Qed.

Lemma append_spec s t h :
  valid h s →
  ∃ r h',
    Mem.append s t h = Some (r, h') ∧
    valid h' r ∧
    Mem.cells h' r = Mem.cells h s ++ Mem.cells h t ∧
    touches (Mem.arr s) h h' ∧
    (Mem.arr r = Mem.arr s ∨ (length h ≤ Mem.arr r)%nat) ∧
    (Mem.slen s = Mem.scap s → touches (length h) h h').
Proof. intros Hvalid. unfold Mem.append. by apply append_values_spec. Qed.


(** *** Heaps that only grew *)

Lemma touches_fresh a h h' : touches (length h) h h' → touches a h h'.
Proof. intros [Hlen Hsame]. split; [done|]. intros b Hb _. apply Hsame; lia. Qed.

Lemma fresh_trans h0 h1 h2 :
  touches (length h0) h0 h1 → touches (length h1) h1 h2 → touches (length h0) h0 h2.
Proof.
  intros H01 H12. eapply touches_trans; [exact H01|exact H12|].
  right. destruct H01. lia.
Qed.

Lemma fresh_then_touches a h0 h1 h2 :
  touches (length h0) h0 h1 → touches a h1 h2 → touches a h0 h2.
Proof.
  intros H01 H12. eapply touches_trans; [apply touches_fresh, H01|exact H12|by left].
Qed.

Lemma valid_apart_fresh h c : valid h c → apart c (length h).
Proof.
  intros Hvalid. destruct (decide (Mem.scap c = 0%nat)) as [|Hpos]; [by left|right].
  pose proof (valid_allocated h c Hvalid). lia.
Qed.

Lemma frame_fresh h h' c :
  touches (length h) h h' → valid h c →
  valid h' c ∧ Mem.cells h' c = Mem.cells h c.
Proof.
  intros Htouch Hvalid. eapply cells_frame; [done..|]. by apply valid_apart_fresh.
Qed.

(** *** The methods *)

Lemma len_view h (fe : Mem.FileEditor) :
  valid h (Mem.lines fe) → len (lines (view h fe)) = Mem.length_of (Mem.lines fe).
Proof. intros Hvalid. unfold len, Mem.length_of. cbn. by rewrite length_cells. Qed.

Lemma take_whole h s :
  valid h s → take (Z.to_nat (Z.of_nat (Mem.slen s))) (Mem.cells h s) = Mem.cells h s.
Proof.
  intros Hvalid. rewrite Nat2Z.id. apply firstn_all2. by rewrite length_cells.
Qed.

Lemma simulates_unchanged {A} h (fe : Mem.FileEditor) (a : A) :
  valid h (Mem.lines fe) →
  simulates h fe (Some ((fe, a), h)) (view h fe, a).
Proof.
  intros Hvalid. exists fe, a, h. repeat split; try done; try apply Hvalid. by left.
Qed.

Lemma insertLine_simulates h (fe : Mem.FileEditor) lineNum text :
  valid h (Mem.lines fe) →
  simulates h fe (Mem.insertLine fe lineNum text h) (insertLine (view h fe) lineNum text).
Proof.
  intros Hvalid. unfold Mem.insertLine, insertLine. rewrite len_view by done.
  destruct (_ || _) eqn:Hguard; [by apply simulates_unchanged|].
  apply insert_guard in Hguard. unfold Mem.length_of in *.
  destruct (reslice_spec (Mem.lines fe) 0 (lineNum - 1) h)
    as (front & Hfront & Hvfront & Hafront & _ & Hcfront); [done|lia|lia|].
  destruct (literal_spec [text] h) as (one & Hone & Hvone & Haone & Hfullone & Hcone).
  set (h1 := h ++ [[text]]) in *.
  assert (Hh1 : touches (length h) h h1) by apply touches_alloc.
  destruct (frame_fresh h h1 _ Hh1 Hvalid) as [Hvalid1 Hcells1].
  destruct (reslice_spec (Mem.lines fe) (lineNum - 1) (Z.of_nat (Mem.slen (Mem.lines fe))) h1)
    as (back & Hback & Hvback & _ & _ & Hcback); [done|lia|lia|].
  destruct (append_spec one back h1 Hvone)
    as (inner & h2 & Hinner & Hvinner & Hcinner & _ & _ & Hh2).
  specialize (Hh2 Hfullone).
  pose proof (fresh_trans _ _ _ Hh1 Hh2) as Hh02.
  destruct (frame_fresh h h2 _ Hh02 Hvfront) as [Hvfront2 Hcfront2].
  destruct (append_spec front inner h2 Hvfront2)
    as (ls & h3 & Hls & Hvls & Hcls & Hh3 & Harr & _).
  unfold Mem.bind. rewrite Hfront, Hone, Hback, Hinner, Hls. cbn.
  eexists _, _, _. split; [reflexivity|].
  split; [|split; [exact Hvls|split]].
  - unfold view. cbn. f_equal.
    rewrite Hcls, Hcfront2, Hcfront, Hcinner, Hcone, Hcback, Hcells1.
    by rewrite take_whole.
  - rewrite Hafront in Hh3. by eapply fresh_then_touches.
  - cbn. rewrite Hafront in Harr. destruct Harr as [|Hnew]; [by left|right].
    destruct Hh02. lia.
Qed.


Lemma deleteLine_simulates h (fe : Mem.FileEditor) lineNum :
  valid h (Mem.lines fe) →
  simulates h fe (Mem.deleteLine fe lineNum h) (deleteLine (view h fe) lineNum).
Proof.
  intros Hvalid. unfold Mem.deleteLine, deleteLine. rewrite len_view by done.
  destruct (_ || _) eqn:Hguard; [by apply simulates_unchanged|].
  apply line_guard in Hguard. unfold Mem.length_of in *.
  destruct (reslice_spec (Mem.lines fe) 0 (lineNum - 1) h)
    as (front & Hfront & Hvfront & Hafront & _ & Hcfront); [done|lia|lia|].
  destruct (reslice_spec (Mem.lines fe) (lineNum - 1 + 1) (Z.of_nat (Mem.slen (Mem.lines fe))) h)
    as (back & Hback & Hvback & _ & _ & Hcback); [done|lia|lia|].
  destruct (append_spec front back h Hvfront)
    as (ls & h1 & Hls & Hvls & Hcls & Hh1 & Harr & _).
  unfold Mem.bind. rewrite Hfront, Hback, Hls. cbn.
  eexists _, _, _. split; [reflexivity|].
  split; [|split; [exact Hvls|split]].
  - unfold view. cbn. f_equal.
    rewrite Hcls, Hcfront, Hcback, take_whole by done.
    by replace (Z.to_nat (lineNum - 1 + 1)) with (Z.to_nat (lineNum - 1) + 1)%nat by lia.
  - by rewrite Hafront in Hh1.
  - cbn. by rewrite Hafront in Harr.
Qed.

Lemma get_spec s (i : nat) v h :
  (i < Mem.slen s)%nat → Mem.cells h s !! i = Some v →
  Mem.get s (Z.of_nat i) h = Some (v, h).
Proof.
  intros Hi Hv. unfold Mem.get.
  destruct (Z.leb_spec 0 (Z.of_nat i)); [|lia].
  destruct (Z.ltb_spec (Z.of_nat i) (Z.of_nat (Mem.slen s))); [|lia]. cbn [andb].
  rewrite cells_lookup in Hv by done. by rewrite Nat2Z.id, Hv.
Qed.

Lemma set_spec s (i : nat) v h :
  valid h s → (i < Mem.slen s)%nat →
  ∃ h',
    Mem.set s (Z.of_nat i) v h = Some (tt, h') ∧
    valid h' s ∧
    Mem.cells h' s = <[i := v]> (Mem.cells h s) ∧
    touches (Mem.arr s) h h'.
Proof.
  intros Hvalid Hi. unfold Mem.set.
  destruct (Z.leb_spec 0 (Z.of_nat i)); [|lia].
  destruct (Z.ltb_spec (Z.of_nat i) (Z.of_nat (Mem.slen s))); [|lia]. cbn [andb].
  rewrite store_spec, Nat2Z.id. eexists. split; [reflexivity|].
  assert (Hcap : (0 < Mem.scap s)%nat) by (destruct Hvalid; lia).
  pose proof (valid_allocated h s Hvalid Hcap) as Halloc.
  destruct Hvalid as [Hlen [Hzero|Hfit]]; [lia|].
  assert (Hblock : Mem.write_block (Mem.array h (Mem.arr s)) (Mem.off s + i) [v] =
                   <[(Mem.off s + i)%nat := v]> (Mem.array h (Mem.arr s))).
  { unfold Mem.write_block. rewrite insert_take_drop by lia. cbn.
    by replace (Mem.off s + i + 1)%nat with (S (Mem.off s + i)) by lia. }
  rewrite Hblock. split; [|split; [|apply touches_insert]].
  - split; [done|right]. rewrite array_insert_eq by done. by rewrite length_insert.
  - unfold Mem.cells. rewrite array_insert_eq by done.
    rewrite drop_insert_ge by lia. rewrite take_insert_lt by lia.
    by replace (Mem.off s + i - Mem.off s)%nat with i by lia.
Qed.

Lemma replaceLine_simulates h (fe : Mem.FileEditor) lineNum text :
  valid h (Mem.lines fe) →
  simulates h fe (Mem.replaceLine fe lineNum text h) (replaceLine (view h fe) lineNum text).
Proof.
  intros Hvalid. unfold Mem.replaceLine, replaceLine. rewrite len_view by done.
  destruct (_ || _) eqn:Hguard; [by apply simulates_unchanged|].
  apply line_guard in Hguard. unfold Mem.length_of in *.
  destruct (set_spec (Mem.lines fe) (Z.to_nat (lineNum - 1)) text h)
    as (h1 & Hset & Hvalid1 & Hcells & Hh1); [done|lia|].
  rewrite Z2Nat.id in Hset by lia.
  unfold Mem.bind. rewrite Hset. cbn.
  eexists _, _, _. split; [reflexivity|].
  split; [|split; [exact Hvalid1|split; [done|by left]]].
  unfold view. cbn. by rewrite Hcells.
Qed.

Lemma appendLine_simulates h (fe : Mem.FileEditor) text :
  valid h (Mem.lines fe) →
  simulates h fe
    (match Mem.appendLine fe text h with
     | Some (fe', h') => Some ((fe', tt), h')
     | None => None
     end)
    (appendLine (view h fe) text, tt).
Proof.
  intros Hvalid. unfold Mem.appendLine, appendLine.
  destruct (append_values_spec (Mem.lines fe) [text] h Hvalid)
    as (ls & h1 & Hls & Hvls & Hcls & Hh1 & Harr & _).
  unfold Mem.bind. rewrite Hls. cbn.
  eexists _, _, _. split; [reflexivity|].
  split; [|split; [exact Hvls|split; done]].
  unfold view. cbn. by rewrite Hcls.
Qed.

Lemma pasteLines_simulates h (fe : Mem.FileEditor) lineNum block :
  valid h (Mem.lines fe) → valid h block → Mem.slen block = Mem.scap block →
  simulates h fe (Mem.pasteLines fe lineNum block h)
    (pasteLines (view h fe) lineNum (Mem.cells h block)).
Proof.
  intros Hvalid Hvblock Hfull. unfold Mem.pasteLines, pasteLines.
  rewrite len_view by done.
  destruct (_ || _) eqn:Hguard; [by apply simulates_unchanged|].
  apply insert_guard in Hguard. unfold Mem.length_of in *.
  destruct (reslice_spec (Mem.lines fe) 0 (lineNum - 1) h)
    as (front & Hfront & Hvfront & Hafront & _ & Hcfront); [done|lia|lia|].
  destruct (reslice_spec (Mem.lines fe) (lineNum - 1) (Z.of_nat (Mem.slen (Mem.lines fe))) h)
    as (back & Hback & Hvback & _ & _ & Hcback); [done|lia|lia|].
  destruct (append_spec block back h Hvblock)
    as (inner & h1 & Hinner & Hvinner & Hcinner & _ & _ & Hh1).
  specialize (Hh1 Hfull).
  destruct (frame_fresh h h1 _ Hh1 Hvfront) as [Hvfront1 Hcfront1].
  destruct (append_spec front inner h1 Hvfront1)
    as (ls & h2 & Hls & Hvls & Hcls & Hh2 & Harr & _).
  unfold Mem.bind. rewrite Hfront, Hback, Hinner, Hls. cbn.
  eexists _, _, _. split; [reflexivity|].
  split; [|split; [exact Hvls|split]].
  - unfold view. cbn. f_equal.
    rewrite Hcls, Hcfront1, Hcfront, Hcinner, Hcback.
    by rewrite take_whole.
  - rewrite Hafront in Hh2. by eapply fresh_then_touches.
  - cbn. rewrite Hafront in Harr. destruct Harr as [|Hnew]; [by left|right].
    destruct Hh1. lia.
Qed.

(** [copyLines] leaves the heap it found untouched and returns a slice
    in a new array, full to its capacity, that holds the lines of the
    range; on an invalid range it returns [nil] and allocates nothing. *)
Lemma copyLines_spec h (fe : Mem.FileEditor) start end_ :
  valid h (Mem.lines fe) →
  ∃ copied err h',
    Mem.copyLines fe start end_ h = Some ((fe, (copied, err)), h') ∧
    copyLines (view h fe) start end_ = (view h fe, (Mem.cells h' copied, err)) ∧
    valid h' copied ∧
    Mem.slen copied = Mem.scap copied ∧
    touches (length h) h h' ∧
    match err with
    | None => Mem.arr copied = length h ∧
              1 ≤ start ∧ start ≤ end_ ∧ end_ ≤ Mem.length_of (Mem.lines fe)
    | Some e => e = invalid_line_range start end_ ∧ copied = Mem.nil ∧ h' = h
    end.
Proof.
  intros Hvalid. unfold Mem.copyLines, copyLines. rewrite len_view by done.
  destruct (_ || _) eqn:Hguard.
  - exists Mem.nil, (Some (invalid_line_range start end_)), h.
    split; [reflexivity|]. split; [reflexivity|].
    split; [by split; [|left]|]. split; [done|]. split; [apply touches_refl|done].
  - apply range_guard in Hguard. unfold Mem.length_of in *.
    set (k := Z.to_nat (end_ - start + 1)).
    set (h1 := h ++ [replicate k EmptyString]).
    set (copied := Mem.mkSlice (length h) 0 k k).
    assert (Hmake : Mem.make (end_ - start + 1) h = Some (copied, h1)).
    { unfold Mem.make. by destruct (Z.ltb_spec (end_ - start + 1) 0); [lia|]. }
    assert (Hh1 : touches (length h) h h1) by apply touches_alloc.
    destruct (frame_fresh h h1 _ Hh1 Hvalid) as [Hvalid1 Hcells1].
    destruct (reslice_spec (Mem.lines fe) (start - 1) end_ h1)
      as (window & Hwindow & Hvwindow & _ & Hlwindow & Hcwindow); [done|lia|lia|].
    pose proof (length_cells h1 window Hvwindow) as Hlen.
    replace (Z.to_nat (end_ - (start - 1))) with k in Hlwindow by lia.
    rewrite Hlwindow in Hlen.
    set (h2 := <[length h := Mem.write_block (Mem.array h1 (length h)) 0
                                (take k (Mem.cells h1 window))]> h1).
    assert (Hcopy : Mem.copy copied window h1 = Some (k, h2)).
    { unfold Mem.copy, Mem.bind. rewrite store_spec. cbn [Mem.slen Mem.arr Mem.off copied].
      by rewrite Hlwindow, Nat.min_id. }
    assert (Harray : Mem.array h2 (length h) = Mem.cells h1 window).
    { subst h2. rewrite array_insert_eq by (subst h1; rewrite length_app; cbn; lia).
      subst h1. rewrite array_alloc_new. unfold Mem.write_block.
      rewrite (firstn_all2 (Mem.cells _ window)) by lia. cbn [take app].
      rewrite drop_ge by (rewrite length_replicate; lia). apply app_nil_r. }
    unfold Mem.bind. rewrite Hmake, Hwindow, Hcopy. cbn.
    exists copied, None, h2. split; [reflexivity|].
    assert (Hccopied : Mem.cells h2 copied = Mem.cells h1 window).
    { unfold Mem.cells at 1. cbn [Mem.slen Mem.arr Mem.off copied].
      rewrite Harray, drop_0. apply firstn_all2. lia. }
    split; [|split; [|split; [done|split]]].
    + rewrite Hccopied, Hcwindow, Hcells1. f_equal. f_equal. f_equal.
      rewrite Hcwindow, Hcells1 in Hlen.
      rewrite length_replicate, Hlen.
      rewrite firstn_all2 by lia.
      rewrite (drop_ge (replicate k _)) by (rewrite length_replicate; lia).
      apply app_nil_r.
    + unfold valid. cbn [Mem.slen Mem.scap Mem.arr Mem.off copied].
      split; [done|right]. rewrite Harray. lia.
    + eapply touches_trans; [exact Hh1|apply touches_insert|by left].
    + repeat split; try done; lia.
Qed.


Context `{Regexp}.

Lemma touches_same a h0 h1 h2 : touches a h0 h1 → touches a h1 h2 → touches a h0 h2.
Proof. intros H01 H12. eapply touches_trans; [done..|by left]. Qed.

Lemma replace_loop_simulates regex replacement global s (todo : nat) :
  ∀ (i : nat) h count,
    valid h s → (i + todo = Mem.slen s)%nat →
    ∃ count' h' ls',
      Mem.replace_loop regex replacement global s (Z.of_nat i) todo count h =
        Some (count', h') ∧
      valid h' s ∧
      touches (Mem.arr s) h h' ∧
      replace_loop regex replacement global (drop i (Mem.cells h s)) count = (ls', count') ∧
      Mem.cells h' s = take i (Mem.cells h s) ++ ls'.
Proof.
  induction todo as [|todo IH]; intros i h count Hvalid Hi.
  - exists count, h, []. cbn [Mem.replace_loop].
    split; [done|]. split; [done|]. split; [apply touches_refl|].
    pose proof (length_cells h s Hvalid) as Hlen.
    rewrite drop_ge, firstn_all2, app_nil_r by lia. done.
  - pose proof (length_cells h s Hvalid) as Hlen.
    destruct (lookup_lt_is_Some_2 (Mem.cells h s) i) as [line Hline]; [lia|].
    cbn [Mem.replace_loop]. unfold Mem.bind at 1.
    rewrite (get_spec s i line h) by (done || lia).
    rewrite (drop_S _ _ _ Hline). cbn [replace_loop].
    assert (Hnext : Z.of_nat i + 1 = Z.of_nat (S i)) by lia.
    assert (Hstay : ∃ count' h' ls',
              Mem.replace_loop regex replacement global s (Z.of_nat i + 1) todo count h =
                Some (count', h') ∧
              valid h' s ∧ touches (Mem.arr s) h h' ∧
              (let '(rest', count'0) :=
                 replace_loop regex replacement global (drop (S i) (Mem.cells h s)) count in
               (line :: rest', count'0)) = (ls', count') ∧
              Mem.cells h' s = take i (Mem.cells h s) ++ ls').
    { rewrite Hnext.
      destruct (IH (S i) h count Hvalid) as (count' & h' & ls' & Hrun & Hv & Ht & Hval & Hc);
        [lia|].
      exists count', h', (line :: ls'). rewrite Hval.
      split; [done|]. split; [done|]. split; [done|]. split; [done|].
      rewrite Hc. rewrite (take_S_r _ _ _ Hline). by rewrite <- app_assoc. }
    assert (Hwrite : ∀ v count1, ∃ count' h' ls',
              (Mem.bind (Mem.set s (Z.of_nat i) v)
                 (λ _, Mem.replace_loop regex replacement global s (Z.of_nat i + 1) todo count1)) h =
                Some (count', h') ∧
              valid h' s ∧ touches (Mem.arr s) h h' ∧
              (let '(rest', count'0) :=
                 replace_loop regex replacement global (drop (S i) (Mem.cells h s)) count1 in
               (v :: rest', count'0)) = (ls', count') ∧
              Mem.cells h' s = take i (Mem.cells h s) ++ ls').
    { intros v count1.
      destruct (set_spec s i v h Hvalid) as (h1 & Hset & Hvalid1 & Hcells1 & Hh1); [lia|].
      unfold Mem.bind. rewrite Hset, Hnext.
      destruct (IH (S i) h1 count1 Hvalid1) as (count' & h' & ls' & Hrun & Hv & Ht & Hval & Hc);
        [lia|].
      exists count', h', (v :: ls').
      rewrite Hcells1, drop_insert_lt in Hval by lia. rewrite Hval.
      split; [done|]. split; [done|]. split; [by eapply touches_same|]. split; [done|].
      rewrite Hc, Hcells1. rewrite (take_S_r _ i v).
      - rewrite take_insert_ge by lia. by rewrite <- app_assoc.
      - apply list_lookup_insert_eq. lia. }
    destruct global.
    + destruct (negb _); [apply Hwrite | apply Hstay].
    + destruct (MatchString regex line); [|apply Hstay].
      destruct (set_spec s i (ReplaceAllString regex line replacement) h Hvalid)
        as (h1 & Hset & Hvalid1 & Hcells1 & Hh1); [lia|].
      unfold Mem.bind. rewrite Hset. cbn.
      eexists _, _, _. split; [reflexivity|]. split; [done|]. split; [done|].
      split; [reflexivity|].
      rewrite Hcells1. rewrite insert_take_drop by lia. done.
Qed.

Lemma searchAndReplace_simulates h (fe : Mem.FileEditor) pattern replacement global :
  valid h (Mem.lines fe) →
  simulates h fe (Mem.searchAndReplace fe pattern replacement global h)
    (searchAndReplace (view h fe) pattern replacement global).
Proof.
  intros Hvalid. unfold Mem.searchAndReplace, searchAndReplace.
  destruct (Compile pattern) as [regex|]; [|by apply simulates_unchanged].
  destruct (replace_loop_simulates regex replacement global (Mem.lines fe)
              (Mem.slen (Mem.lines fe)) 0 h 0 Hvalid)
    as (count & h' & ls & Hrun & Hvalid' & Hh' & Hval & Hcells); [lia|].
  change (Z.of_nat 0) with 0 in Hrun. unfold Mem.bind. rewrite Hrun.
  rewrite drop_0 in Hval. cbn [lines view]. rewrite Hval.
  rewrite take_0, app_nil_l in Hcells.
  eexists _, _, _. split; [reflexivity|].
  split; [|split; [|split; [done|]]]; destruct (count >? 0); cbn; try done;
    try (by left); unfold view; cbn; by rewrite Hcells.
Qed.

Lemma search_loop_simulates regex s (todo : nat) :
  ∀ (i : nat) h matches,
    valid h s → (i + todo = Mem.slen s)%nat →
    Mem.search_loop regex s (Z.of_nat i) todo matches h =
      Some (search_loop regex (drop i (Mem.cells h s)) (Z.of_nat i) matches, h).
Proof.
  induction todo as [|todo IH]; intros i h matches Hvalid Hi.
  - pose proof (length_cells h s Hvalid) as Hlen.
    cbn [Mem.search_loop]. by rewrite drop_ge by lia.
  - pose proof (length_cells h s Hvalid) as Hlen.
    destruct (lookup_lt_is_Some_2 (Mem.cells h s) i) as [line Hline]; [lia|].
    cbn [Mem.search_loop]. unfold Mem.bind at 1.
    rewrite (get_spec s i line h) by (done || lia).
    rewrite (drop_S _ _ _ Hline). cbn [search_loop].
    replace (Z.of_nat i + 1) with (Z.of_nat (S i)) by lia.
    destruct (MatchString regex line); apply IH; (done || lia).
Qed.

Lemma search_simulates h (fe : Mem.FileEditor) pattern :
  valid h (Mem.lines fe) →
  simulates h fe (Mem.search fe pattern h) (search (view h fe) pattern).
Proof.
  intros Hvalid. unfold Mem.search, search.
  destruct (Compile pattern) as [regex|]; [|by apply simulates_unchanged].
  pose proof (search_loop_simulates regex (Mem.lines fe) (Mem.slen (Mem.lines fe))
                0 h [] Hvalid) as Hrun.
  change (Z.of_nat 0) with 0 in Hrun. rewrite drop_0 in Hrun.
  unfold Mem.bind. rewrite Hrun by lia. cbn. by apply simulates_unchanged.
Qed.

Lemma save_simulates h (fe : Mem.FileEditor) fs :
  ∃ fe' fs' err,
    Mem.save fe fs h = Some ((fe', fs', err), h) ∧
    save (view h fe) fs = (view h fe', fs', err) ∧
    Mem.lines fe' = Mem.lines fe.
Proof.
  unfold Mem.save, save. cbn [filename lines view].
  destruct (os_Create fs (Mem.filename fe)) as [fs1|]; [|by eexists _, _, _].
  destruct (write_lines _ _) as [w [|]]; [|by eexists _, _, _].
  destruct (werr (Flush w)); by eexists _, _, _.
Qed.


(** *** The command loop *)

Lemma protects_refl h (s : Mem.Session) : protects h s h s.
Proof. by intros c Hvalid Hapart. Qed.

Lemma protects_trans h0 (s0 : Mem.Session) h1 (s1 : Mem.Session) h2 (s2 : Mem.Session) :
  protects h0 s0 h1 s1 → protects h1 s1 h2 s2 → protects h0 s0 h2 s2.
Proof.
  intros H01 H12 c Hvalid Hapart.
  destruct (H01 c Hvalid Hapart) as (Hvalid1 & Hapart1 & Hcells1).
  destruct (H12 c Hvalid1 Hapart1) as (Hvalid2 & Hapart2 & Hcells2).
  by rewrite Hcells2.
Qed.

Lemma method_step {A} h (s : Mem.Session) call (expected : FileEditor * A) :
  session_ok h s →
  simulates h (Mem.editor s) call expected →
  ∃ fe' a h',
    call = Some ((fe', a), h') ∧
    expected = (view h' fe', a) ∧
    Mem.cells h' (Mem.clipboard s) = Mem.cells h (Mem.clipboard s) ∧
    session_ok h' (Mem.mkSession fe' (Mem.clipboard s) (Mem.disk s)) ∧
    protects h s h' (Mem.mkSession fe' (Mem.clipboard s) (Mem.disk s)).
Proof.
  intros (Hvlines & Hvclip & Hfull & Hapart) (fe' & a & h' & Hcall & Hexp & Hvalid' & Htouch & Harr).
  exists fe', a, h'. split; [done|]. split; [done|].
  assert (Hprot : protects h s h' (Mem.mkSession fe' (Mem.clipboard s) (Mem.disk s))).
  { intros c Hvc Hac. destruct (cells_frame _ _ _ _ Htouch Hvc Hac) as [Hvc' Hcc'].
    split; [done|]. split; [|done]. cbn.
    destruct Harr as [->|Hnew]; [done|].
    destruct (decide (Mem.scap c = 0%nat)) as [|Hpos]; [by left|right].
    pose proof (valid_allocated h c Hvc). lia. }
  destruct (Hprot _ Hvclip Hapart) as (Hvclip' & Hapart' & Hcclip).
  split; [done|]. split; [|done]. unfold session_ok. cbn in *. done.
Qed.

(** The end of each case of a method call: the session after the call
    stands for the value-level one, the clipboard's cells being kept. *)
Ltac method_done Hclip :=
  eexists _, _, _; split; [reflexivity|];
  unfold view_session; cbn; rewrite Hclip.

Lemma exec_simulates (c : Command) h (s : Mem.Session) :
  session_ok h s →
  ∃ (s' : Mem.Session) r h',
    Mem.exec c s h = Some ((s', r), h') ∧
    exec c (view_session h s) = (view_session h' s', r) ∧
    session_ok h' s' ∧
    protects h s h' s'.
Proof.
  intros Hok. pose proof Hok as (Hvlines & Hvclip & Hfull & Hapart).
  destruct c; cbn [Mem.exec exec]; unfold Mem.bind; cbn [editor clipboard disk view_session].
  - destruct (method_step h s _ _ Hok (insertLine_simulates h _ lineNum text Hvlines))
      as (fe' & err & h' & -> & -> & Hclip & Hok' & Hprot).
    eexists _, _, _. split; [reflexivity|]. unfold view_session. cbn. by rewrite Hclip.
  - destruct (method_step h s _ _ Hok (deleteLine_simulates h _ lineNum Hvlines))
      as (fe' & err & h' & -> & -> & Hclip & Hok' & Hprot).
    eexists _, _, _. split; [reflexivity|]. unfold view_session. cbn. by rewrite Hclip.
  - destruct (method_step h s _ _ Hok (replaceLine_simulates h _ lineNum text Hvlines))
      as (fe' & err & h' & -> & -> & Hclip & Hok' & Hprot).
    eexists _, _, _. split; [reflexivity|]. unfold view_session. cbn. by rewrite Hclip.
  - destruct (method_step h s _ _ Hok (appendLine_simulates h _ text Hvlines))
      as (fe' & [] & h' & Hcall & Hexp & Hclip & Hok' & Hprot).
    destruct (Mem.appendLine _ _ _) as [[fe1 h1]|]; [|discriminate].
    injection Hcall as -> ->.
    apply (f_equal fst) in Hexp. cbn [fst] in Hexp. rewrite Hexp.
    eexists _, _, _. split; [reflexivity|]. unfold view_session. cbn. by rewrite Hclip.
  - destruct (method_step h s _ _ Hok (search_simulates h _ pattern Hvlines))
      as (fe' & [matches err] & h' & -> & -> & Hclip & Hok' & Hprot).
    eexists _, _, _. split; [reflexivity|]. unfold view_session. cbn. by rewrite Hclip.
  - destruct (method_step h s _ _ Hok
                (searchAndReplace_simulates h _ pattern replacement false Hvlines))
      as (fe' & [count err] & h' & -> & -> & Hclip & Hok' & Hprot).
    eexists _, _, _. split; [reflexivity|]. unfold view_session. cbn. by rewrite Hclip.
  - destruct (method_step h s _ _ Hok
                (searchAndReplace_simulates h _ pattern replacement true Hvlines))
      as (fe' & [count err] & h' & -> & -> & Hclip & Hok' & Hprot).
    eexists _, _, _. split; [reflexivity|]. unfold view_session. cbn. by rewrite Hclip.
  - destruct (copyLines_spec h (Mem.editor s) start end_ Hvlines)
      as (copied & err & h' & -> & -> & Hvcopied & Hfullc & Hfresh & Herr).
    destruct (frame_fresh h h' _ Hfresh Hvlines) as [Hvlines' Hclines'].
    destruct (frame_fresh h h' _ Hfresh Hvclip) as [Hvclip' Hcclip'].
    assert (Hprot : ∀ s' : Mem.Session,
              Mem.editor s' = Mem.editor s → protects h s h' s').
    { intros s' Hs' c Hvc Hac. rewrite Hs'.
      destruct (frame_fresh h h' _ Hfresh Hvc) as [Hvc' Hcc']. done. }
    destruct err as [e|].
    + eexists _, _, _. split; [reflexivity|]. unfold view_session, view. cbn.
      rewrite Hclines', Hcclip'. split; [done|].
      split; [unfold session_ok; cbn; done|by apply Hprot].
    + eexists _, _, _. split; [reflexivity|]. unfold view_session, view. cbn.
      rewrite Hclines'. split; [done|]. split; [|by apply Hprot].
      unfold session_ok. cbn. split; [done|]. split; [done|]. split; [done|].
      destruct Herr as (Harr & Hrange). right. rewrite Harr.
      assert (Hcap : (0 < Mem.scap (Mem.lines (Mem.editor s)))%nat).
      { destruct Hvlines. unfold Mem.length_of in Hrange. lia. }
      pose proof (valid_allocated h _ Hvlines Hcap). lia.
  - unfold len. cbn [clipboard]. rewrite length_cells by done. unfold Mem.length_of.
    destruct (_ =? 0).
    + eexists _, _, _. split; [reflexivity|]. split; [done|]. split; [done|].
      apply protects_refl.
    + destruct (method_step h s _ _ Hok
                  (pasteLines_simulates h _ lineNum _ Hvlines Hvclip Hfull))
        as (fe' & err & h' & -> & -> & Hclip & Hok' & Hprot).
      by method_done Hclip.
  - destruct (save_simulates h (Mem.editor s) (Mem.disk s))
      as (fe' & fs' & err & -> & -> & Hlines).
    eexists _, _, _. split; [reflexivity|]. split; [done|].
    split.
    + unfold session_ok. cbn. rewrite Hlines. done.
    + intros c Hvc Hac. cbn. by rewrite Hlines.
Qed.

(** Every run of commands from a well-formed state goes through without
    panic, computes what the value-level run computes, and keeps every
    slice that shared no cell with the buffer. *)
Lemma run_simulates (cs : list Command) :
  ∀ h (s : Mem.Session),
    session_ok h s →
    ∃ (s' : Mem.Session) h',
      Mem.run cs s h = Some (s', h') ∧
      run cs (view_session h s) = view_session h' s' ∧
      session_ok h' s' ∧
      protects h s h' s'.
Proof.
  induction cs as [|c cs IH]; intros h s Hok.
  - exists s, h. split; [done|]. split; [done|]. split; [done|apply protects_refl].
  - destruct (exec_simulates c h s Hok) as (s1 & r & h1 & Hexec & Hval & Hok1 & Hprot1).
    destruct (IH h1 s1 Hok1) as (s2 & h2 & Hrun & Hval2 & Hok2 & Hprot2).
    exists s2, h2. cbn [Mem.run]. unfold Mem.bind. rewrite Hexec.
    split; [done|]. split; [|split; [done|by eapply protects_trans]].
    unfold run in *. cbn [fold_left]. by rewrite Hval.
Qed.


(** *** Opening the file *)

Lemma bind_some {A B} (m : Mem.M A) (k : A → Mem.M B) h a h' :
  m h = Some (a, h') → Mem.bind m k h = k a h'.
Proof. intros Hm. unfold Mem.bind. by rewrite Hm. Qed.

Lemma load_loop_simulates (tokens : list string) :
  ∀ (m : Mem.M Mem.FileEditor) h fe1 h1,
    m h = Some (fe1, h1) → valid h1 (Mem.lines fe1) →
    ∃ fe2 h2,
      fold_left
        (λ (m : Mem.M Mem.FileEditor) text,
           Mem.bind m (λ fe,
             Mem.bind (Mem.append_values (Mem.lines fe) [text]) (λ ls,
               Mem.ret (Mem.set_lines fe ls))))
        tokens m h = Some (fe2, h2) ∧
      valid h2 (Mem.lines fe2) ∧
      view h2 fe2 = set_lines (view h1 fe1) (lines (view h1 fe1) ++ tokens).
Proof.
  induction tokens as [|text tokens IH]; intros m h fe1 h1 Hm Hvalid; cbn [fold_left].
  - exists fe1, h1. split; [done|]. split; [done|].
    unfold view, set_lines. cbn. by rewrite app_nil_r.
  - destruct (append_values_spec (Mem.lines fe1) [text] h1 Hvalid)
      as (ls & h2 & Hls & Hvls & Hcls & _).
    destruct (IH (Mem.bind m (λ fe,
                    Mem.bind (Mem.append_values (Mem.lines fe) [text]) (λ ls,
                      Mem.ret (Mem.set_lines fe ls))))
                h (Mem.set_lines fe1 ls) h2) as (fe3 & h3 & Hfold & Hv3 & Hview).
    + unfold Mem.bind. rewrite Hm, Hls. reflexivity.
    + exact Hvls.
    + exists fe3, h3. split; [exact Hfold|]. split; [done|].
      rewrite Hview. unfold view, set_lines. cbn. by rewrite Hcls, <- app_assoc.
Qed.

(** The editor [NewFileEditor] returns stands for the value-level one,
    and with an empty clipboard it starts a well-formed session. *)
Lemma NewFileEditor_simulates (name : string) (fs : FileSystem) h :
  ∃ r h',
    Mem.NewFileEditor name fs h = Some (r, h') ∧
    match r with
    | (Some ed, err) =>
        NewFileEditor name fs = (Some (view h' ed), err) ∧
        session_ok h' (Mem.mkSession ed Mem.nil fs)
    | (None, err) => NewFileEditor name fs = (None, err)
    end.
Proof.
  unfold Mem.NewFileEditor, NewFileEditor.
  destruct (literal_spec [] h) as (empty & Hempty & Hvempty & _ & _ & Hcempty).
  unfold Mem.bind at 1. rewrite Hempty.
  set (fe0 := Mem.mkFileEditor name empty false).
  assert (Hview0 : view (h ++ [[]]) fe0 = mkFileEditor name [] false).
  { unfold view. cbn. by rewrite Hcempty. }
  assert (Hnil : ∀ h1, valid h1 Mem.nil) by (intros h1; split; [done|by left]).
  unfold Mem.loadFile, loadFile. cbn [Mem.filename filename fe0].
  destruct (nodes fs !! name) as [node|].
  - destruct (os_Open node) as [stream|].
    + destruct (Scanner stream) as [tokens scanErr].
      destruct (load_loop_simulates tokens (Mem.ret fe0) (h ++ [[]]) fe0 (h ++ [[]]) eq_refl Hvempty)
        as (fe2 & h2 & Hfold & Hv2 & Hview2).
      rewrite load_tokens. rewrite Hview0 in Hview2.
      destruct scanErr.
      * exists (None, Some (failed_to_load_file error_reading_file)), h2.
        rewrite (bind_some _ _ _ (fe2, Some error_reading_file) h2);
          [done|by rewrite (bind_some _ _ _ _ _ Hfold)].
      * exists (Some fe2, None), h2.
        rewrite (bind_some _ _ _ (fe2, None) h2);
          [|by rewrite (bind_some _ _ _ _ _ Hfold)].
        split; [done|]. rewrite Hview2.
        split; [done|]. split; [done|]. split; [apply Hnil|]. split; [done|by left].
    + unfold Mem.bind. cbn. eexists _, _. split; [reflexivity|]. done.
  - unfold Mem.bind. cbn. eexists _, _. split; [reflexivity|]. cbn.
    rewrite Hview0. split; [done|]. split; [done|]. split; [apply Hnil|].
    split; [done|by left].
Qed.

End Heap.

(** From the start of the program: opening the file and running any
    commands never panics and computes what the value-level editor
    computes. *)
Corollary program_simulates `{Regexp} `{Runtime} (name : string) (fs : FileSystem)
    (cs : list Command) (h : list (list string)) (ed : Mem.FileEditor) h0 :
  Mem.NewFileEditor name fs h = Some ((Some ed, None), h0) →
  ∃ (s' : Mem.Session) h',
    Mem.run cs (Mem.mkSession ed Mem.nil fs) h0 = Some (s', h') ∧
    NewFileEditor name fs = (Some (view h0 ed), None) ∧
    run cs (mkSession (view h0 ed) [] fs) = view_session h' s'.
Proof.
  intros Hnew.
  destruct (NewFileEditor_simulates name fs h) as (r & h1 & Hrun & Hr).
  rewrite Hnew in Hrun. injection Hrun as <- <-. destruct Hr as [Hval Hok].
  destruct (run_simulates cs h0 _ Hok) as (s' & h' & Hcs & Hvalcs & _).
  exists s', h'. split; [done|]. split; [done|]. by rewrite <- Hvalcs.
Qed.

(** The scenario of the specification, run in memory through the command
    loop on a file that holds the three lines. *)
Example scenario_in_memory :
  let fs := mkFileSystem
              {[ "notes.txt" := RegularFile (file_image ["a"; "b"; "c"]) true true ]} 100 in
  ∃ ed h0 (s : Mem.Session) h,
    @Mem.NewFileEditor DoublingRuntime "notes.txt" fs [] = Some ((Some ed, None), h0) ∧
    @Mem.run LiteralRegexp DoublingRuntime
      [cmd_insert 2 "x"; cmd_delete 1; cmd_copy 1 2; cmd_paste 4;
       cmd_global "b" "B"; cmd_substitute "x" "Z"]
      (Mem.mkSession ed Mem.nil fs) h0 = Some (s, h) ∧
    Mem.cells h (Mem.lines (Mem.editor s)) = ["Z"; "B"; "c"; "x"; "B"] ∧
    Mem.cells h (Mem.clipboard s) = ["x"; "b"] ∧
    Mem.modified (Mem.editor s) = true.
Proof.
  cbv zeta. eexists _, _, _, _. split; [vm_compute; reflexivity|].
  split; [vm_compute; reflexivity|]. by vm_compute.
Qed.

(** ** Copying a range *)

Section Snapshot.
Context `{Regexp} `{Runtime}.

(** C6. In a well-formed session whose buffer has [n] lines,
    [copyRange(start, end)] returns no error exactly when
    [1 ≤ start ≤ end ≤ n], and an error of kind InvalidRange otherwise.
    Either way the editor record (buffer and flag) is returned as it was
    and the lines of the buffer are unchanged.  On success the returned
    slice holds the lines [start..end], and it is an independent
    snapshot: whatever commands the session runs afterwards with that
    slice as its clipboard, the run does not panic and the slice still
    holds the same lines at the end. *)
Theorem copyRange_snapshot (h : list (list string)) (s : Mem.Session) (start end_ : Z) :
  session_ok h s →
  let fe := Mem.editor s in
  let buffer := Mem.cells h (Mem.lines fe) in
  ∃ snap err h',
    Mem.copyLines fe start end_ h = Some ((fe, (snap, err)), h') ∧
    Mem.cells h' (Mem.lines fe) = buffer ∧
    copyLines (view h fe) start end_ = (view h fe, (Mem.cells h' snap, err)) ∧
    (err = None ↔ 1 ≤ start ∧ start ≤ end_ ∧ end_ ≤ len buffer) ∧
    (∀ e, err = Some e → kind e = InvalidRange ∧ h' = h) ∧
    (err = None →
       Mem.cells h' snap = drop (Z.to_nat (start - 1)) (take (Z.to_nat end_) buffer) ∧
       len (Mem.cells h' snap) = end_ - start + 1 ∧
       ∀ cs : list Command,
         ∃ (s' : Mem.Session) h'',
           Mem.run cs (Mem.mkSession fe snap (Mem.disk s)) h' = Some (s', h'') ∧
           Mem.cells h'' snap = Mem.cells h' snap).
Proof.
  intros Hok fe buffer. subst fe. pose proof Hok as (Hvlines & Hvclip & Hfull & Hapart).
  destruct (copyLines_spec h (Mem.editor s) start end_ Hvlines)
    as (snap & err & h' & Hrun & Hval & Hvsnap & Hfullsnap & Hfresh & Herr).
  destruct (frame_fresh h h' _ Hfresh Hvlines) as [Hvlines' Hclines'].
  exists snap, err, h'. split; [done|]. split; [done|]. split; [done|].
  assert (Hlen : len buffer = Mem.length_of (Mem.lines (Mem.editor s))).
  { unfold len, buffer, Mem.length_of. by rewrite length_cells. }
  destruct err as [e|].
  - destruct Herr as (-> & -> & ->).
    split; [|split; [by intros e [= <-]|discriminate]].
    split; [discriminate|]. intros Hrange. exfalso.
    unfold Mem.copyLines in Hrun. rewrite <- Hlen in Hrun.
    apply range_guard in Hrange. rewrite Hrange in Hrun.
    unfold Mem.bind in Hrun.
    destruct (Mem.make _ _) as [[? ?]|]; [|discriminate].
    destruct (Mem.reslice _ _ _ _) as [[? ?]|]; [|discriminate].
    destruct (Mem.copy _ _ _) as [[? ?]|]; discriminate.
  - destruct Herr as (Harr & Hrange). rewrite <- Hlen in Hrange.
    split; [done|]. split; [discriminate|]. intros _.
    assert (Hsnap : Mem.cells h' snap =
              drop (Z.to_nat (start - 1)) (take (Z.to_nat end_) buffer)).
    { unfold copyLines in Hval. cbn [lines view] in Hval. fold buffer in Hval.
      apply range_guard in Hrange. rewrite Hrange in Hval.
      injection Hval as Hval. rewrite <- Hval.
      set (window := drop _ (take _ buffer)).
      assert (Hwin : length window = Z.to_nat (end_ - start + 1)).
      { subst window. apply range_guard in Hrange. unfold len in Hrange.
        rewrite length_drop, length_take. lia. }
      rewrite length_replicate, <- Hwin, firstn_all.
      rewrite drop_ge by (rewrite length_replicate; lia). apply app_nil_r. }
    split; [done|]. split.
    { rewrite Hsnap. unfold len in *. rewrite length_drop, length_take. lia. }
    intros cs.
    assert (Hok' : session_ok h' (Mem.mkSession (Mem.editor s) snap (Mem.disk s))).
    { unfold session_ok. cbn. split; [done|]. split; [done|]. split; [done|].
      right. rewrite Harr.
      assert (Hcap : (0 < Mem.scap (Mem.lines (Mem.editor s)))%nat).
      { destruct Hvlines. unfold Mem.length_of in Hlen. lia. }
      pose proof (valid_allocated h _ Hvlines Hcap). lia. }
    destruct (run_simulates cs h' _ Hok') as (s' & h'' & Hcs & _ & _ & Hprot).
    exists s', h''. split; [done|].
    destruct Hok' as (_ & _ & _ & Hapart'). cbn in Hapart'.
    by destruct (Hprot snap Hvsnap Hapart') as (_ & _ & ->).
Qed.

End Snapshot.

(** ** Failing calls *)

Section Failures.
Context `{Regexp} `{Runtime}.

(** C10. A call that is refused leaves everything as it was.  On any
    heap and editor: [insert] and [paste] at a position outside
    [1..n+1], [delete] and [replace] at a position outside [1..n],
    [copyRange] on a range that is not [1 ≤ start ≤ end ≤ n], and
    [search] and [substitute] with a pattern that does not compile
    return an error (of kind InvalidPosition, InvalidRange,
    InvalidPattern) together with the very same editor record, and the
    heap, hence the line sequence and the flag, is the one before the
    call. *)
Theorem failing_calls_change_nothing (h : list (list string)) (fe : Mem.FileEditor) :
  let n := Mem.length_of (Mem.lines fe) in
  (∀ pos text, ¬ (1 ≤ pos ≤ n + 1) →
     Mem.insertLine fe pos text h = Some ((fe, Some (invalid_line_number pos)), h)) ∧
  (∀ pos, ¬ (1 ≤ pos ≤ n) →
     Mem.deleteLine fe pos h = Some ((fe, Some (invalid_line_number pos)), h)) ∧
  (∀ pos text, ¬ (1 ≤ pos ≤ n) →
     Mem.replaceLine fe pos text h = Some ((fe, Some (invalid_line_number pos)), h)) ∧
  (∀ pos block, ¬ (1 ≤ pos ≤ n + 1) →
     Mem.pasteLines fe pos block h = Some ((fe, Some (invalid_line_number pos)), h)) ∧
  (∀ start end_, ¬ (1 ≤ start ∧ start ≤ end_ ∧ end_ ≤ n) →
     Mem.copyLines fe start end_ h =
       Some ((fe, (Mem.nil, Some (invalid_line_range start end_))), h)) ∧
  (∀ pattern, Compile pattern = None →
     Mem.search fe pattern h = Some ((fe, ([], Some invalid_regex_pattern)), h)) ∧
  (∀ pattern replacement global, Compile pattern = None →
     Mem.searchAndReplace fe pattern replacement global h =
       Some ((fe, (0, Some invalid_regex_pattern)), h)) ∧
  (∀ pos, kind (invalid_line_number pos) = InvalidPosition) ∧
  (∀ start end_, kind (invalid_line_range start end_) = InvalidRange) ∧
  kind invalid_regex_pattern = InvalidPattern.
Proof.
  cbv zeta. repeat split.
  - intros pos text Hpos. unfold Mem.insertLine.
    apply (guard_true_iff _ _ (insert_guard _ pos)) in Hpos. by rewrite Hpos.
  - intros pos Hpos. unfold Mem.deleteLine.
    apply (guard_true_iff _ _ (line_guard _ pos)) in Hpos. by rewrite Hpos.
  - intros pos text Hpos. unfold Mem.replaceLine.
    apply (guard_true_iff _ _ (line_guard _ pos)) in Hpos. by rewrite Hpos.
  - intros pos block Hpos. unfold Mem.pasteLines.
    apply (guard_true_iff _ _ (insert_guard _ pos)) in Hpos. by rewrite Hpos.
  - intros start end_ Hrange. unfold Mem.copyLines.
    apply (guard_true_iff _ _ (range_guard _ start end_)) in Hrange. by rewrite Hrange.
  - intros pattern Hcompile. unfold Mem.search. by rewrite Hcompile.
  - intros pattern replacement global Hcompile. unfold Mem.searchAndReplace.
    by rewrite Hcompile.
Qed.

End Failures.

Lemma failing_calls_change_nothing_witness :
  let h := [["a"; "b"; "c"; ""]] in
  let fe := Mem.mkFileEditor "notes.txt" (Mem.mkSlice 0 0 3 4) true in
  @Mem.insertLine DoublingRuntime fe 5 "x" h = Some ((fe, Some (invalid_line_number 5)), h) ∧
  Mem.copyLines fe 2 4 h = Some ((fe, (Mem.nil, Some (invalid_line_range 2 4))), h) ∧
  @Mem.search LiteralRegexp fe "a(" h = Some ((fe, ([], Some invalid_regex_pattern)), h).
Proof.
  cbv zeta.
  destruct (@failing_calls_change_nothing LiteralRegexp DoublingRuntime
              [["a"; "b"; "c"; ""]] (Mem.mkFileEditor "notes.txt" (Mem.mkSlice 0 0 3 4) true))
    as (Hinsert & _ & _ & _ & Hcopy & Hsearch & _).
  split; [apply Hinsert; vm_compute; intros [_ Hle]; by apply Hle|].
  split; [apply Hcopy; vm_compute; intros (_ & _ & Hle); by apply Hle|].
  apply Hsearch. reflexivity.
Defined.

Lemma copyRange_snapshot_witness :
  let h := [["a"; "b"; "c"; ""]] in
  let s := Mem.mkSession (Mem.mkFileEditor "notes.txt" (Mem.mkSlice 0 0 3 4) false)
             Mem.nil (mkFileSystem ∅ 100) in
  ∃ snap h',
    Mem.copyLines (Mem.editor s) 2 3 h = Some ((Mem.editor s, (snap, None)), h') ∧
    Mem.cells h' snap = ["b"; "c"] ∧
    ∃ (s' : Mem.Session) h'',
      @Mem.run LiteralRegexp DoublingRuntime
        [cmd_delete 2; cmd_paste 1; cmd_global "b" "x"; cmd_insert 1 "y"]
        (Mem.mkSession (Mem.editor s) snap (Mem.disk s)) h' = Some (s', h'') ∧
      Mem.cells h'' snap = ["b"; "c"].
Proof.
  cbv zeta.
  destruct (@copyRange_snapshot LiteralRegexp DoublingRuntime
              [["a"; "b"; "c"; ""]]
              (Mem.mkSession (Mem.mkFileEditor "notes.txt" (Mem.mkSlice 0 0 3 4) false)
                 Mem.nil (mkFileSystem ∅ 100)) 2 3)
    as (snap & err & h' & Hrun & _ & _ & _ & _ & Hsnap).
  { unfold session_ok, valid, apart. cbn. repeat split; try lia; by left || (right; lia). }
  cbn [Mem.editor Mem.disk] in *.
  assert (err = None) as ->.
  { vm_compute in Hrun. by injection Hrun as _ <- _. }
  destruct (Hsnap eq_refl) as (Hcells & _ & Hlater).
  exists snap, h'. split; [done|]. split; [by rewrite Hcells|].
  destruct (Hlater [cmd_delete 2; cmd_paste 1; cmd_global "b" "x"; cmd_insert 1 "y"])
    as (s' & h'' & Hcs & Hkept).
  exists s', h''. split; [done|]. by rewrite Hkept, Hcells.
Defined.

(** * Further properties *)

(** ** How the edits move the lines *)

(** X1. An insert at a valid position succeeds and sets the flag: the new
    text is at that position, the lines before it stay where they were
    and the lines from it on move down by one. *)
Theorem insertLine_shifts (fe : FileEditor) (pos : Z) (text : string) :
  1 ≤ pos ≤ len (lines fe) + 1 →
  let p := Z.to_nat (pos - 1) in
  ∃ fe',
    insertLine fe pos text = (fe', None) ∧
    filename fe' = filename fe ∧ modified fe' = true ∧
    len (lines fe') = len (lines fe) + 1 ∧
    lines fe' !! p = Some text ∧
    (∀ i : nat, (i < p)%nat → lines fe' !! i = lines fe !! i) ∧
    (∀ i : nat, (p ≤ i)%nat → lines fe' !! S i = lines fe !! i).
Proof.
  intros Hpos p. eexists. split; [by apply insertLine_ok|]. cbn [filename modified lines].
  fold p. assert (Hp : (p ≤ length (lines fe))%nat) by (unfold len in Hpos; lia).
  split; [done|]. split; [done|]. split; [by apply len_insert_middle|].
  assert (Hlen : length (take p (lines fe)) = p) by (rewrite length_take; lia).
  split; [|split].
  - rewrite lookup_app_r by lia. rewrite Hlen, Nat.sub_diag. done.
  - intros i Hi. rewrite lookup_app_l by lia. by rewrite lookup_take_lt.
  - intros i Hi. rewrite lookup_app_r by lia. rewrite Hlen.
    replace (S i - p)%nat with (S (i - p)) by lia.
    change ((text :: drop p (lines fe)) !! S (i - p)) with (drop p (lines fe) !! (i - p)%nat).
    rewrite lookup_drop. f_equal. lia.
Qed.

Lemma insertLine_shifts_witness :
  ∃ fe',
    insertLine (mkFileEditor "notes.txt" ["a"; "b"] false) 2 "x" = (fe', None) ∧
    lines fe' !! 1%nat = Some "x" ∧ lines fe' !! 2%nat = Some "b".
Proof.
  destruct (insertLine_shifts (mkFileEditor "notes.txt" ["a"; "b"] false) 2 "x")
    as (fe' & Hrun & _ & _ & _ & Hat & _ & Hafter).
  { vm_compute. split; discriminate. }
  exists fe'. split; [done|]. split; [done|]. by rewrite (Hafter 1%nat) by (cbn; lia).
Defined.

(** X2. A delete at a valid position succeeds and sets the flag: the
    lines before it stay where they were and the lines after it move up
    by one. *)
Theorem deleteLine_shifts (fe : FileEditor) (pos : Z) :
  1 ≤ pos ≤ len (lines fe) →
  let p := Z.to_nat (pos - 1) in
  ∃ fe',
    deleteLine fe pos = (fe', None) ∧
    filename fe' = filename fe ∧ modified fe' = true ∧
    len (lines fe') = len (lines fe) - 1 ∧
    (∀ i : nat, (i < p)%nat → lines fe' !! i = lines fe !! i) ∧
    (∀ i : nat, (p ≤ i)%nat → lines fe' !! i = lines fe !! S i).
Proof.
  intros Hpos p. eexists. split; [by apply deleteLine_ok|]. cbn [filename modified lines].
  fold p. assert (Hp : (p < length (lines fe))%nat) by (unfold len in Hpos; lia).
  assert (Hlen : length (take p (lines fe)) = p) by (rewrite length_take; lia).
  split; [done|]. split; [done|]. split; [|split].
  - unfold len. rewrite length_app, Hlen, length_drop. lia.
  - intros i Hi. rewrite lookup_app_l by lia. by rewrite lookup_take_lt.
  - intros i Hi. rewrite lookup_app_r by lia. rewrite Hlen, lookup_drop. f_equal. lia.
Qed.

Lemma deleteLine_shifts_witness :
  ∃ fe',
    deleteLine (mkFileEditor "notes.txt" ["a"; "b"; "c"] false) 2 = (fe', None) ∧
    lines fe' !! 0%nat = Some "a" ∧ lines fe' !! 1%nat = Some "c".
Proof.
  destruct (deleteLine_shifts (mkFileEditor "notes.txt" ["a"; "b"; "c"] false) 2)
    as (fe' & Hrun & _ & _ & _ & Hbefore & Hafter).
  { vm_compute. split; discriminate. }
  exists fe'. split; [done|].
  split; [by rewrite (Hbefore 0%nat) by (cbn; lia) | by rewrite (Hafter 1%nat) by (cbn; lia)].
Defined.

(** X3. A replace at a valid position succeeds and sets the flag: the
    new text is at that position, the number of lines and every other
    line are as before. *)
Theorem replaceLine_in_place (fe : FileEditor) (pos : Z) (text : string) :
  1 ≤ pos ≤ len (lines fe) →
  let p := Z.to_nat (pos - 1) in
  ∃ fe',
    replaceLine fe pos text = (fe', None) ∧
    filename fe' = filename fe ∧ modified fe' = true ∧
    len (lines fe') = len (lines fe) ∧
    lines fe' !! p = Some text ∧
    (∀ i : nat, i ≠ p → lines fe' !! i = lines fe !! i).
Proof.
  intros Hpos p. unfold replaceLine.
  pose proof Hpos as Hguard. apply line_guard in Hguard. rewrite Hguard.
  eexists. split; [reflexivity|]. cbn [filename modified lines set_lines set_modified].
  fold p. assert (Hp : (p < length (lines fe))%nat) by (unfold len in Hpos; lia).
  split; [done|]. split; [done|]. split; [|split].
  - unfold len. by rewrite length_insert.
  - by apply list_lookup_insert_eq.
  - intros i Hi. by apply list_lookup_insert_ne.
Qed.

Lemma replaceLine_in_place_witness :
  ∃ fe',
    replaceLine (mkFileEditor "notes.txt" ["a"; "b"; "c"] false) 2 "x" = (fe', None) ∧
    lines fe' !! 1%nat = Some "x" ∧ lines fe' !! 2%nat = Some "c".
Proof.
  destruct (replaceLine_in_place (mkFileEditor "notes.txt" ["a"; "b"; "c"] false) 2 "x")
    as (fe' & Hrun & _ & _ & _ & Hat & Hother).
  { vm_compute. split; discriminate. }
  exists fe'. split; [done|]. split; [done|]. by rewrite (Hother 2%nat) by (cbn; lia).
Defined.

(** X4. Appending is inserting at the position after the last line: both
    give the same editor, with the text as its last line and the flag
    set. *)
Theorem appendLine_is_insert_at_end (fe : FileEditor) (text : string) :
  insertLine fe (len (lines fe) + 1) text = (appendLine fe text, None) ∧
  lines (appendLine fe text) = lines fe ++ [text] ∧
  modified (appendLine fe text) = true.
Proof.
  split; [|done]. rewrite insertLine_ok by (unfold len; lia).
  unfold appendLine, set_modified, set_lines, len. cbn. f_equal. f_equal.
  replace (Z.to_nat (Z.of_nat (length (lines fe)) + 1 - 1)) with (length (lines fe)) by lia.
  by rewrite firstn_all, drop_all.
Qed.

Lemma set_lines_modified fe ls :
  set_modified (set_lines fe ls) true = mkFileEditor (filename fe) ls true.
Proof. done. Qed.

Lemma insert_each_lines (block : list string) :
  ∀ (fe : FileEditor) (pos : Z),
    1 ≤ pos ≤ len (lines fe) + 1 → block ≠ [] →
    insert_each fe pos block =
      mkFileEditor (filename fe)
        (take (Z.to_nat (pos - 1)) (lines fe) ++ block ++ drop (Z.to_nat (pos - 1)) (lines fe))
        true.
Proof.
  induction block as [|line rest IH]; intros fe pos Hpos Hne; [done|].
  cbn [insert_each]. rewrite insertLine_ok by done. cbn [fst].
  assert (Hp : (Z.to_nat (pos - 1) ≤ length (lines fe))%nat) by (unfold len in Hpos; lia).
  destruct rest as [|line' rest'].
  - done.
  - set (p := Z.to_nat (pos - 1)) in *.
    rewrite IH; [|cbn [lines]; rewrite len_insert_middle by done; lia|done].
    cbn [filename lines]. f_equal.
    replace (Z.to_nat (pos + 1 - 1)) with (S p) by lia.
    assert (Hlen : length (take p (lines fe)) = p) by (rewrite length_take; lia).
    rewrite take_app_ge by lia. rewrite Hlen.
    replace (S p - p)%nat with 1%nat by lia. cbn [take].
    rewrite drop_app_ge by lia. rewrite Hlen.
    replace (S p - p)%nat with 1%nat by lia. cbn [drop].
    rewrite take_0, drop_0. by rewrite <- app_assoc.
Qed.

(** X5. Pasting a block at a valid position gives the editor that
    inserting its lines one after the other, at that position and the
    following ones, gives. *)
Theorem pasteLines_is_batch_insert (fe : FileEditor) (pos : Z) (block : list string) :
  1 ≤ pos ≤ len (lines fe) + 1 → block ≠ [] →
  pasteLines fe pos block = (insert_each fe pos block, None) ∧
  len (lines (insert_each fe pos block)) = len (lines fe) + len block.
Proof.
  intros Hpos Hne. rewrite insert_each_lines by done. unfold pasteLines.
  pose proof Hpos as Hguard. apply insert_guard in Hguard. rewrite Hguard.
  split; [done|]. cbn [lines]. unfold len in *.
  rewrite !length_app, length_take, length_drop. lia.
Qed.

Lemma pasteLines_is_batch_insert_witness :
  pasteLines (mkFileEditor "notes.txt" ["a"; "b"] false) 2 ["x"; "y"] =
    (mkFileEditor "notes.txt" ["a"; "x"; "y"; "b"] true, None).
Proof.
  destruct (pasteLines_is_batch_insert (mkFileEditor "notes.txt" ["a"; "b"] false) 2 ["x"; "y"])
    as [Hrun _]; [vm_compute; split; discriminate | discriminate |].
  rewrite Hrun. reflexivity.
Defined.

Lemma copyLines_ok (fe : FileEditor) (start end_ : Z) :
  1 ≤ start ∧ start ≤ end_ ∧ end_ ≤ len (lines fe) →
  copyLines fe start end_ =
    (fe, (drop (Z.to_nat (start - 1)) (take (Z.to_nat end_) (lines fe)), None)).
Proof.
  intros Hrange. unfold copyLines.
  pose proof Hrange as Hguard. apply range_guard in Hguard. rewrite Hguard.
  set (window := drop _ (take _ (lines fe))).
  assert (Hwin : length window = Z.to_nat (end_ - start + 1)).
  { subst window. unfold len in Hrange. rewrite length_drop, length_take. lia. }
  rewrite length_replicate, <- Hwin, firstn_all.
  rewrite drop_ge by (rewrite length_replicate; lia). by rewrite app_nil_r.
Qed.

(** X6. Copying a valid range and pasting it at a valid position puts
    the lines of the range, as they were when copied, at that position,
    between the lines that were before and after it; the clipboard can be
    pasted again. *)
Theorem copy_then_paste (fe : FileEditor) (start end_ pos : Z) :
  1 ≤ start ∧ start ≤ end_ ∧ end_ ≤ len (lines fe) →
  1 ≤ pos ≤ len (lines fe) + 1 →
  let p := Z.to_nat (pos - 1) in
  let k := Z.to_nat (end_ - start + 1) in
  ∃ clip fe',
    copyLines fe start end_ = (fe, (clip, None)) ∧
    pasteLines fe pos clip = (fe', None) ∧
    len (lines fe') = len (lines fe) + (end_ - start + 1) ∧
    take p (lines fe') = take p (lines fe) ∧
    take k (drop p (lines fe')) = clip ∧
    drop (p + k) (lines fe') = drop p (lines fe) ∧
    (∀ j : nat, (j < k)%nat →
       lines fe' !! (p + j)%nat = lines fe !! (Z.to_nat (start - 1) + j)%nat) ∧
    ∃ fe'', pasteLines fe' pos clip = (fe'', None) ∧
            len (lines fe'') = len (lines fe) + 2 * (end_ - start + 1).
Proof.
  intros Hrange Hpos p k.
  set (clip := drop (Z.to_nat (start - 1)) (take (Z.to_nat end_) (lines fe))).
  assert (Hclip : length clip = k).
  { subst clip k. unfold len in Hrange. rewrite length_drop, length_take. lia. }
  assert (Hp : (p ≤ length (lines fe))%nat) by (unfold len in Hpos; lia).
  assert (Hlen : length (take p (lines fe)) = p) by (rewrite length_take; lia).
  exists clip. eexists. split; [by apply copyLines_ok|].
  unfold pasteLines at 1. pose proof Hpos as Hguard. apply insert_guard in Hguard.
  rewrite Hguard. split; [reflexivity|]. cbn [lines set_lines set_modified]. fold p.
  assert (Hcount : len (take p (lines fe) ++ clip ++ drop p (lines fe)) =
                   len (lines fe) + (end_ - start + 1)).
  { unfold len. rewrite !length_app, Hlen, Hclip, length_drop. lia. }
  split; [done|]. split; [by rewrite take_app_length'|].
  split; [by rewrite drop_app_length', take_app_length'|].
  split; [rewrite app_assoc, drop_app_length'; [done|rewrite length_app; lia]|].
  split.
  - intros j Hj. rewrite lookup_app_r by lia. rewrite lookup_app_l by lia.
    replace (p + j - length (take p (lines fe)))%nat with j by lia.
    subst clip. rewrite lookup_drop, lookup_take_lt; [done|].
    unfold len in Hrange. lia.
  - unfold pasteLines. cbn [lines set_lines set_modified].
    assert (Hguard' : (pos <? 1) || (pos >? len (take p (lines fe) ++ clip ++ drop p (lines fe)) + 1)
                      = false) by (apply insert_guard; lia).
    rewrite Hguard'. eexists. split; [reflexivity|].
    unfold set_modified, set_lines. cbn [lines].
    set (pasted := take p (lines fe) ++ clip ++ drop p (lines fe)) in *.
    unfold len in *. rewrite !length_app, length_take, length_drop. lia.
Qed.

Lemma copy_then_paste_witness :
  ∃ clip fe',
    copyLines (mkFileEditor "notes.txt" ["a"; "b"; "c"] false) 2 3 =
      (mkFileEditor "notes.txt" ["a"; "b"; "c"] false, (clip, None)) ∧
    pasteLines (mkFileEditor "notes.txt" ["a"; "b"; "c"] false) 1 clip = (fe', None) ∧
    len (lines fe') = 5.
Proof.
  destruct (copy_then_paste (mkFileEditor "notes.txt" ["a"; "b"; "c"] false) 2 3 1)
    as (clip & fe' & Hcopy & Hpaste & Hlen & _).
  { vm_compute. repeat split; discriminate. }
  { vm_compute. split; discriminate. }
  exists clip, fe'. split; [done|]. split; [done|]. by rewrite Hlen.
Defined.

(** X7. Deleting a line and inserting its text at the same position
    gives back the lines as they were. *)
Theorem delete_then_insert (fe : FileEditor) (pos : Z) (line : string) :
  1 ≤ pos ≤ len (lines fe) →
  lines fe !! Z.to_nat (pos - 1) = Some line →
  ∃ fe1 fe2,
    deleteLine fe pos = (fe1, None) ∧
    insertLine fe1 pos line = (fe2, None) ∧
    lines fe2 = lines fe.
Proof.
  intros Hpos Hline.
  assert (Hp : (Z.to_nat (pos - 1) < length (lines fe))%nat) by (unfold len in Hpos; lia).
  set (p := Z.to_nat (pos - 1)) in *.
  assert (Hlen : length (take p (lines fe)) = p) by (rewrite length_take; lia).
  eexists _, _. split; [by apply deleteLine_ok|]. fold p. split.
  - apply insertLine_ok. cbn [lines]. unfold len in *.
    rewrite length_app, Hlen, length_drop. lia.
  - cbn [lines]. fold p.
    rewrite take_app_length' by done. rewrite drop_app_length' by done.
    replace (p + 1)%nat with (S p) by lia. by apply take_drop_middle.
Qed.

Lemma delete_then_insert_witness :
  ∃ fe1 fe2,
    deleteLine (mkFileEditor "notes.txt" ["a"; "b"; "c"] false) 2 = (fe1, None) ∧
    insertLine fe1 2 "b" = (fe2, None) ∧
    lines fe2 = ["a"; "b"; "c"].
Proof.
  apply (delete_then_insert (mkFileEditor "notes.txt" ["a"; "b"; "c"] false) 2 "b").
  - vm_compute. split; discriminate.
  - reflexivity.
Defined.

(** X8. Replacing a line is deleting it and inserting the new text at
    the same position. *)
Theorem replace_is_delete_then_insert (fe : FileEditor) (pos : Z) (text : string) :
  1 ≤ pos ≤ len (lines fe) →
  ∃ fe1 fe2,
    deleteLine fe pos = (fe1, None) ∧
    insertLine fe1 pos text = (fe2, None) ∧
    replaceLine fe pos text = (fe2, None).
Proof.
  intros Hpos.
  assert (Hp : (Z.to_nat (pos - 1) < length (lines fe))%nat) by (unfold len in Hpos; lia).
  set (p := Z.to_nat (pos - 1)) in *.
  assert (Hlen : length (take p (lines fe)) = p) by (rewrite length_take; lia).
  eexists _, _. split; [by apply deleteLine_ok|]. fold p. split.
  - apply insertLine_ok. cbn [lines]. unfold len in *.
    rewrite length_app, Hlen, length_drop. lia.
  - unfold replaceLine. pose proof Hpos as Hguard. apply line_guard in Hguard.
    rewrite Hguard. cbn [lines filename]. fold p. unfold set_modified, set_lines.
    cbn [filename lines]. f_equal. f_equal.
    rewrite take_app_length' by done. rewrite drop_app_length' by done.
    replace (p + 1)%nat with (S p) by lia. by apply insert_take_drop.
Qed.

Lemma replace_is_delete_then_insert_witness :
  ∃ fe1 fe2,
    deleteLine (mkFileEditor "notes.txt" ["a"; "b"; "c"] false) 3 = (fe1, None) ∧
    insertLine fe1 3 "z" = (fe2, None) ∧
    replaceLine (mkFileEditor "notes.txt" ["a"; "b"; "c"] false) 3 "z" = (fe2, None).
Proof.
  apply (replace_is_delete_then_insert (mkFileEditor "notes.txt" ["a"; "b"; "c"] false) 3 "z").
  vm_compute. split; discriminate.
Defined.

(** ** What a load accepts *)

Lemma has_byte_app c s t : has_byte c (s +:+ t) = has_byte c s || has_byte c t.
Proof.
  induction s as [|b s IH]; [done|].
  rewrite string_app_cons. cbn [has_byte]. by rewrite IH, orb_assoc.
Qed.

Lemma dropCR_keeps (s : string) :
  (String.length (dropCR s) ≤ String.length s)%nat ∧
  (has_byte LF s = false → has_byte LF (dropCR s) = false).
Proof.
  induction s as [|c s [IHlen IHlf]]; [done|].
  cbn [dropCR]. destruct s as [|c' s'].
  - destruct (Ascii.eqb c CR); cbn; split; (lia || done).
  - cbn [String.length has_byte] in *. split; [lia|].
    intros [Hc Hrest]%orb_false_iff. rewrite Hc. by apply IHlf.
Qed.

Lemma scan_lines_tokens (data : string) :
  ∀ cur tokens tooLong,
    has_byte LF cur = false →
    scan_lines data cur = (tokens, tooLong) →
    Forall (λ t, has_byte LF t = false ∧
                 Z.of_nat (String.length t) < MaxScanTokenSize) tokens.
Proof.
  induction data as [|c data IH]; intros cur tokens tooLong Hcur; cbn [scan_lines].
  - destruct (String.eqb cur EmptyString); [intros [= <- _]; constructor|].
    destruct (Z.ltb_spec (Z.of_nat (String.length cur)) MaxScanTokenSize);
      intros [= <- _]; [|constructor].
    constructor; [|constructor]. destruct (dropCR_keeps cur) as [Hlen Hlf].
    split; [by apply Hlf|lia].
  - destruct (Z.ltb_spec (Z.of_nat (String.length cur)) MaxScanTokenSize);
      [|intros [= <- _]; constructor].
    destruct (Ascii.eqb c LF) eqn:Hc.
    + destruct (scan_lines data EmptyString) as [rest err] eqn:Hrest.
      intros [= <- _]. constructor; [|eapply (IH EmptyString); [reflexivity|exact Hrest]].
      destruct (dropCR_keeps cur) as [Hlen Hlf]. split; [by apply Hlf|lia].
    + apply IH. rewrite has_byte_app. cbn. by rewrite Hcur, Hc.
Qed.

(** X9. Whatever the file holds, a load that succeeds gives lines without
    newline, every one shorter than the scanner's buffer. *)
Theorem loaded_lines_are_clean (name : string) (fs : FileSystem) (fe : FileEditor) :
  NewFileEditor name fs = (Some fe, None) →
  filename fe = name ∧ modified fe = false ∧
  Forall (λ line, has_byte LF line = false ∧
                  Z.of_nat (String.length line) < MaxScanTokenSize) (lines fe).
Proof.
  unfold NewFileEditor, loadFile. cbn [filename].
  destruct (nodes fs !! name) as [node|]; [|by intros [= <-]].
  destruct (os_Open node) as [[data|]|]; cbn [Scanner]; [| |discriminate].
  - destruct (scan_lines data EmptyString) as [tokens tooLong] eqn:Hscan.
    rewrite load_tokens. destruct tooLong; [discriminate|]. intros [= <-].
    cbn. split; [done|]. split; [done|].
    eapply (scan_lines_tokens data EmptyString); [reflexivity|exact Hscan].
  - discriminate.
Qed.

Lemma loaded_lines_are_clean_witness :
  ∃ fe,
    NewFileEditor "notes.txt"
      (mkFileSystem {[ "notes.txt" := RegularFile (crlf_image ["a"; "b"]) true true ]} 0) =
      (Some fe, None) ∧
    Forall (λ line, has_byte LF line = false ∧
                    Z.of_nat (String.length line) < MaxScanTokenSize) (lines fe).
Proof.
  eexists. split; [vm_compute; reflexivity|].
  eapply (loaded_lines_are_clean "notes.txt"
            (mkFileSystem {[ "notes.txt" := RegularFile (crlf_image ["a"; "b"]) true true ]} 0)).
  vm_compute. reflexivity.
Defined.

Lemma dropCR_app_CR (s : string) : dropCR (s +:+ String CR EmptyString) = s.
Proof.
  induction s as [|c s IH]; [done|].
  rewrite string_app_cons. cbn [dropCR].
  destruct (s +:+ String CR EmptyString) eqn:Hs.
  - destruct s; discriminate.
  - by rewrite IH.
Qed.

Lemma scan_crlf (ls : list string) :
  Forall (λ line, has_byte LF line = false ∧
                  Z.of_nat (String.length line) + 1 < MaxScanTokenSize) ls →
  scan_lines (crlf_image ls) EmptyString = (ls, false).
Proof.
  induction 1 as [|line rest [Hlf Hlen] _ IH]; [reflexivity|].
  cbn [crlf_image].
  replace (line +:+ String CR (String LF (crlf_image rest)))
    with ((line +:+ String CR EmptyString) +:+ String LF (crlf_image rest))
    by (by rewrite string_app_assoc).
  rewrite scan_one_line.
  - rewrite IH. by rewrite string_app_nil_l, dropCR_app_CR.
  - rewrite has_byte_app. cbn. by rewrite Hlf.
  - rewrite string_length_app. cbn [String.length]. lia.
Qed.

(** X10. A file with CRLF line endings loads as its lines, and a save then
    rewrites it with LF endings. *)
Theorem crlf_file_becomes_lf (name : string) (fs : FileSystem) (ls : list string)
    (writable : bool) :
  Forall (λ line, has_byte LF line = false ∧
                  Z.of_nat (String.length line) + 1 < MaxScanTokenSize) ls →
  nodes fs !! name = Some (RegularFile (crlf_image ls) true writable) →
  NewFileEditor name fs = (Some (mkFileEditor name ls false), None) ∧
  ∀ fe' fs',
    save (mkFileEditor name ls false) fs = (fe', fs', None) →
    ∃ r w, nodes fs' !! name = Some (RegularFile (file_image ls) r w).
Proof.
  intros Hlines Hnode. split.
  - unfold NewFileEditor, loadFile. cbn [filename]. rewrite Hnode. cbn [os_Open Scanner].
    rewrite scan_crlf by done. by rewrite load_tokens.
  - intros fe' fs' Hsave. destruct (save_image _ _ _ _ Hsave) as (r & w & Hfile & _).
    by exists r, w.
Qed.

Lemma crlf_file_becomes_lf_witness :
  let fs := mkFileSystem {[ "notes.txt" := RegularFile (crlf_image ["a"; "b"]) true true ]} 10 in
  NewFileEditor "notes.txt" fs = (Some (mkFileEditor "notes.txt" ["a"; "b"] false), None) ∧
  ∃ fe' fs', save (mkFileEditor "notes.txt" ["a"; "b"] false) fs = (fe', fs', None) ∧
             ∃ r w, nodes fs' !! "notes.txt" = Some (RegularFile (file_image ["a"; "b"]) r w).
Proof.
  cbv zeta.
  destruct (crlf_file_becomes_lf "notes.txt"
              (mkFileSystem {[ "notes.txt" := RegularFile (crlf_image ["a"; "b"]) true true ]} 10)
              ["a"; "b"] true) as [Hload Hsave].
  { repeat constructor. }
  { vm_compute. reflexivity. }
  split; [done|]. eexists _, _. split; [vm_compute; reflexivity|].
  eapply Hsave. vm_compute. reflexivity.
Defined.

Lemma scan_last_line (l cur : string) :
  has_byte LF l = false →
  cur +:+ l ≠ EmptyString →
  Z.of_nat (String.length cur + String.length l) < MaxScanTokenSize →
  scan_lines l cur = ([dropCR (cur +:+ l)], false).
Proof.
  revert cur. induction l as [|c l IH]; intros cur Hlf Hne Hlen.
  - rewrite string_app_nil_r in *. cbn [scan_lines]. cbn [String.length] in Hlen.
    destruct (String.eqb_spec cur EmptyString); [done|].
    by destruct (Z.ltb_spec (Z.of_nat (String.length cur)) MaxScanTokenSize); [|lia].
  - cbn [has_byte] in Hlf. apply orb_false_iff in Hlf as [Hc Hl].
    cbn [scan_lines]. cbn [String.length] in Hlen.
    destruct (Z.ltb_spec (Z.of_nat (String.length cur)) MaxScanTokenSize); [|lia].
    rewrite Hc, IH.
    + by rewrite string_app_assoc.
    + done.
    + rewrite string_app_assoc. destruct cur; intros Heq; discriminate Heq.
    + rewrite string_length_app. cbn [String.length]. lia.
Qed.

Lemma scan_lines_app (ls : list string) (tail : string) :
  Forall (λ line, has_byte LF line = false ∧
                  Z.of_nat (String.length line) < MaxScanTokenSize) ls →
  scan_lines (file_image ls +:+ tail) EmptyString =
    let '(tokens, tooLong) := scan_lines tail EmptyString in
    (map dropCR ls ++ tokens, tooLong).
Proof.
  induction 1 as [|line rest [Hlf Hlen] _ IH].
  - cbn [file_image map]. rewrite string_app_nil_l.
    by destruct (scan_lines tail EmptyString).
  - cbn [file_image map]. rewrite string_app_assoc, string_app_cons.
    rewrite scan_one_line by (cbn; done || lia). rewrite IH.
    by destruct (scan_lines tail EmptyString).
Qed.

(** X11. A last line without newline is loaded like the others, and the
    save that follows ends the file with a newline. *)
Theorem unterminated_last_line (name : string) (fs : FileSystem)
    (ls : list string) (last : string) (writable : bool) :
  Forall (λ line, has_byte LF line = false ∧ ends_with CR line = false ∧
                  Z.of_nat (String.length line) < MaxScanTokenSize) (ls ++ [last]) →
  last ≠ EmptyString →
  nodes fs !! name = Some (RegularFile (file_image ls +:+ last) true writable) →
  NewFileEditor name fs = (Some (mkFileEditor name (ls ++ [last]) false), None) ∧
  ∀ fe' fs',
    save (mkFileEditor name (ls ++ [last]) false) fs = (fe', fs', None) →
    ∃ r w, nodes fs' !! name =
             Some (RegularFile (file_image ls +:+ last +:+ String LF EmptyString) r w).
Proof.
  intros Hlines Hne Hnode. apply Forall_app in Hlines as [Hls Hlast].
  apply Forall_singleton in Hlast as (Hlf & Hcr & Hlen). split.
  - unfold NewFileEditor, loadFile. cbn [filename]. rewrite Hnode. cbn [os_Open Scanner].
    rewrite scan_lines_app by (eapply Forall_impl; [exact Hls|]; cbn; tauto).
    rewrite scan_last_line by (done || cbn; lia).
    rewrite load_tokens. cbn. rewrite dropCR_id by done.
    rewrite map_dropCR_id; [done|]. eapply Forall_impl; [exact Hls|]. cbn. tauto.
  - intros fe' fs' Hsave. destruct (save_image _ _ _ _ Hsave) as (r & w & Hfile & _).
    exists r, w. cbn [filename lines] in Hfile. rewrite Hfile. do 2 f_equal.
    clear. induction ls as [|l ls IH]; [done|].
    cbn [app file_image]. by rewrite IH, !string_app_assoc.
Qed.

Lemma unterminated_last_line_witness :
  let fs := mkFileSystem {[ "notes.txt" := RegularFile "ab" true true ]} 10 in
  NewFileEditor "notes.txt" fs = (Some (mkFileEditor "notes.txt" ["ab"] false), None).
Proof.
  cbv zeta.
  destruct (unterminated_last_line "notes.txt"
              (mkFileSystem {[ "notes.txt" := RegularFile "ab" true true ]} 10)
              [] "ab" true) as [Hload _]; [repeat constructor|discriminate| |exact Hload].
  vm_compute. reflexivity.
Defined.

(** ** What a failed save leaves *)

Lemma string_app_nonempty_r (s t : string) : t ≠ EmptyString → s +:+ t ≠ EmptyString.
Proof.
  intros Ht Hempty. apply (f_equal String.length) in Hempty.
  rewrite string_length_app in Hempty. destruct t; [done|]. cbn in Hempty. lia.
Qed.

Lemma written_more (more : string) (w : Writer) (d : string) :
  werr w = true → written w d → written w (d +:+ more).
Proof.
  unfold written. intros -> (Hroom & lost & Hlost & ->). split; [done|].
  exists (lost +:+ more). split.
  - intros Hempty. apply (f_equal String.length) in Hempty.
    rewrite string_length_app in Hempty. destruct lost; [done|]. cbn in Hempty. lia.
  - by rewrite string_app_assoc.
Qed.

Lemma Flush_written (w : Writer) (d : string) :
  written w d → written (Flush w) d.
Proof.
  unfold Flush. destruct (werr w) eqn:Herr; [done|].
  unfold written. rewrite Herr. intros ->.
  destruct (Nat.leb_spec (String.length (wbuf w)) (wroom w)) as [Hfit|Hshort].
  - cbn. unfold sent. cbn. by rewrite string_app_nil_r.
  - cbn [werr wroom wfile]. split; [done|].
    exists (String.substring (wroom w) (String.length (wbuf w) - wroom w) (wbuf w)).
    split; [apply substring_rest_nonempty; lia|].
    unfold sent. rewrite string_app_assoc. f_equal. symmetry. apply substring_split. lia.
Qed.

Lemma copy_in_written (w : Writer) (s d : string) :
  werr w = false → written w d → written (copy_in w s) (d +:+ s).
Proof.
  unfold written. intros Herr. rewrite Herr. cbn [copy_in werr]. rewrite Herr.
  intros ->. by rewrite copy_in_sent.
Qed.

Lemma write_through_written (w : Writer) (s d : string) :
  werr w = false → wbuf w = EmptyString →
  written w d → written (write_through w s) (d +:+ s).
Proof.
  unfold written. intros Herr Hbuf. rewrite Herr. intros ->.
  unfold write_through, sent. rewrite Hbuf, string_app_nil_r.
  destruct (Nat.leb_spec (String.length s) (wroom w)) as [Hfits|Hshort]; cbn.
  - by rewrite string_app_nil_r.
  - split; [done|].
    exists (String.substring (wroom w) (String.length s - wroom w) s).
    split; [apply substring_rest_nonempty; lia|].
    rewrite string_app_assoc. f_equal. symmetry. apply substring_split. lia.
Qed.

Lemma WriteString_written (s : string) (w : Writer) (d : string) :
  written w d → written (WriteString w s) (d +:+ s).
Proof.
  intros Hw. unfold WriteString. destruct (werr w) eqn:Herr; [by apply written_more|].
  destruct (Nat.leb_spec (String.length s) (Available w)) as [Hfits|Hlong].
  { by apply copy_in_written. }
  destruct (Nat.eqb_spec (String.length (wbuf w)) 0) as [Hempty|Hheld].
  { by apply write_through_written; [|apply length_zero_empty|]. }
  set (pre := String.substring 0 (Available w) s).
  set (rest := String.substring (Available w) (String.length s - Available w) s).
  assert (Hs : pre +:+ rest = s) by (apply substring_split; lia).
  pose proof (Flush_written _ _ (copy_in_written w pre d Herr Hw)) as Hflush.
  replace (d +:+ s) with ((d +:+ pre) +:+ rest) by (by rewrite string_app_assoc, Hs).
  destruct (werr (Flush (copy_in w pre))) eqn:Herr1; [by apply written_more|].
  destruct (Flush_ok _ Herr1) as (_ & _ & Hbuf).
  destruct (Nat.leb_spec (String.length rest) (Available (Flush (copy_in w pre)))).
  - by apply copy_in_written.
  - by apply write_through_written.
Qed.

Lemma write_lines_written (ls : list string) (w w' : Writer) (d : string) (ok : bool) :
  written w d → werr w = false →
  write_lines w ls = (w', ok) →
  written w' (d +:+ file_image ls) ∧ werr w' = negb ok.
Proof.
  revert w d. induction ls as [|line rest IH]; intros w d Hw Herr; cbn [write_lines].
  - intros [= <- <-]. by rewrite string_app_nil_r.
  - pose proof (WriteString_written (line +:+ String LF EmptyString) w d Hw) as Hline.
    destruct (werr (WriteString w (line +:+ String LF EmptyString))) eqn:Herr'.
    + intros [= <- <-]. split; [|done]. cbn [file_image].
      replace (d +:+ line +:+ String LF (file_image rest))
        with ((d +:+ line +:+ String LF EmptyString) +:+ file_image rest)
        by (by rewrite !string_app_assoc).
      by apply written_more.
    + intros Hrest. cbn [file_image].
      replace (d +:+ line +:+ String LF (file_image rest))
        with ((d +:+ line +:+ String LF EmptyString) +:+ file_image rest)
        by (by rewrite !string_app_assoc).
      by eapply IH.
Qed.

(** X12. A save that fails leaves the editor as it was.  If the file could
    not be created the disk is untouched.  If writing failed, the old
    content is gone: the file holds a proper prefix of what the save was
    writing, and the device takes no more. *)
Theorem failed_save_truncates (fe fe' : FileEditor) (fs fs' : FileSystem) (e : error) :
  save fe fs = (fe', fs', Some e) →
  fe' = fe ∧
  ((e = cannot_create_file ∧ fs' = fs) ∨
   ((e = error_writing_line ∨ e = error_flushing_writer) ∧
    room fs' = 0%nat ∧
    ∃ kept lost readable writable,
      nodes fs' !! filename fe = Some (RegularFile kept readable writable) ∧
      lost ≠ EmptyString ∧
      file_image (lines fe) = kept +:+ lost)).
Proof.
  unfold save. destruct (os_Create fs (filename fe)) as [fs1|] eqn:Hcreate;
    [|intros [= <- <- <-]; split; [done|by left]].
  assert (Hnode : ∃ r wr, nodes fs1 !! filename fe = Some (RegularFile EmptyString r wr)).
  { destruct (os_Create_ok _ _ _ Hcreate) as (Hnew & _). by exists true, true. }
  destruct Hnode as (r & wr & Hnode).
  assert (Hclose : ∀ w (err : error),
            (err = error_writing_line ∨ err = error_flushing_writer) →
            werr w = true → written w (file_image (lines fe)) →
            room (close_file fs1 (filename fe) w) = 0%nat ∧
            ∃ kept lost readable writable,
              nodes (close_file fs1 (filename fe) w) !! filename fe =
                Some (RegularFile kept readable writable) ∧
              lost ≠ EmptyString ∧ file_image (lines fe) = kept +:+ lost).
  { intros w err _ Herr Hw. unfold written in Hw. rewrite Herr in Hw.
    destruct Hw as (Hroom & lost & Hlost & Himage).
    unfold close_file. rewrite Hnode. cbn. split; [done|].
    exists (wfile w), lost, r, wr. by rewrite lookup_insert_eq. }
  destruct (write_lines (NewWriter (room fs1)) (lines fe)) as [w ok] eqn:Hwrite.
  destruct (write_lines_written (lines fe) (NewWriter (room fs1)) w EmptyString ok)
    as [Hw Herr]; [done|done|done|]. rewrite string_app_nil_l in Hw.
  destruct ok; cbn [negb] in Herr.
  - pose proof (Flush_written w _ Hw) as Hflush.
    destruct (werr (Flush w)) eqn:Herr'; [|discriminate].
    intros [= <- <- <-]. split; [done|]. right. split; [by right|].
    by eapply Hclose; [right| |].
  - intros [= <- <- <-]. split; [done|]. right. split; [by left|].
    by eapply Hclose; [left| |].
Qed.

Lemma failed_save_truncates_witness :
  let fe := mkFileEditor "notes.txt" ["abc"; "de"] true in
  let fs := mkFileSystem {[ "notes.txt" := RegularFile "old" true true ]} 2 in
  ∃ fs', save fe fs = (fe, fs', Some error_flushing_writer) ∧
         ∃ kept lost readable writable,
           nodes fs' !! "notes.txt" = Some (RegularFile kept readable writable) ∧
           lost ≠ EmptyString ∧ file_image ["abc"; "de"] = kept +:+ lost.
Proof.
  cbv zeta.
  destruct (save (mkFileEditor "notes.txt" ["abc"; "de"] true)
              (mkFileSystem {[ "notes.txt" := RegularFile "old" true true ]} 2))
    as [[fe' fs'] err] eqn:Hsave.
  pose proof Hsave as Hval. vm_compute in Hval. injection Hval as <- _ <-.
  exists fs'. split; [done|].
  destruct (failed_save_truncates _ _ _ _ _ Hsave) as [_ [[Hcreate _]|(_ & _ & Hkept)]];
    [discriminate|exact Hkept].
Defined.

(** ** The command loop of [main] *)

Section Main.
Context `{Regexp} `{Strings}.

Lemma dispatch_exec (command : string) (parts : list string) (s : Session) :
  (dispatch command parts s).1 =
    match parse command parts with
    | Some c => (exec c s).1
    | None => s
    end.
Proof.
  unfold dispatch, parse.
  destruct (bool_decide (command = "display" ∨ command = "d")) eqn:Hdisplay.
  { apply bool_decide_eq_true in Hdisplay. by destruct Hdisplay as [-> | ->]. }
  repeat lazymatch goal with
  | |- context [String.eqb command ?k] =>
      destruct (String.eqb command k);
        [repeat case_match; simplify_eq; cbn [exec fst];
         repeat case_match; simplify_eq; done|]
  end.
  repeat case_match; simplify_eq; cbn [exec fst]; repeat case_match; simplify_eq; done.
Qed.


Lemma emit_outcome (outs : list Output) (r : list Output * Outcome) :
  (emit outs r).2 = r.2.
Proof. done. Qed.

(** A property of the session that every case of the [switch] and every
    save keeps holds of the session the loop ends with. *)
Lemma main_loop_invariant (P : Session → Prop) :
  (∀ text command words s,
     Fields (TrimSpace text) = command :: words →
     P s → P (dispatch command (command :: words) s).1) →
  (∀ s, P s → P (exec cmd_save s).1) →
  ∀ inputs s, P s →
    match (main_loop inputs s).2 with
    | Exited s' | Ended s' => P s'
    | Panicked => True
    end.
Proof.
  intros Hdispatch Hsave inputs.
  assert (Hn : ∀ n inputs, (length inputs ≤ n)%nat → ∀ s, P s →
            match (main_loop inputs s).2 with
            | Exited s' | Ended s' => P s'
            | Panicked => True
            end); [|by apply (Hn (length inputs))].
  clear inputs. induction n as [|n IH]; intros inputs Hlen s Hs.
  - destruct inputs; [done|cbn in Hlen; lia].
  - destruct inputs as [|text rest]; [done|]. cbn [length] in Hlen. cbn [main_loop].
    destruct (String.eqb (TrimSpace text) EmptyString).
    { rewrite emit_outcome. apply IH; [lia|done]. }
    destruct (Fields (TrimSpace text)) as [|command words] eqn:Hfields; [done|].
    destruct (bool_decide (command = "quit" ∨ command = "q")).
    + destruct (modified (editor s)); [|done].
      destruct rest as [|answer rest']; [done|].
      destruct (bool_decide _); [|done].
      specialize (Hsave s Hs). cbn [exec] in Hsave.
      destruct (save (editor s) (disk s)) as [[fe fs] [e|]]; cbn [fst] in Hsave; [|done].
      rewrite emit_outcome. apply IH; [cbn [length] in Hlen; lia|done].
    + specialize (Hdispatch text command words s Hfields Hs).
      destruct (dispatch command (command :: words) s) as [s' outs].
      rewrite emit_outcome. apply IH; [lia|done].
Qed.

(** The session [main] ends with is the result of a run of commands. *)
Lemma main_loop_run (inputs : list string) (s : Session) :
  match (main_loop inputs s).2 with
  | Exited s' | Ended s' => ∃ cs, s' = run cs s
  | Panicked => True
  end.
Proof.
  apply (main_loop_invariant (λ s', ∃ cs, s' = run cs s)).
  - intros text command words s1 _ [cs ->]. rewrite dispatch_exec.
    destruct (parse command (command :: words)) as [c|]; [|by exists cs].
    exists (cs ++ [c]). unfold run. by rewrite fold_left_app.
  - intros s1 [cs ->]. exists (cs ++ [cmd_save]). unfold run. by rewrite fold_left_app.
  - by exists [].
Qed.

(** X13. With the [strings] package splitting a line that is not blank
    into at least one word, [main] never indexes an empty slice of words:
    the loop ends at [quit] or at the end of the input. *)
Theorem main_loop_never_panics (inputs : list string) (s : Session) :
  (∀ text, TrimSpace text ≠ EmptyString → Fields (TrimSpace text) ≠ []) →
  (main_loop inputs s).2 ≠ Panicked.
Proof.
  intros Hwords.
  assert (Hn : ∀ n inputs, (length inputs ≤ n)%nat → ∀ s,
            (main_loop inputs s).2 ≠ Panicked); [|by apply (Hn (length inputs))].
  clear inputs s. induction n as [|n IH]; intros inputs Hlen s.
  - destruct inputs; [done|cbn in Hlen; lia].
  - destruct inputs as [|text rest]; [done|]. cbn [length] in Hlen. cbn [main_loop].
    destruct (String.eqb_spec (TrimSpace text) EmptyString) as [|Hinput].
    { rewrite emit_outcome. apply IH. lia. }
    specialize (Hwords text Hinput).
    destruct (Fields (TrimSpace text)) as [|command words]; [done|].
    destruct (bool_decide (command = "quit" ∨ command = "q")).
    + destruct (modified (editor s)); [|done].
      destruct rest as [|answer rest']; [done|].
      destruct (bool_decide _); [|done].
      destruct (save (editor s) (disk s)) as [[fe fs] [e|]]; [|done].
      rewrite emit_outcome. apply IH. cbn [length] in Hlen. lia.
    + destruct (dispatch command (command :: words) s) as [s' outs].
      rewrite emit_outcome. apply IH. lia.
Qed.

Lemma dispatch_disk (command : string) (parts : list string) (s : Session) :
  writes_file command = false →
  disk (dispatch command parts s).1 = disk s.
Proof.
  intros Hcommand. rewrite dispatch_exec. unfold parse.
  assert (Hsave : bool_decide (command = "save" ∨ command = "w") = false).
  { apply bool_decide_eq_false. apply bool_decide_eq_false in Hcommand. tauto. }
  rewrite Hsave.
  repeat case_match; simplify_eq; try done; cbn [exec];
    repeat case_match; simplify_eq; done.
Qed.

(** X14. Only [save], [w] and [quit] write the file: on an input whose
    lines name none of them the loop runs to the end of the input and
    the disk is as it was, whatever was edited. *)
Theorem edits_never_write_the_file (inputs : list string) (s : Session) :
  Forall (λ text, ∀ command words,
            Fields (TrimSpace text) = command :: words →
            writes_file command = false) inputs →
  match (main_loop inputs s).2 with
  | Ended s' => disk s' = disk s
  | Exited _ => False
  | Panicked => ∃ text, text ∈ inputs ∧ TrimSpace text ≠ EmptyString ∧
                        Fields (TrimSpace text) = []
  end.
Proof.
  intros Hinputs. revert s.
  induction Hinputs as [|text rest Htext _ IH]; intros s; [done|].
  cbn [main_loop].
  destruct (String.eqb_spec (TrimSpace text) EmptyString) as [|Hinput].
  { rewrite emit_outcome. specialize (IH s).
    destruct (main_loop rest s).2; [done..|].
    destruct IH as (t & Ht & Hrest). exists t. split; [by right|done]. }
  destruct (Fields (TrimSpace text)) as [|command words] eqn:Hfields.
  { exists text. split; [by left|done]. }
  specialize (Htext command words eq_refl).
  assert (Hquit : bool_decide (command = "quit" ∨ command = "q") = false).
  { apply bool_decide_eq_false. apply bool_decide_eq_false in Htext. tauto. }
  rewrite Hquit.
  pose proof (dispatch_disk command (command :: words) s Htext) as Hdisk.
  destruct (dispatch command (command :: words) s) as [s' outs]. cbn [fst] in Hdisk.
  rewrite emit_outcome. specialize (IH s').
  destruct (main_loop rest s').2; [done|by rewrite IH|].
  destruct IH as (t & Ht & Hrest). exists t. split; [by right|done].
Qed.

(** X15. [quit] never drops unsaved changes in silence: when the loop
    exits with a modified buffer, the last things printed are the warning
    and the farewell. *)
Theorem quit_warns_of_unsaved_changes (inputs : list string) (s s' : Session)
    (outs : list Output) :
  main_loop inputs s = (outs, Exited s') →
  modified (editor s') = true →
  ∃ before, outs = before ++ [out_unsaved; out_goodbye].
Proof.
  assert (Hn : ∀ n inputs, (length inputs ≤ n)%nat → ∀ s outs,
            main_loop inputs s = (outs, Exited s') →
            modified (editor s') = true →
            ∃ before, outs = before ++ [out_unsaved; out_goodbye]);
    [|by apply (Hn (length inputs))].
  clear inputs s outs. induction n as [|n IH]; intros inputs Hlen s outs.
  - destruct inputs; [done|cbn in Hlen; lia].
  - destruct inputs as [|text rest]; [done|]. cbn [length] in Hlen. cbn [main_loop].
    assert (Hemit : ∀ pre rest0 s0,
              (length rest0 ≤ n)%nat →
              emit pre (main_loop rest0 s0) = (outs, Exited s') →
              modified (editor s') = true →
              ∃ before, outs = before ++ [out_unsaved; out_goodbye]).
    { intros pre rest0 s0 Hle Heq Hmod.
      destruct (main_loop rest0 s0) as [outs0 o] eqn:Hloop.
      unfold emit in Heq. cbn [fst snd] in Heq. injection Heq as <- ->.
      destruct (IH rest0 Hle s0 outs0 Hloop Hmod) as [before ->].
      exists (pre ++ before). by rewrite app_assoc. }
    destruct (String.eqb (TrimSpace text) EmptyString); [apply Hemit; lia|].
    destruct (Fields (TrimSpace text)) as [|command words]; [done|].
    destruct (bool_decide (command = "quit" ∨ command = "q")).
    + destruct (modified (editor s)) eqn:Hmod.
      * destruct rest as [|answer rest'].
        { intros [= <- <-] _. by exists [out_prompt]. }
        destruct (bool_decide _).
        -- pose proof (save_flag (editor s) (disk s)) as Hflag.
           destruct (save (editor s) (disk s)) as [[fe fs] [e|]].
           ++ apply Hemit. cbn [length] in Hlen. lia.
           ++ intros [= <- <-] _. by exists [out_prompt].
        -- intros [= <- <-] _. by exists [out_prompt].
      * intros [= <- <-]. by rewrite Hmod.
    + destruct (dispatch command (command :: words) s) as [s1 outs1].
      apply Hemit. lia.
Qed.


(** *** Newlines *)

Lemma Join_no_byte (c : ascii) (words : list string) :
  Ascii.eqb " " c = false →
  Forall (λ w, has_byte c w = false) words →
  has_byte c (Join words " ") = false.
Proof.
  intros Hc Hwords. induction Hwords as [|w rest Hw Hrest IH]; [done|].
  cbn [Join]. destruct rest as [|w' rest']; [done|].
  rewrite !has_byte_app, Hw, IH. cbn [has_byte]. by rewrite Hc.
Qed.

Lemma replace_loop_no_newline (regex : regexp) (replacement : string) (global : bool)
    (ls : list string) :
  (∀ src, has_byte LF src = false →
          has_byte LF (ReplaceAllString regex src replacement) = false) →
  ∀ count, no_newline ls →
           no_newline (replace_loop regex replacement global ls count).1.
Proof.
  intros Hrepl count Hls. revert count.
  induction Hls as [|line rest Hline Hrest IH]; intros count; [constructor|].
  cbn [replace_loop]. destruct global.
  - destruct (negb _).
    + specialize (IH (count + 1)).
      destruct (replace_loop regex replacement true rest (count + 1)) as [rest' count'].
      constructor; [by apply Hrepl|done].
    + specialize (IH count).
      destruct (replace_loop regex replacement true rest count) as [rest' count'].
      by constructor.
  - destruct (MatchString regex line).
    + constructor; [by apply Hrepl|done].
    + specialize (IH count).
      destruct (replace_loop regex replacement false rest count) as [rest' count'].
      by constructor.
Qed.

Lemma searchAndReplace_no_newline (fe : FileEditor) (pattern replacement : string)
    (global : bool) :
  (∀ regex src repl,
     has_byte LF src = false → has_byte LF repl = false →
     has_byte LF (ReplaceAllString regex src repl) = false) →
  has_byte LF replacement = false →
  no_newline (lines fe) →
  no_newline (lines (searchAndReplace fe pattern replacement global).1).
Proof.
  intros Hlaw Hrepl Hlines. unfold searchAndReplace.
  destruct (Compile pattern) as [regex|]; [|done].
  pose proof (replace_loop_no_newline regex replacement global (lines fe)
                (λ src Hsrc, Hlaw regex src replacement Hsrc Hrepl) 0 Hlines) as Hloop.
  destruct (replace_loop regex replacement global (lines fe) 0) as [ls count].
  by destruct (count >? 0).
Qed.

Lemma copyLines_no_newline (fe : FileEditor) (start end_ : Z) :
  no_newline (lines fe) →
  no_newline (copyLines fe start end_).2.1.
Proof.
  intros Hlines. unfold copyLines. destruct (_ || _); [constructor|]. cbn [fst snd].
  apply Forall_app. split.
  - by apply Forall_take, Forall_drop, Forall_take.
  - apply Forall_drop, Forall_replicate. done.
Qed.

Lemma exec_no_newline (c : Command) (s : Session) :
  (∀ regex src repl,
     has_byte LF src = false → has_byte LF repl = false →
     has_byte LF (ReplaceAllString regex src repl) = false) →
  carries_no_newline c →
  no_newline (lines (editor s)) ∧ no_newline (clipboard s) →
  no_newline (lines (editor (exec c s).1)) ∧ no_newline (clipboard (exec c s).1).
Proof.
  intros Hlaw Hc [Hlines Hclip]. destruct c; cbn [exec carries_no_newline] in *.
  - unfold insertLine. destruct (_ || _); [done|]. cbn. split; [|done].
    apply Forall_app. split; [by apply Forall_take|].
    constructor; [done|by apply Forall_drop].
  - unfold deleteLine. destruct (_ || _); [done|]. cbn. split; [|done].
    apply Forall_app. split; [by apply Forall_take|by apply Forall_drop].
  - unfold replaceLine. destruct (_ || _); [done|]. cbn. split; [|done].
    by apply Forall_insert.
  - cbn. split; [|done]. apply Forall_app. split; [done|by constructor].
  - unfold search. by destruct (Compile pattern).
  - pose proof (searchAndReplace_no_newline (editor s) pattern replacement false
                  Hlaw Hc Hlines) as Hafter.
    destruct (searchAndReplace (editor s) pattern replacement false) as [fe [count [e|]]];
      by cbn in *.
  - pose proof (searchAndReplace_no_newline (editor s) pattern replacement true
                  Hlaw Hc Hlines) as Hafter.
    destruct (searchAndReplace (editor s) pattern replacement true) as [fe [count [e|]]];
      by cbn in *.
  - pose proof (copyLines_no_newline (editor s) start end_ Hlines) as Hcopied.
    assert (Hfe : (copyLines (editor s) start end_).1 = editor s)
      by (unfold copyLines; by destruct (_ || _)).
    destruct (copyLines (editor s) start end_) as [fe [copied [e|]]];
      cbn in *; by subst.
  - destruct (len (clipboard s) =? 0); [done|].
    unfold pasteLines. destruct (_ || _); [done|]. cbn. split; [|done].
    apply Forall_app. split; [by apply Forall_take|].
    apply Forall_app. split; [done|by apply Forall_drop].
  - pose proof (save_flag (editor s) (disk s)) as Hflag.
    destruct (save (editor s) (disk s)) as [[fe fs] [e|]]; subst; by cbn.
Qed.

Lemma parse_no_newline (command : string) (parts : list string) (c : Command) :
  Forall (λ w, has_byte LF w = false) parts →
  parse command parts = Some c →
  carries_no_newline c.
Proof.
  intros Hparts. unfold parse.
  repeat case_match; intros [= <-]; simplify_eq; cbn [carries_no_newline]; try done.
  - apply (Join_no_byte LF (_ :: _)); [done|]. by do 2 apply Forall_cons_1 in Hparts as [_ Hparts].
  - apply (Join_no_byte LF (_ :: _)); [done|]. by do 2 apply Forall_cons_1 in Hparts as [_ Hparts].
  - apply (Join_no_byte LF (_ :: _)); [done|]. by apply Forall_cons_1 in Hparts as [_ Hparts].
  - by do 2 apply Forall_cons_1 in Hparts as [_ Hparts]; apply Forall_cons_1 in Hparts as [? _].
  - by do 2 apply Forall_cons_1 in Hparts as [_ Hparts]; apply Forall_cons_1 in Hparts as [? _].
Qed.

Lemma loaded_lines_no_newline (name : string) (fs : FileSystem) :
  match NewFileEditor name fs with
  | (Some fe, _) => no_newline (lines fe)
  | (None, _) => True
  end.
Proof.
  unfold NewFileEditor, loadFile. cbn [filename].
  destruct (nodes fs !! name) as [node|]; [|constructor].
  destruct (os_Open node) as [[data|]|]; cbn [Scanner]; [| |done].
  - destruct (scan_lines data EmptyString) as [tokens tooLong] eqn:Hscan.
    rewrite load_tokens. destruct tooLong; [done|]. cbn.
    eapply Forall_impl;
      [eapply (scan_lines_tokens data EmptyString); [reflexivity|exact Hscan]|].
    by intros line [Hline _].
  - done.
Qed.

(** X16. No line of the buffer ever holds a newline: the lines of a loaded
    file hold none, the words of a command hold none, and a replacement
    brings in only bytes of the line and of the replacement text.  So a
    save writes one line of the file for each line of the buffer. *)
Theorem buffer_never_holds_newline (args : list string) (stdin : option string)
    (fs : FileSystem) :
  (∀ text w, w ∈ Fields text → has_byte LF w = false) →
  (∀ regex src repl,
     has_byte LF src = false → has_byte LF repl = false →
     has_byte LF (ReplaceAllString regex src repl) = false) →
  match (main args stdin fs).2 with
  | exit_quit s | exit_end s => no_newline (lines (editor s))
  | _ => True
  end.
Proof.
  intros Hfields Hlaw. unfold main.
  destruct args as [|program [|name [|extra args]]]; try done.
  pose proof (loaded_lines_no_newline name fs) as Hload.
  destruct (NewFileEditor name fs) as [[fe|] err]; [|by destruct err].
  destruct (Scanner stdin) as [inputs scanErr].
  pose proof (main_loop_invariant
    (λ s, no_newline (lines (editor s)) ∧ no_newline (clipboard s))) as Hinv.
  cbv beta in Hinv. specialize (Hinv).
  assert (Hloop : match (main_loop inputs (mkSession fe [] fs)).2 with
                  | Exited s' | Ended s' =>
                      no_newline (lines (editor s')) ∧ no_newline (clipboard s')
                  | Panicked => True
                  end).
  { apply Hinv.
    - intros text command words s Hparts Hs. rewrite dispatch_exec.
      destruct (parse command (command :: words)) as [c|] eqn:Hparse; [|done].
      apply exec_no_newline; [done| |done].
      eapply parse_no_newline; [|exact Hparse]. rewrite <- Hparts.
      apply Forall_forall. intros w Hw. by eapply Hfields.
    - intros s Hs. by apply exec_no_newline.
    - split; [done|constructor]. }
  destruct (main_loop inputs (mkSession fe [] fs)) as [outs [s|s|]]; cbn [fst snd] in *.
  - by destruct Hloop.
  - destruct scanErr; [done|by destruct Hloop].
  - done.
Qed.

End Main.

(** X17. From the start of the program, whatever is typed: opening the
    file goes through in memory without a run-time panic, and the session
    the loop of [main] ends with is the one the memory holds after a run
    of the editor's commands that goes through without a panic. *)
Theorem main_runs_in_memory `{Regexp} `{Strings} `{Runtime}
    (name : string) (fs : FileSystem) (inputs : list string) (h : list (list string)) :
  ∃ r h0,
    Mem.NewFileEditor name fs h = Some (r, h0) ∧
    match r with
    | (Some ed, err) =>
        NewFileEditor name fs = (Some (view h0 ed), err) ∧
        match (main_loop inputs (mkSession (view h0 ed) [] fs)).2 with
        | Exited s' | Ended s' =>
            ∃ cs (ms : Mem.Session) h',
              Mem.run cs (Mem.mkSession ed Mem.nil fs) h0 = Some (ms, h') ∧
              view_session h' ms = s'
        | Panicked => True
        end
    | (None, err) => NewFileEditor name fs = (None, err)
    end.
Proof.
  destruct (NewFileEditor_simulates name fs h) as (r & h0 & Hnew & Hr).
  exists r, h0. split; [done|]. destruct r as [[ed|] err]; [|done].
  destruct Hr as [Hval Hok]. split; [done|].
  pose proof (main_loop_run inputs (mkSession (view h0 ed) [] fs)) as Hrun.
  destruct (main_loop inputs (mkSession (view h0 ed) [] fs)).2 as [s'|s'|]; [| |done].
  all: destruct Hrun as [cs ->].
  all: destruct (run_simulates cs h0 _ Hok) as (ms & h' & Hcs & Hvalcs & _).
  all: exists cs, ms, h'; split; [done|by rewrite <- Hvalcs].
Qed.

(** *** The packages on ASCII text keep the laws *)

Lemma Ascii7_fields_cur (s cur : string) :
  cur ≠ EmptyString → Ascii7.fields_from s cur ≠ [].
Proof.
  revert cur. induction s as [|c s IH]; intros cur Hcur; cbn [Ascii7.fields_from].
  - by destruct (String.eqb_spec cur EmptyString).
  - destruct (Ascii7.is_space c).
    + by destruct (String.eqb_spec cur EmptyString).
    + apply IH. by destruct cur.
Qed.

Lemma Ascii7_fields_blank (s cur : string) :
  Ascii7.fields_from s cur = [] →
  forallb Ascii7.is_space (list_ascii_of_string s) = true.
Proof.
  revert cur. induction s as [|c s IH]; intros cur; [done|].
  cbn [Ascii7.fields_from list_ascii_of_string forallb].
  destruct (Ascii7.is_space c).
  - destruct (String.eqb cur EmptyString); [apply IH|done].
  - intros Hnone. by apply Ascii7_fields_cur in Hnone; [|destruct cur].
Qed.

Lemma Ascii7_trim_right_blank (s : string) :
  forallb Ascii7.is_space (list_ascii_of_string (Ascii7.trim_right s)) = true →
  Ascii7.trim_right s = EmptyString.
Proof.
  induction s as [|c s IH]; [done|]. cbn [Ascii7.trim_right].
  destruct (Ascii7.trim_right s) as [|d t].
  - destruct (Ascii7.is_space c) eqn:Hc; [done|]. cbn. by rewrite Hc.
  - cbn [list_ascii_of_string forallb] in *. intros [_ Hrest]%andb_true_iff.
    by specialize (IH Hrest).
Qed.

Lemma Ascii7_Fields_nonempty (text : string) :
  Ascii7.TrimSpace text ≠ EmptyString → Ascii7.Fields (Ascii7.TrimSpace text) ≠ [].
Proof.
  intros Hinput Hnone. apply Hinput. unfold Ascii7.TrimSpace in *.
  by apply Ascii7_trim_right_blank, (Ascii7_fields_blank _ EmptyString).
Qed.

Lemma Ascii7_fields_no_space (c : ascii) (s : string) :
  Ascii7.is_space c = true →
  ∀ cur w, has_byte c cur = false → w ∈ Ascii7.fields_from s cur → has_byte c w = false.
Proof.
  intros Hc. induction s as [|b s IH]; intros cur w Hcur; cbn [Ascii7.fields_from].
  - destruct (String.eqb cur EmptyString); [by intros ?%elem_of_nil|].
    by intros ->%list_elem_of_singleton.
  - destruct (Ascii7.is_space b) eqn:Hb.
    + destruct (String.eqb cur EmptyString); [by apply IH|].
      intros [->|Hw]%elem_of_cons; [done|by apply (IH EmptyString)].
    + apply IH. rewrite has_byte_app, Hcur. cbn [has_byte].
      destruct (Ascii.eqb_spec b c) as [->|]; [by rewrite Hc in Hb|done].
Qed.

Lemma Ascii7_Fields_no_newline (text w : string) :
  w ∈ Ascii7.Fields text → has_byte LF w = false.
Proof. by apply (Ascii7_fields_no_space LF text eq_refl EmptyString). Qed.

Lemma Literal_replace_keeps (c : ascii) (p src repl : string) :
  has_byte c src = false → has_byte c repl = false →
  has_byte c (Literal.ReplaceAllString p src repl) = false.
Proof.
  intros Hsrc Hrepl. unfold Literal.ReplaceAllString. generalize O as skip.
  induction src as [|b src IH]; intros skip; [done|].
  cbn [has_byte] in Hsrc. apply orb_false_iff in Hsrc as [Hb Hsrc].
  cbn [Literal.replace_from]. destruct skip as [|k]; [|by apply IH].
  destruct (Literal.has_prefix p (String b src)).
  - by rewrite has_byte_app, Hrepl, IH.
  - cbn [has_byte]. by rewrite Hb, IH.
Qed.

(** *** The loop on concrete input *)

Lemma main_loop_never_panics_witness :
  (@main_loop LiteralRegexp AsciiStrings
     ["append a"; "   "; "quit now"; "y"; "bogus"]
     (mkSession (mkFileEditor "notes.txt" [] false) [] (mkFileSystem ∅ 0))).2 ≠ Panicked.
Proof.
  apply (@main_loop_never_panics LiteralRegexp AsciiStrings).
  exact Ascii7_Fields_nonempty.
Defined.

Lemma edits_never_write_the_file_witness :
  let s := mkSession (mkFileEditor "notes.txt" ["a"] false) []
             (mkFileSystem {[ "notes.txt" := RegularFile (file_image ["a"]) true true ]} 100) in
  ∃ s', (@main_loop LiteralRegexp AsciiStrings
           ["append b"; "insert 1 c d"; "global a e"; "copy 1 2"; "paste 1"] s).2 = Ended s' ∧
        disk s' = disk s ∧
        lines (editor s') = ["c d"; "e"; "c d"; "e"; "b"] ∧
        modified (editor s') = true.
Proof.
  intros s.
  pose proof (@edits_never_write_the_file LiteralRegexp AsciiStrings
    ["append b"; "insert 1 c d"; "global a e"; "copy 1 2"; "paste 1"] s) as Hkept.
  destruct (@main_loop LiteralRegexp AsciiStrings
              ["append b"; "insert 1 c d"; "global a e"; "copy 1 2"; "paste 1"] s).2
    as [s'|s'|] eqn:Hloop; [discriminate Hloop| |discriminate Hloop].
  exists s'. split; [reflexivity|]. split.
  - apply Hkept. repeat constructor; intros command words [= <- _]; reflexivity.
  - vm_compute in Hloop. injection Hloop as <-. split; reflexivity.
Defined.

Lemma quit_warns_of_unsaved_changes_witness :
  ∃ before,
    (@main_loop LiteralRegexp AsciiStrings ["append a"; "quit"; "n"]
       (mkSession (mkFileEditor "notes.txt" [] false) [] (mkFileSystem ∅ 100))).1 =
    before ++ [out_unsaved; out_goodbye].
Proof.
  destruct (@main_loop LiteralRegexp AsciiStrings ["append a"; "quit"; "n"]
              (mkSession (mkFileEditor "notes.txt" [] false) [] (mkFileSystem ∅ 100)))
    as [outs o] eqn:Hloop.
  assert (Ho : ∃ s', o = Exited s' ∧ modified (editor s') = true).
  { vm_compute in Hloop. injection Hloop as _ <-. eexists. split; reflexivity. }
  destruct Ho as (s' & -> & Hmod).
  exact (@quit_warns_of_unsaved_changes LiteralRegexp AsciiStrings _ _ s' outs Hloop Hmod).
Defined.

Lemma buffer_never_holds_newline_witness :
  match (@main LiteralRegexp AsciiStrings ["file-editor"; "notes.txt"]
           (Some (file_image ["append b c"; "global b d"; "save"; "quit"]))
           (mkFileSystem {[ "notes.txt" := RegularFile (file_image ["a"; "b"]) true true ]} 100)).2
  with
  | exit_quit s => no_newline (lines (editor s)) ∧ lines (editor s) = ["a"; "d"; "d c"]
  | _ => False
  end.
Proof.
  pose proof (@buffer_never_holds_newline LiteralRegexp AsciiStrings
    ["file-editor"; "notes.txt"]
    (Some (file_image ["append b c"; "global b d"; "save"; "quit"]))
    (mkFileSystem {[ "notes.txt" := RegularFile (file_image ["a"; "b"]) true true ]} 100)
    Ascii7_Fields_no_newline (Literal_replace_keeps LF)) as Hclean.
  destruct (@main LiteralRegexp AsciiStrings ["file-editor"; "notes.txt"]
           (Some (file_image ["append b c"; "global b d"; "save"; "quit"]))
           (mkFileSystem {[ "notes.txt" := RegularFile (file_image ["a"; "b"]) true true ]} 100)).2
    as [| | | |s|s] eqn:Hmain; try discriminate Hmain.
  split; [exact Hclean|]. vm_compute in Hmain. injection Hmain as <-. reflexivity.
Defined.

(** ** What is shown *)

Lemma display_rows_lookup (ls : list string) :
  ∀ (i : Z) (k : nat),
    display_rows i ls !! k = (λ line, (i + Z.of_nat k + 1, line)) <$> ls !! k.
Proof.
  induction ls as [|line rest IH]; intros i k; [done|].
  cbn [display_rows]. destruct k as [|k]; cbn [lookup list_lookup fmap option_fmap option_map].
  - f_equal. f_equal. lia.
  - change ((display_rows (i + 1) rest) !! k =
            (λ line0, (i + Z.of_nat (S k) + 1, line0)) <$> rest !! k).
    rewrite IH. destruct (rest !! k); [|done]. cbn. f_equal. f_equal. lia.
Qed.

(** X18. The number shown beside a line is the number the commands take:
    [display] shows the pair of [n] and a text exactly when [n] is a
    position of the buffer and the text is the line there, and the total
    it prints is the number of lines. *)
Theorem display_numbers_address_lines (fe : FileEditor) (name : string)
    (rows : list (Z * string)) (total n : Z) (line : string) :
  display fe = out_display name rows total →
  total = len (lines fe) ∧
  ((n, line) ∈ rows ↔ 1 ≤ n ≤ total ∧ lines fe !! Z.to_nat (n - 1) = Some line).
Proof.
  unfold display. intros [= <- <- <-]. split; [done|]. rewrite list_elem_of_lookup. split.
  - intros [k Hk]. rewrite display_rows_lookup in Hk.
    destruct (lines fe !! k) as [line'|] eqn:Hline; [|done].
    cbn in Hk. injection Hk as <- <-.
    apply lookup_lt_Some in Hline as Hlt. unfold len.
    replace (Z.to_nat (0 + Z.of_nat k + 1 - 1)) with k by lia. split; [lia|done].
  - intros [Hn Hline]. exists (Z.to_nat (n - 1)). rewrite display_rows_lookup, Hline.
    cbn. f_equal. f_equal. lia.
Qed.

Lemma display_numbers_address_lines_witness :
  ((2, "b") ∈ display_rows 0 ["a"; "b"; "c"] ↔
   1 ≤ 2 ≤ 3 ∧ ["a"; "b"; "c"] !! Z.to_nat (2 - 1) = Some "b").
Proof.
  apply (display_numbers_address_lines (mkFileEditor "notes.txt" ["a"; "b"; "c"] true)
           "notes.txt" (display_rows 0 ["a"; "b"; "c"]) 3 2 "b" eq_refl).
Defined.

(** ** The room a save takes *)

Lemma write_lines_room (ls : list string) (w w' : Writer) :
  write_lines w ls = (w', true) →
  (String.length (wfile w') + wroom w' = String.length (wfile w) + wroom w)%nat.
Proof.
  revert w. induction ls as [|line rest IH]; intros w; cbn [write_lines].
  - by intros [= <-].
  - destruct (werr (WriteString w (line +:+ String LF EmptyString))) eqn:Hline;
      [discriminate|].
    intros Hrest. rewrite (IH _ Hrest). by apply WriteString_room.
Qed.

(** X19. A save takes from the device exactly the bytes of the lines with
    their newlines, and truncating the file first gives back the bytes it
    held.  So after a save that returned no error, the room left and the
    bytes written add up to the room there was and the bytes the file
    held; and unless the file cannot be created, the save returns no
    error when, and only when, the lines with their newlines fit in the
    room there was and the bytes the file held. *)
Theorem save_takes_its_room (fe : FileEditor) (fs : FileSystem) :
  ((save fe fs).2 = None →
     (room fs + held fs (filename fe) =
      String.length (file_image (lines fe)) + room (save fe fs).1.2)%nat) ∧
  ((save fe fs).2 ≠ Some cannot_create_file →
     ((save fe fs).2 = None ↔
      (String.length (file_image (lines fe)) ≤ room fs + held fs (filename fe))%nat)).
Proof.
  assert (Hroom : (save fe fs).2 = None →
            (room fs + held fs (filename fe) =
             String.length (file_image (lines fe)) + room (save fe fs).1.2)%nat).
  { unfold save. destruct (os_Create fs (filename fe)) as [fs1|] eqn:Hcreate; [|done].
    destruct (os_Create_ok _ _ _ Hcreate) as (Hnode & Hmore & _).
    destruct (write_lines (NewWriter (room fs1)) (lines fe)) as [w [|]] eqn:Hwrite; [|done].
    destruct (werr (Flush w)) eqn:Hflush; [done|]. intros _.
    cbn [fst snd]. unfold close_file. cbn [filename set_modified]. rewrite Hnode. cbn [room].
    pose proof (write_lines_room _ _ _ Hwrite) as Hw.
    pose proof (Flush_room w Hflush) as Hf.
    destruct (Flush_ok w Hflush) as (Herr & Hfile & _).
    destruct (write_lines_ok _ (NewWriter (room fs1)) w eq_refl Hwrite) as [_ Hsent].
    rewrite Hfile, Hsent in Hf. unfold sent, NewWriter in Hf. cbn in Hf, Hw.
    rewrite string_app_nil_l in Hf. lia. }
  split; [exact Hroom|]. intros Hcreated. split.
  - intros Hok. specialize (Hroom Hok). lia.
  - intros Hfits. destruct (os_Create fs (filename fe)) as [fs1|] eqn:Hcreate.
    + destruct (save_fits fe fs fs1 Hcreate Hfits) as [fs' ->]. done.
    + exfalso. apply Hcreated. unfold save. by rewrite Hcreate.
Qed.

(** Saving the line ["a"] over a file that holds it, on a device with one
    byte of room left: the truncation gives back the two bytes of the
    file, the save succeeds, and one byte of room is left. *)
Lemma save_takes_its_room_witness :
  let fe := mkFileEditor "notes.txt" ["a"] true in
  let fs := mkFileSystem {[ "notes.txt" := RegularFile (file_image ["a"]) true true ]} 1 in
  (save fe fs).2 = None ∧ room (save fe fs).1.2 = 1%nat.
Proof.
  intros fe fs. destruct (save_takes_its_room fe fs) as [Hroom Hfits].
  assert (Hok : (save fe fs).2 = None).
  { apply Hfits; [vm_compute; discriminate|]. vm_compute. lia. }
  split; [exact Hok|]. specialize (Hroom Hok).
  change (room fs + held fs (filename fe))%nat with 3%nat in Hroom.
  change (String.length (file_image (lines fe))) with 2%nat in Hroom. lia.
Defined.

(** ** What a delete does to the memory *)



(** * The git front end *)

Lemma invocations_app (xs ys : list GitOps.Event) :
  GitOps.invocations (xs ++ ys) = GitOps.invocations xs ++ GitOps.invocations ys.
Proof.
  induction xs as [|[] xs IH]; cbn [app GitOps.invocations]; by rewrite ?IH.
Qed.

Lemma deeds_app (xs ys : list GitOps.Event) : deeds (xs ++ ys) = deeds xs ++ deeds ys.
Proof. induction xs as [|[] xs IH]; cbn [app deeds]; by rewrite ?IH. Qed.

Lemma preserves_ret {A} (I : GitOps.Console → Prop) (a : A) : preserves I (GitOps.ret a).
Proof. by intros c Hc. Qed.

Lemma preserves_bind {A B} (I : GitOps.Console → Prop) (m : GitOps.G A)
    (k : A → GitOps.G B) :
  preserves I m → (∀ a, preserves I (k a)) → preserves I (GitOps.bind m k).
Proof.
  intros Hm Hk c Hc. unfold GitOps.bind. specialize (Hm c Hc).
  destruct (m c) as [a c']. by apply Hk.
Qed.

Section FrontEnd.
Context `{Strings} `{Process}.

Lemma sound_emit (e : GitOps.Event) :
  GitOps.invocations [e] = [] → preserves all_sound (GitOps.emit e).
Proof.
  intros He c Hc. unfold all_sound, GitOps.emit. cbn.
  by rewrite invocations_app, He, app_nil_r.
Qed.

Lemma sound_Scan : preserves all_sound GitOps.Scan.
Proof. intros c Hc. unfold all_sound, GitOps.Scan. by destruct (GitOps.stdin c). Qed.

Lemma sound_prompt (message : string) : preserves all_sound (GitOps.prompt message).
Proof.
  unfold GitOps.prompt.
  apply preserves_bind; [by apply sound_emit|intros _].
  apply preserves_bind; [apply sound_Scan|intros _].
  apply preserves_bind; [by intros c Hc|intros text]. apply preserves_ret.
Qed.

Lemma sound_executeGit (args : list string) :
  sound args → preserves all_sound (GitOps.executeGit args).
Proof.
  intros Hargs. unfold GitOps.executeGit.
  apply preserves_bind; [by apply sound_emit|intros _].
  apply preserves_bind.
  - intros c Hc. unfold all_sound, GitOps.cmd_Run. cbn.
    rewrite invocations_app. apply Forall_app. split; [done|by constructor].
  - intros [|]; (apply preserves_bind; [by apply sound_emit|intros _; apply preserves_ret]).
Qed.

Ltac sound_args :=
  split; [vm_compute; set_solver|repeat constructor; done].

Ltac sound_step :=
  lazymatch goal with
  | |- context [String.eqb ?a ?b] => destruct (String.eqb_spec a b); cbn [negb]
  | |- preserves _ (GitOps.bind _ _) => apply preserves_bind; [|intros ?]
  | |- preserves _ (GitOps.ret _) => apply preserves_ret
  | |- preserves _ (GitOps.prompt _) => apply sound_prompt
  | |- preserves _ (GitOps.executeGit _) => apply sound_executeGit; sound_args
  end.

Lemma sound_operation (choice : string) (handler : GitOps.G (option GitOps.Failure)) :
  GitOps.operation choice = Some handler → preserves all_sound handler.
Proof.
  unfold GitOps.operation.
  repeat (destruct (String.eqb choice _); [intros [= <-]|]); [..|done].
  all: unfold GitOps.handleClone, GitOps.handleInit, GitOps.handleAdd, GitOps.handleCommit,
         GitOps.handlePush, GitOps.handlePull, GitOps.handleCreateBranch,
         GitOps.handleSwitchBranch, GitOps.handleMerge, GitOps.handleDeleteBranch,
         GitOps.handleAddRemote, GitOps.handleReset, GitOps.handleStash.
  all: repeat sound_step.
Qed.

Lemma sound_run_loop (fuel : nat) : preserves all_sound (GitOps.run_loop fuel).
Proof.
  induction fuel as [|fuel IH]; cbn [GitOps.run_loop]; [apply preserves_ret|].
  apply preserves_bind; [by apply sound_emit|intros _].
  apply preserves_bind; [apply sound_prompt|intros choice].
  destruct (GitOps.operation choice) as [handler|] eqn:Hop.
  - apply preserves_bind; [by eapply sound_operation|intros err].
    apply preserves_bind;
      [destruct err; [by apply sound_emit|apply preserves_ret]|intros _].
    apply preserves_bind; [by apply sound_emit|intros _].
    apply preserves_bind; [apply sound_Scan|intros _]. exact IH.
  - destruct (String.eqb choice "0").
    + apply preserves_bind; [by apply sound_emit|intros _]. apply preserves_ret.
    + apply preserves_bind; [by apply sound_emit|intros _]. exact IH.
Qed.

(** X21. Whatever is typed and however git answers, every git command the
    tool runs starts with a subcommand of the menu and has no empty
    argument. *)
Theorem git_commands_are_sound (lookPath : bool) (fuel : nat) (inputs : list string) :
  Forall sound
    (GitOps.invocations
       (GitOps.out (GitOps.main lookPath fuel (GitOps.mkConsole inputs EmptyString [])).2)).
Proof.
  assert (Hmain : preserves all_sound (GitOps.main lookPath fuel)).
  { unfold GitOps.main, GitOps.run. destruct lookPath; [|apply preserves_ret].
    apply preserves_bind; [|intros status; apply preserves_ret].
    apply preserves_bind; [by apply sound_emit|intros _]. apply sound_run_loop. }
  apply Hmain. constructor.
Qed.

(** X22. Once the input is used up the tool never returns: every round
    reads an empty choice, warns, and shows the menu again, and no git
    command is run any more. *)
Theorem used_up_input_never_returns (fuel : nat) (c : GitOps.Console) :
  TrimSpace EmptyString = EmptyString →
  GitOps.stdin c = [] →
  (GitOps.run_loop fuel c).1 = GitOps.Running ∧
  GitOps.stdin (GitOps.run_loop fuel c).2 = [] ∧
  GitOps.invocations (GitOps.out (GitOps.run_loop fuel c).2) =
    GitOps.invocations (GitOps.out c).
Proof.
  intros Htrim. revert c. induction fuel as [|fuel IH]; intros c Hstdin; [done|].
  cbn [GitOps.run_loop]. unfold GitOps.bind, GitOps.showMenu, GitOps.prompt, GitOps.emit,
    GitOps.Scan, GitOps.Text, GitOps.ret, GitOps.bind. cbn. rewrite Hstdin. cbn [GitOps.token]. rewrite Htrim. cbn.
  unfold GitOps.logWarn, GitOps.emit. cbn.
  match goal with |- context [GitOps.run_loop fuel ?c'] =>
    destruct (IH c' eq_refl) as (Hstatus & Hin & Hout) end.
  rewrite Hstatus, Hin, Hout. cbn. by rewrite !invocations_app, !app_nil_r.
Qed.

End FrontEnd.

(** *** The outcome of git *)

Lemma agree_refl (c : GitOps.Console) : agree c c.
Proof. done. Qed.

Lemma alike_ret {A} (R : A → A → Prop) (a1 a2 : A) :
  R a1 a2 → alike R (GitOps.ret a1) (GitOps.ret a2).
Proof. by intros Ha c1 c2 Hc. Qed.

Lemma alike_bind {A B} (R : A → A → Prop) (S : B → B → Prop)
    (m1 m2 : GitOps.G A) (k1 k2 : A → GitOps.G B) :
  alike R m1 m2 → (∀ a1 a2, R a1 a2 → alike S (k1 a1) (k2 a2)) →
  alike S (GitOps.bind m1 k1) (GitOps.bind m2 k2).
Proof.
  intros Hm Hk c1 c2 Hc. unfold GitOps.bind. destruct (Hm c1 c2 Hc) as [Ha Hc'].
  destruct (m1 c1) as [a1 c1'], (m2 c2) as [a2 c2']. by apply Hk.
Qed.

Lemma alike_weaken {A} (R S : A → A → Prop) (m1 m2 : GitOps.G A) :
  (∀ a1 a2, R a1 a2 → S a1 a2) → alike R m1 m2 → alike S m1 m2.
Proof. intros HRS Hm c1 c2 Hc. destruct (Hm c1 c2 Hc). split; [by apply HRS|done]. Qed.

Lemma alike_emit (e : GitOps.Event) : alike eq (GitOps.emit e) (GitOps.emit e).
Proof.
  intros c1 c2 (Hin & Htoken & Hdeeds). unfold agree, GitOps.emit. cbn.
  by rewrite !deeds_app, Hdeeds.
Qed.

(** A step that only writes log lines, beside one that may write others. *)
Lemma alike_logs {A} (m1 m2 : GitOps.G A) :
  (∀ c, agree c (m1 c).2) → (∀ c, agree c (m2 c).2) → alike (λ _ _, True) m1 m2.
Proof.
  intros H1 H2 c1 c2 (Hin & Htoken & Hdeeds). split; [done|].
  destruct (H1 c1) as (Hin1 & Htoken1 & Hdeeds1), (H2 c2) as (Hin2 & Htoken2 & Hdeeds2).
  unfold agree. by rewrite <- Hin1, <- Htoken1, <- Hdeeds1, <- Hin2, <- Htoken2, <- Hdeeds2.
Qed.

Lemma log_agree (e : GitOps.Event) (c : GitOps.Console) :
  deeds [e] = [] → agree c (GitOps.emit e c).2.
Proof. intros He. unfold agree, GitOps.emit. cbn. by rewrite deeds_app, He, app_nil_r. Qed.

Lemma alike_Scan : alike eq GitOps.Scan GitOps.Scan.
Proof.
  intros c1 c2 (Hin & Htoken & Hdeeds). unfold GitOps.Scan. rewrite Hin.
  by destruct (GitOps.stdin c2).
Qed.

Lemma alike_prompt `{Strings} (message : string) :
  alike eq (GitOps.prompt message) (GitOps.prompt message).
Proof.
  unfold GitOps.prompt.
  eapply alike_bind; [apply alike_emit|intros _ _ _].
  eapply alike_bind; [apply alike_Scan|intros _ _ _].
  eapply (alike_bind eq).
  - intros c1 c2 Hc. split; [apply Hc|done].
  - intros text ? <-. by apply alike_ret.
Qed.

Lemma alike_executeGit (P1 P2 : Process) (args : list string) :
  alike (λ _ _, True) (@GitOps.executeGit P1 args) (@GitOps.executeGit P2 args).
Proof.
  unfold GitOps.executeGit.
  eapply alike_bind; [apply alike_emit|intros _ _ _].
  eapply (alike_bind (λ _ _, True)).
  - intros c1 c2 (Hin & Htoken & Hdeeds). split; [done|].
    unfold agree, GitOps.cmd_Run. cbn. by rewrite !deeds_app, Hdeeds.
  - intros ok1 ok2 _. apply alike_logs; intros c; destruct ok1, ok2;
      unfold GitOps.bind, GitOps.logInfo, GitOps.logError, GitOps.ret; cbn;
      by apply log_agree.
Qed.

Ltac alike_step P1 P2 :=
  lazymatch goal with
  | |- context [String.eqb ?a ?b] => destruct (String.eqb a b); cbn [negb]
  | |- alike _ (GitOps.bind (GitOps.prompt _) _) (GitOps.bind _ _) =>
      eapply alike_bind; [apply alike_prompt|intros ? ? <-]
  | |- alike _ (GitOps.ret _) (GitOps.ret _) => by apply alike_ret
  | |- alike _ (GitOps.executeGit _) (GitOps.executeGit _) => apply (alike_executeGit P1 P2)
  end.

Lemma alike_operation `{Strings} (P1 P2 : Process) (choice : string) :
  match @GitOps.operation _ P1 choice, @GitOps.operation _ P2 choice with
  | Some handler1, Some handler2 => alike (λ _ _, True) handler1 handler2
  | None, None => True
  | _, _ => False
  end.
Proof.
  unfold GitOps.operation.
  repeat (destruct (String.eqb choice _); [|]); [..|done].
  all: unfold GitOps.handleClone, GitOps.handleInit, GitOps.handleAdd, GitOps.handleCommit,
         GitOps.handlePush, GitOps.handlePull, GitOps.handleCreateBranch,
         GitOps.handleSwitchBranch, GitOps.handleMerge, GitOps.handleDeleteBranch,
         GitOps.handleAddRemote, GitOps.handleReset, GitOps.handleStash.
  all: repeat alike_step P1 P2.
Qed.

Lemma alike_run_loop `{Strings} (P1 P2 : Process) (fuel : nat) :
  alike eq (@GitOps.run_loop _ P1 fuel) (@GitOps.run_loop _ P2 fuel).
Proof.
  induction fuel as [|fuel IH]; cbn [GitOps.run_loop]; [by apply alike_ret|].
  eapply alike_bind; [apply alike_emit|intros _ _ _].
  eapply alike_bind; [apply alike_prompt|intros choice ? <-].
  pose proof (alike_operation P1 P2 choice) as Hop.
  destruct (@GitOps.operation _ P1 choice) as [handler1|],
           (@GitOps.operation _ P2 choice) as [handler2|]; try done.
  - eapply alike_bind; [exact Hop|intros err1 err2 _].
    eapply (alike_bind (λ _ _, True)).
    + apply alike_logs; intros c; [destruct err1|destruct err2];
        unfold GitOps.logError, GitOps.ret; cbn; by (apply log_agree || done).
    + intros _ _ _. eapply alike_bind; [apply alike_emit|intros _ _ _].
      eapply alike_bind; [apply alike_Scan|intros _ _ _]. exact IH.
  - destruct (String.eqb choice "0").
    + eapply alike_bind; [apply alike_emit|intros _ _ _]. by apply alike_ret.
    + eapply alike_bind; [apply alike_emit|intros _ _ _]. exact IH.
Qed.

(** X23. How git answers never steers the tool: with the same input, two
    runs against processes that succeed and fail differently read the
    same lines, ask the same questions, run the same git commands, and
    return or go on alike.  Only the log lines differ. *)
Theorem git_outcome_never_steers `{Strings} (P1 P2 : Process) (fuel : nat)
    (c : GitOps.Console) :
  (@GitOps.run _ P1 fuel c).1 = (@GitOps.run _ P2 fuel c).1 ∧
  GitOps.stdin (@GitOps.run _ P1 fuel c).2 = GitOps.stdin (@GitOps.run _ P2 fuel c).2 ∧
  deeds (GitOps.out (@GitOps.run _ P1 fuel c).2) =
    deeds (GitOps.out (@GitOps.run _ P2 fuel c).2).
Proof.
  assert (Hrun : alike eq (@GitOps.run _ P1 fuel) (@GitOps.run _ P2 fuel)).
  { unfold GitOps.run. eapply alike_bind; [apply alike_emit|intros _ _ _].
    apply alike_run_loop. }
  destruct (Hrun c c (agree_refl c)) as (Hstatus & Hin & _ & Hdeeds). done.
Qed.

Lemma used_up_input_never_returns_witness :
  (@GitOps.run_loop AsciiStrings AlwaysWorks 7 (GitOps.mkConsole [] "11" [])).1
    = GitOps.Running.
Proof.
  apply (@used_up_input_never_returns AsciiStrings AlwaysWorks 7
           (GitOps.mkConsole [] "11" []) eq_refl eq_refl).
Defined.
